(** * ResourcesContext: generation store, focus and configuration comparator

    A shallow embedding of the state-handling functions of the
    [ResourcesContextProvider] React component: the generation store
    ([updateGens], [removeGen], [clear]), the focus ([changeFocusResource],
    [selectTargetResource], the getters), the functions that put the
    responses of the view service into the graph, and the comparison of
    the stored and the active configuration of a server
    ([compareConfigurations], [flattenPropertyPath]).

    Conventions of the embedding
    - A JavaScript exception (always a [TypeError] in the functions below)
      is an explicit outcome, never a missing case.
    - A value is JSON data.  A property read finds the own properties of
      a value, among them the [length] of an array or a string.  A name
      that the value inherits from its prototype ("constructor",
      "__proto__", "toString", ...) leads to a built-in of the runtime,
      which is not JSON data: the model does not follow the computation
      beyond such a read and says so in the outcome ([Inherited]).  The
      inherited names are those of ECMAScript 2024 with its Annex B.
    - JSON numbers are integers; strings are sequences of code units and
      are ordered code unit by code unit, as [Array.prototype.sort] orders
      them by default.
    - Objects that are used as dictionaries keyed by a GUID are finite
      maps; configuration objects keep their properties in the order
      [Object.keys] enumerates them, because the comparator indexes into
      the key arrays. *)

From Stdlib Require Import ZArith String Ascii List DecimalString.
From stdpp Require Import gmap strings list fin_maps.
Import ListNotations.

Set Warnings "-register-all".

Local Open Scope string_scope.
Local Open Scope list_scope.

(** ** JavaScript values *)

Inductive value : Type :=
| VUndefined
| VNull
| VBool (b : bool)
| VNum (n : Z)
| VStr (s : string)
| VArr (elems : list value)
| VObj (props : list (string * value)).

(** The results of [typeof] that these values can have. *)
Inductive jstype : Type := TUndefined | TObject | TBoolean | TNumber | TString.

Definition typeof (v : value) : jstype :=
  match v with
  | VUndefined => TUndefined
  | VNull | VArr _ | VObj _ => TObject
  | VBool _ => TBoolean
  | VNum _ => TNumber
  | VStr _ => TString
  end.

Definition is_object_type (t : jstype) : bool :=
  match t with TObject => true | _ => false end.

(** [x === y].  Two primitives are equal when they have the same type and
    value.  Objects and arrays are compared by reference; the comparator
    reaches [===] only when its right operand is not of type "object", so
    the two-references case is answered [false] here and never arises. *)
Definition strict_eq (x y : value) : bool :=
  match x, y with
  | VUndefined, VUndefined => true
  | VNull, VNull => true
  | VBool a, VBool b => Bool.eqb a b
  | VNum a, VNum b => Z.eqb a b
  | VStr a, VStr b => String.eqb a b
  | _, _ => false
  end.

(** Why the model stops following a computation: the recursion budget of
    the model is used up, or the computation has read a property that a
    value inherits from its prototype. *)
Inductive stop : Type :=
| Budget
| Prototype.

(** Outcome of a JavaScript computation: it returns, it throws, or the
    model stops following it. *)
Inductive outcome (A : Type) : Type :=
| Ok (a : A)
| TypeError
| Stops (why : stop).
Arguments Ok {A} a.
Arguments TypeError {A}.
Arguments Stops {A} why.

Abbreviation OutOfFuel := (Stops Budget).
Abbreviation Inherited := (Stops Prototype).

Definition obind {A B} (m : outcome A) (f : A -> outcome B) : outcome B :=
  match m with
  | Ok a => f a
  | TypeError => TypeError
  | Stops why => Stops why
  end.

Notation "x <- m ;;; k" := (obind m (fun x => k))
  (at level 100, m at next level, right associativity).

(** The decimal name of an array index, as a property key. *)
Definition index_string (i : nat) : string :=
  NilEmpty.string_of_uint (Nat.to_uint i).

Definition index_keys (n : nat) : list string := map index_string (seq 0 n).

(** [Object.keys(v)]: throws on [null] and [undefined]; primitives other
    than strings have no own enumerable keys; strings and arrays enumerate
    their indices in ascending order. *)
Definition Object_keys (v : value) : outcome (list string) :=
  match v with
  | VUndefined | VNull => TypeError
  | VBool _ | VNum _ => Ok []
  | VStr s => Ok (index_keys (String.length s))
  | VArr l => Ok (index_keys (List.length l))
  | VObj ps => Ok (map fst ps)
  end.

Fixpoint assoc (k : string) (ps : list (string * value)) : value :=
  match ps with
  | [] => VUndefined
  | (k', v) :: t => if String.eqb k k' then v else assoc k t
  end.

Definition index_of_key (k : string) (n : nat) : option nat :=
  List.find (fun i => String.eqb (index_string i) k) (seq 0 n).

(** [l.includes(s)] *)
Definition includes (l : list string) (s : string) : bool :=
  existsb (String.eqb s) l.

(** The names of the properties of the built-in prototypes. *)
Definition Object_prototype_names : list string :=
  ["constructor"; "__defineGetter__"; "__defineSetter__"; "hasOwnProperty";
   "__lookupGetter__"; "__lookupSetter__"; "isPrototypeOf";
   "propertyIsEnumerable"; "toString"; "valueOf"; "__proto__";
   "toLocaleString"].

Definition Boolean_prototype_names : list string :=
  ["constructor"; "toString"; "valueOf"].

Definition Number_prototype_names : list string :=
  ["constructor"; "toExponential"; "toFixed"; "toLocaleString"; "toPrecision";
   "toString"; "valueOf"].

Definition String_prototype_names : list string :=
  ["length"; "constructor"; "anchor"; "at"; "big"; "blink"; "bold"; "charAt";
   "charCodeAt"; "codePointAt"; "concat"; "endsWith"; "fontcolor"; "fontsize";
   "fixed"; "includes"; "indexOf"; "isWellFormed"; "italics"; "lastIndexOf";
   "link"; "localeCompare"; "match"; "matchAll"; "normalize"; "padEnd";
   "padStart"; "repeat"; "replace"; "replaceAll"; "search"; "slice"; "small";
   "split"; "strike"; "sub"; "substr"; "substring"; "sup"; "startsWith";
   "toString"; "toWellFormed"; "trim"; "trimStart"; "trimLeft"; "trimEnd";
   "trimRight"; "toLocaleLowerCase"; "toLocaleUpperCase"; "toLowerCase";
   "toUpperCase"; "valueOf"].

Definition Array_prototype_names : list string :=
  ["length"; "constructor"; "at"; "concat"; "copyWithin"; "fill"; "find";
   "findIndex"; "findLast"; "findLastIndex"; "lastIndexOf"; "pop"; "push";
   "reverse"; "shift"; "unshift"; "slice"; "sort"; "splice"; "includes";
   "indexOf"; "join"; "keys"; "entries"; "values"; "forEach"; "filter";
   "flat"; "flatMap"; "map"; "every"; "some"; "reduce"; "reduceRight";
   "toLocaleString"; "toString"; "toReversed"; "toSorted"; "toSpliced";
   "with"].

(** The names a value finds on its prototype chain. *)
Definition inherited_names (v : value) : list string :=
  match v with
  | VUndefined | VNull => []
  | VBool _ => Boolean_prototype_names ++ Object_prototype_names
  | VNum _ => Number_prototype_names ++ Object_prototype_names
  | VStr _ => String_prototype_names ++ Object_prototype_names
  | VArr _ => Array_prototype_names ++ Object_prototype_names
  | VObj _ => Object_prototype_names
  end.

(** [v[k]] when [v] has no own property [k]: what the prototype chain
    holds under [k] is a built-in, which the model does not follow; a
    name the chain does not hold reads [undefined]. *)
Definition read_prototype (v : value) (k : string) : outcome value :=
  if includes (inherited_names v) k then Inherited else Ok VUndefined.

Arguments inherited_names v : simpl never.
Arguments read_prototype v k : simpl never.

(** [v[k]]: throws on [null] and [undefined]; finds the own properties of
    [v] (the indices and the [length] of a string or an array, the
    properties of an object) and otherwise looks on the prototype chain. *)
Definition get_prop (v : value) (k : string) : outcome value :=
  match v with
  | VUndefined | VNull => TypeError
  | VBool _ | VNum _ => read_prototype v k
  | VStr s =>
      match index_of_key k (String.length s) with
      | Some i =>
          match String.get i s with
          | Some c => Ok (VStr (String c EmptyString))
          | None => Ok VUndefined
          end
      | None =>
          if String.eqb k "length" then Ok (VNum (Z.of_nat (String.length s)))
          else read_prototype v k
      end
  | VArr l =>
      match index_of_key k (List.length l) with
      | Some i => Ok (nth i l VUndefined)
      | None =>
          if String.eqb k "length" then Ok (VNum (Z.of_nat (List.length l)))
          else read_prototype v k
      end
  | VObj ps =>
      if includes (map fst ps) k then Ok (assoc k ps) else read_prototype v k
  end.

(** ** Array helpers *)

(** [Object.assign(target, source)] on two arrays: every index of
    [source] is written into [target]; the indices of [target] beyond the
    length of [source] keep their elements. *)
Definition array_assign {A} (target source : list A) : list A :=
  source ++ skipn (List.length source) target.

Fixpoint insert_sorted (s : string) (l : list string) : list string :=
  match l with
  | [] => [s]
  | h :: t => if String.leb s h then s :: l else h :: insert_sorted s t
  end.

(** [names.sort()] with the default comparison, on an array of strings. *)
Definition Array_sort (l : list string) : list string :=
  fold_right insert_sorted [] l.

(** [l.forEach(body)] for a body that updates the accumulated variables
    and may throw. *)
Fixpoint forEach {A S} (l : list A) (body : A -> S -> outcome S) (s : S)
  : outcome S :=
  match l with
  | [] => Ok s
  | x :: t => s' <- body x s ;;; forEach t body s'
  end.

(** ** flattenPropertyPath *)

Definition flattenPropertyPath (propPath : list string) : value :=
  match propPath with
  | [] => VNull
  | p0 :: rest =>
      VStr (fold_left
              (fun flatPath p => String.append flatPath (String.append "." p))
              rest p0)
  end.

(** ** compareConfigurations *)

Definition excludeProps : list string := ["class"].

(** The merged array of property names:
    [Object.assign([], activeConfigPropNames, storedConfigPropNames)]. *)
Definition configPropNames (activeConfigPropNames storedConfigPropNames : list string)
  : list string :=
  array_assign (array_assign [] activeConfigPropNames) storedConfigPropNames.

(** The variables a run of the comparator updates: [matched] and the
    caller's array [mpn]. *)
Definition cmp_state : Type := bool * list value.

(** The body of the [forEach] over the sorted property names.  [recur] is
    the comparator itself, for the nested call. *)
Definition compareProperty
    (recur : value -> value -> list string -> list value -> outcome cmp_state)
    (storedConfig activeConfig : value) (propertyPath : list string)
    (propName : string) (st : cmp_state) : outcome cmp_state :=
  let '(matched, mpn) := st in
  if includes excludeProps propName then Ok (matched, mpn)
  else
    activeValue <- get_prop activeConfig propName ;;;
    let propType := typeof activeValue in
    if is_object_type propType then
      let localPropertyPath := propertyPath ++ [propName] in
      storedValue <- get_prop storedConfig propName ;;;
      r <- recur storedValue activeValue localPropertyPath mpn ;;;
      let '(match_, mpn') := r in
      Ok (if match_ then matched else false, mpn')
    else
      storedValue <- get_prop storedConfig propName ;;;
      let match_ := strict_eq storedValue activeValue in
      if match_ then Ok (matched, mpn)
      else
        let localPropertyPath := propertyPath ++ [propName] in
        let propertyLocator := flattenPropertyPath localPropertyPath in
        Ok (false, mpn ++ [propertyLocator]).

Fixpoint compareConfigurations_fuel (fuel : nat)
    (storedConfig activeConfig : value) (propertyPath : list string)
    (mpn : list value) : outcome cmp_state :=
  match fuel with
  | 0 => OutOfFuel
  | S fuel' =>
      activeConfigPropNames <- Object_keys activeConfig ;;;
      storedConfigPropNames <- Object_keys storedConfig ;;;
      let configPropNamesSorted :=
        Array_sort (configPropNames activeConfigPropNames storedConfigPropNames) in
      forEach configPropNamesSorted
        (compareProperty (compareConfigurations_fuel fuel')
           storedConfig activeConfig propertyPath)
        (true, mpn)
  end.

(** Nesting depth of a value: the recursion of the comparator follows
    [activeConfig] downwards, one level per nested call. *)
Fixpoint depth (v : value) : nat :=
  match v with
  | VArr l =>
      S ((fix go (l : list value) : nat :=
            match l with
            | [] => 0
            | x :: t => Nat.max (depth x) (go t)
            end) l)
  | VObj ps =>
      S ((fix go (ps : list (string * value)) : nat :=
            match ps with
            | [] => 0
            | (_, x) :: t => Nat.max (depth x) (go t)
            end) ps)
  | _ => 0
  end.

(** The comparator, with a budget that its recursion cannot exhaust
    (see [compareConfigurations_fuel_enough]). *)
Definition compareConfigurations (storedConfig activeConfig : value)
    (propertyPath : list string) (mpn : list value) : outcome cmp_state :=
  compareConfigurations_fuel (S (depth activeConfig))
    storedConfig activeConfig propertyPath mpn.

(** ** The state of the provider *)

(** A resource or a relationship: an object whose fields are merged one by
    one (category, guid, gen, platformName, ...). *)
Abbreviation entity := (gmap string value).

(** A generation, as [createEmptyGen] lays it out. *)
Record gen : Type := mkGen {
  requestSummary : value;
  resources : gmap string entity;
  relationships : gmap string entity
}.

Record Focus : Type := mkFocus { category : string; guid : string }.

Record OperationState : Type := mkOperationState {
  op_state : string;
  op_name : value
}.

(** The five state cells of the component that the functions below use. *)
Record provider : Type := mkProvider {
  focus : Focus;
  serverConfig : entity;
  operationState : OperationState;
  gens : list gen;
  guidToGenId : gmap string nat
}.

(** The state setters replace one cell and keep the others. *)
Definition setFocus (f : Focus) (st : provider) : provider :=
  mkProvider f (serverConfig st) (operationState st) (gens st) (guidToGenId st).

Definition setServerConfig (c : entity) (st : provider) : provider :=
  mkProvider (focus st) c (operationState st) (gens st) (guidToGenId st).

Definition setOperationState (o : OperationState) (st : provider) : provider :=
  mkProvider (focus st) (serverConfig st) o (gens st) (guidToGenId st).

Definition setGens (gs : list gen) (st : provider) : provider :=
  mkProvider (focus st) (serverConfig st) (operationState st) gs (guidToGenId st).

Definition setGuidToGenId (m : gmap string nat) (st : provider) : provider :=
  mkProvider (focus st) (serverConfig st) (operationState st) (gens st) m.

(** The state the component starts in. *)
Definition initial_provider : provider :=
  mkProvider (mkFocus "" "")
    (<["stored" := VNull]> (<["active" := VNull]> (<["matching" := VBool true]>
       (<["diffs" := VNull]> (<["loading" := VStr "init"]> ∅)))))
    (mkOperationState "inactive" (VStr ""))
    [] ∅.

Definition no_focus : Focus := mkFocus "" "".

Definition cleared_serverConfig : entity :=
  <["stored" := VNull]> (<["active" := VNull]> (<["loading" := VStr "init"]> ∅)).

Definition getLatestGenId (st : provider) : nat := List.length (gens st).

Definition createEmptyGen (rs : value) : gen := mkGen rs ∅ ∅.

(** [Object.keys(m)] of a dictionary. *)
Definition keys {V} (m : gmap string V) : list string := (map_to_list m).*1.

(** [Object.assign(target, source)] on two objects: every field of
    [source] overwrites the field of the same name in [target]; the other
    fields of [target] stay. *)
Definition Object_assign (target source : entity) : entity := source ∪ target.

(** [gs[genId - 1]]; index [-1] holds nothing. *)
Definition lookup_gen (gs : list gen) (genId : nat) : option gen :=
  match genId with
  | 0 => None
  | S i => gs !! i
  end.

(** [a[i] = x] with [i <= a.length]: inside the array the element is
    replaced, at [i = a.length] the array grows by one. *)
Definition array_store {A} (a : list A) (i : nat) (x : A) : list A :=
  if decide (i < List.length a) then <[i := x]> a else a ++ [x].

(** ** updateGens *)

(** The two loops of [updateGens] have the same body, once over
    [resources] and once over [relationships]. *)
Inductive kind : Type := Resource | Relationship.

Definition entities (k : kind) (g : gen) : gmap string entity :=
  match k with
  | Resource => resources g
  | Relationship => relationships g
  end.

Definition set_entity (k : kind) (id : string) (e : entity) (g : gen) : gen :=
  match k with
  | Resource => mkGen (requestSummary g) (<[id := e]> (resources g)) (relationships g)
  | Relationship => mkGen (requestSummary g) (resources g) (<[id := e]> (relationships g))
  end.

Record update : Type := mkUpdate {
  u_resources : gmap string entity;
  u_relationships : gmap string entity
}.

Definition u_entities (k : kind) (u : update) : gmap string entity :=
  match k with
  | Resource => u_resources u
  | Relationship => u_relationships u
  end.

(** The local variables of [updateGens] that its loops update. *)
Record merge_state : Type := mkMerge {
  gens_clone : list gen;
  map_clone : gmap string nat;
  addingGen : bool;
  ad_gen : gen
}.

(** The body of either loop, for the identifier [id] and the object
    [upd] the update holds under it.  Whether [id] is known is read from
    the index of the state, not from [map_clone]. *)
Definition processKey (k : kind) (index : gmap string nat) (ad_genId : nat)
    (entry : string * entity) (ms : merge_state) : outcome merge_state :=
  let '(id, upd) := entry in
  match index !! id with
  | Some ex_genId =>
      match lookup_gen (gens_clone ms) ex_genId with
      | None => TypeError
      | Some ex_gen =>
          match entities k ex_gen !! id with
          | None => TypeError
          | Some existing =>
              let merged := Object_assign existing upd in
              Ok (mkMerge
                    (<[ex_genId - 1 := set_entity k id merged ex_gen]> (gens_clone ms))
                    (map_clone ms) (addingGen ms) (ad_gen ms))
          end
      end
  | None =>
      Ok (mkMerge (gens_clone ms)
            (<[id := ad_genId]> (map_clone ms))
            true
            (set_entity k id (<["gen" := VNum (Z.of_nat ad_genId)]> upd) (ad_gen ms)))
  end.

Definition updateGens (update_objects : update) (rs : value) (st : provider)
  : outcome provider :=
  let ad_genId := getLatestGenId st + 1 in
  let ms0 := mkMerge (gens st) (guidToGenId st) false (createEmptyGen rs) in
  ms1 <- forEach (map_to_list (u_resources update_objects))
           (processKey Resource (guidToGenId st) ad_genId) ms0 ;;;
  ms2 <- forEach (map_to_list (u_relationships update_objects))
           (processKey Relationship (guidToGenId st) ad_genId) ms1 ;;;
  let gens' :=
    if addingGen ms2 then array_store (gens_clone ms2) (ad_genId - 1) (ad_gen ms2)
    else gens_clone ms2 in
  let st' := setGens gens' st in
  Ok (if addingGen ms2 then setGuidToGenId (map_clone ms2) st' else st').

(** ** removeGen *)

(** [newList.pop()]: the shortened array and the element removed, or
    nothing when the array is empty. *)
Fixpoint pop {A} (l : list A) : option (list A * A) :=
  match l with
  | [] => None
  | x :: t =>
      match pop t with
      | None => Some ([], x)
      | Some (t', y) => Some (x :: t', y)
      end
  end.

Definition delete_keys (ks : list string) (m : gmap string nat) : gmap string nat :=
  fold_left (fun acc r => delete r acc) ks m.

Definition removeGen (st : provider) : outcome provider :=
  match pop (gens st) with
  | None => TypeError
  | Some (newList, removedGen) =>
      let st1 :=
        match resources removedGen !! guid (focus st) with
        | Some _ =>
            setOperationState (mkOperationState "inactive" (VStr ""))
              (setServerConfig cleared_serverConfig (setFocus no_focus st))
        | None => st
        end in
      let st2 := setGens newList st1 in
      let newGUIDMap :=
        delete_keys (keys (relationships removedGen))
          (delete_keys (keys (resources removedGen)) (guidToGenId st)) in
      Ok (setGuidToGenId newGUIDMap st2)
  end.

(** ** Focus *)

Definition clearFocusResource (st : provider) : provider :=
  setServerConfig cleared_serverConfig (setFocus no_focus st).

(** [focus[p]]: a focus object has the two fields it is created with. *)
Definition focus_prop (f : Focus) (p : string) : value :=
  if String.eqb p "category" then VStr (category f)
  else if String.eqb p "guid" then VStr (guid f)
  else VUndefined.

(** [e[p]] for a field of a resource. *)
Definition field (e : entity) (p : string) : value := default VUndefined (e !! p).

Section ChangeFocus.

(** The loaders [loadPlatform], [loadServerFromGen] and
    [loadServiceFromGen] read the state and post a request through the
    request context, or raise an alert; they call none of the state
    setters.  What they emit is kept abstract. *)
Context {effect : Type}.
Variable loadPlatform : value -> outcome (list effect).
Variable loadServerFromGen : provider -> entity -> outcome (list effect).
Variable loadServiceFromGen : provider -> entity -> outcome (list effect).

Definition changeFocusResource (id : string) (st : provider)
  : outcome (provider * list effect) :=
  if strict_eq (VStr id) (focus_prop (focus st) "instanceGUID") then
    Ok (clearFocusResource st, [])
  else
    match guidToGenId st !! id with
    | None => Ok (st, [])
    | Some genId =>
        match lookup_gen (gens st) genId with
        | None => TypeError
        | Some g =>
            match resources g !! id with
            | None => TypeError
            | Some resource =>
                let resource_category := field resource "category" in
                let loading n := setOperationState (mkOperationState "loading" n) st in
                if strict_eq resource_category (VStr "platform") then
                  eff <- loadPlatform (field resource "platformName") ;;;
                  Ok (loading (field resource "platformName"), eff)
                else if strict_eq resource_category (VStr "server-instance") then
                  eff <- loadServerFromGen st resource ;;;
                  Ok (loading (field resource "serverInstanceName"), eff)
                else if strict_eq resource_category (VStr "service-instance") then
                  eff <- loadServiceFromGen st resource ;;;
                  Ok (loading (field resource "serviceInstanceName"), eff)
                else Ok (st, [])
            end
        end
    end.

End ChangeFocus.

(** ** Predicates and sample data used in the statements *)

(** No [null] anywhere inside the value. *)
Fixpoint null_free (v : value) : bool :=
  match v with
  | VNull => false
  | VArr l =>
      (fix go (l : list value) : bool :=
         match l with
         | [] => true
         | x :: t => null_free x && go t
         end) l
  | VObj ps =>
      (fix go (ps : list (string * value)) : bool :=
         match ps with
         | [] => true
         | (_, x) :: t => null_free x && go t
         end) ps
  | _ => true
  end.

(** [{a: 1}], [{a: 2}], [{a: {b: 1}}] and [{a: {b: 2}}]. *)
Definition cfg_a1 : value := VObj [("a", VNum 1)].
Definition cfg_a2 : value := VObj [("a", VNum 2)].
Definition cfg_ab1 : value := VObj [("a", VObj [("b", VNum 1)])].
Definition cfg_ab2 : value := VObj [("a", VObj [("b", VNum 2)])].

(** [{b: 1}] stored against [{a: 5, b: 1}] active. *)
Definition cfg_stored_b : value := VObj [("b", VNum 1)].
Definition cfg_active_ab : value := VObj [("a", VNum 5); ("b", VNum 1)].

(** [{a: null}]. *)
Definition cfg_null : value := VObj [("a", VNull)].

(** [{}]. *)
Definition cfg_empty : value := VObj [].

#[global] Instance kind_eq_dec : EqDecision kind.
Proof. solve_decision. Defined.

(** The entity that generation number [genId] (1-based) holds for [id]
    under [k], if any. *)
Definition entity_at (gs : list gen) (genId : nat) (k : kind) (id : string)
  : option entity :=
  match lookup_gen gs genId with
  | Some g => entities k g !! id
  | None => None
  end.

Definition stores (gs : list gen) (genId : nat) (k : kind) (id : string) : Prop :=
  is_Some (entity_at gs genId k id).

(** Every identifier of the index maps to the number of a generation that
    holds it, in its resources or in its relationships. *)
Definition index_consistent (st : provider) : Prop :=
  forall id genId,
    guidToGenId st !! id = Some genId ->
    stores (gens st) genId Resource id \/ stores (gens st) genId Relationship id.

(** The update fits the state: an identifier the index knows and the
    update supplies as a resource (a relationship) is stored as a resource
    (a relationship) in the generation the index names.  Without this
    [updateGens] throws while it merges. *)
Definition applicable (st : provider) (u : update) : Prop :=
  forall k id upd genId,
    u_entities k u !! id = Some upd ->
    guidToGenId st !! id = Some genId ->
    stores (gens st) genId k id.

(** [id] is supplied by the update and unknown to the index. *)
Definition fresh (st : provider) (u : update) (k : kind) (id : string) : Prop :=
  is_Some (u_entities k u !! id) /\ guidToGenId st !! id = None.

(** Sample data: a platform, a server and the edge between them. *)
Definition platform_p : entity :=
  <["category" := VStr "platform"]> (<["guid" := VStr "PLATFORM_p"]>
    (<["platformName" := VStr "p"]> ∅)).

Definition server_s : entity :=
  <["category" := VStr "server-instance"]> (<["guid" := VStr "SERVER_INSTANCE_s"]>
    (<["serverInstanceName" := VStr "s"]> ∅)).

Definition edge_ps : entity :=
  <["category" := VStr "platform-server-edge"]> (<["guid" := VStr "PLATFORM_TO_SERVER_s@p"]>
    (<["source" := VStr "PLATFORM_p"]> (<["target" := VStr "SERVER_INSTANCE_s"]> ∅))).

Definition platform_p_reloaded : entity :=
  <["platformName" := VStr "p"]> (<["description" := VStr "reloaded"]> ∅).

(** The update of a first platform query, and of a later server query
    that also reports the platform again. *)
Definition update_platform : update :=
  mkUpdate (<["PLATFORM_p" := platform_p]> ∅) ∅.

Definition update_servers : update :=
  mkUpdate (<["PLATFORM_p" := platform_p_reloaded]> (<["SERVER_INSTANCE_s" := server_s]> ∅))
           (<["PLATFORM_TO_SERVER_s@p" := edge_ps]> ∅).

Definition stored_platform_p : entity := <["gen" := VNum 1]> platform_p.

Definition gen_platform : gen :=
  mkGen (VStr "platform p") (<["PLATFORM_p" := stored_platform_p]> ∅) ∅.

(** The state once the platform [p] is loaded and has the focus. *)
Definition provider_platform : provider :=
  mkProvider (mkFocus "platform" "PLATFORM_p") cleared_serverConfig
    (mkOperationState "inactive" (VStr ""))
    [gen_platform] (<["PLATFORM_p" := 1]> ∅).

(** The same graph with the focus on something no generation holds. *)
Definition provider_elsewhere : provider :=
  setFocus (mkFocus "server-instance" "SERVER_INSTANCE_t") provider_platform.

(** The state [updateGens] leaves, from the variables at the end of its
    two loops. *)
Definition finish (st : provider) (ms : merge_state) : provider :=
  if addingGen ms
  then mkProvider (focus st) (serverConfig st) (operationState st)
         (gens_clone ms ++ [ad_gen ms]) (map_clone ms)
  else mkProvider (focus st) (serverConfig st) (operationState st)
         (gens_clone ms) (guidToGenId st).

Definition start (st : provider) (rs : value) : merge_state :=
  mkMerge (gens st) (guidToGenId st) false (createEmptyGen rs).




Definition cfg_proto_1 : value := VObj [("__proto__", VNum 1)].
Definition cfg_proto_2 : value := VObj [("__proto__", VNum 2)].

(** ** The caller of the comparator *)

(** Truthiness, as [if (v)], [!v] and [a && b] read a value. *)
Definition truthy (v : value) : bool :=
  match v with
  | VUndefined | VNull => false
  | VBool b => b
  | VNum n => negb (Z.eqb n 0)
  | VStr s => negb (String.eqb s "")
  | VArr _ | VObj _ => true
  end.

(** [s.split(sep)] for a separator of one character. *)
Fixpoint String_split (sep : ascii) (s : string) : list string :=
  match s with
  | EmptyString => [EmptyString]
  | String c rest =>
      if Ascii.eqb c sep then EmptyString :: String_split sep rest
      else
        match String_split sep rest with
        | [] => [String c EmptyString]
        | h :: t => String c h :: t
        end
  end.

(** The reducer [index = (obj, i) => obj[i]]. *)
Definition index (obj : value) (i : string) : outcome value := get_prop obj i.

(** [names.reduce(index, obj)]. *)
Fixpoint reduce_index (names : list string) (obj : value) : outcome value :=
  match names with
  | [] => Ok obj
  | i :: rest => next <- index obj i ;;; reduce_index rest next
  end.

(** [o[k] = v] on an object that keeps its properties in order: an
    existing own property keeps its place, a new one goes last.  The name
    ["__proto__"], when it is not an own property, is the accessor of
    [Object.prototype]: the assignment goes to its setter, which replaces
    the prototype of [o] when [v] is an object and adds no own property. *)
Fixpoint obj_set (k : string) (v : value) (ps : list (string * value))
  : list (string * value) :=
  match ps with
  | [] => if String.eqb k "__proto__" then [] else [(k, v)]
  | (k', v') :: t =>
      if String.eqb k k' then (k, v) :: t else (k', v') :: obj_set k v t
  end.

(** The body of the loop that fills [differences]. *)
Definition add_difference (storedConfig activeConfig : value) (propName : value)
    (differences : list (string * value)) : outcome (list (string * value)) :=
  match propName with
  | VStr name =>
      storedValue <- reduce_index (String_split "." name) storedConfig ;;;
      activeValue <- reduce_index (String_split "." name) activeConfig ;;;
      Ok (obj_set name (VObj [("active", activeValue); ("stored", storedValue)])
            differences)
  | _ => TypeError
  end.

(** A call of [interactionContext.reportFailedOperation]. *)
Definition failure_report : Type := string * value.

Definition loaded_serverConfig (stored active matching diffs : value) : entity :=
  <["stored" := stored]> (<["active" := active]> (<["matching" := matching]>
    (<["diffs" := diffs]> (<["loading" := VStr "loaded"]> ∅)))).

(** The callback that receives the stored and active configuration of a
    server.  It returns the state it leaves and the failures it reports. *)
Definition _loadServerConfiguration (json : value) (st : provider)
  : outcome (provider * list failure_report) :=
  let failed := Ok (st, [("load server configuration", json)]) in
  if truthy json then
    code <- get_prop json "relatedHTTPCode" ;;;
    if strict_eq code (VNum 200) then
      storedConfig <- get_prop json "storedConfig" ;;;
      activeConfig <- get_prop json "activeConfig" ;;;
      if truthy storedConfig && truthy activeConfig then
        r <- compareConfigurations storedConfig activeConfig [] [] ;;;
        let '(matched, mismatchedPropertyNames) := r in
        differences <-
          (if matched then Ok []
           else forEach mismatchedPropertyNames
                  (add_difference storedConfig activeConfig) []) ;;;
        Ok (setServerConfig
              (loaded_serverConfig storedConfig activeConfig
                 (VStr (if matched then "true" else "false"))
                 (VObj differences))
              st, [])
      else if truthy storedConfig then
        Ok (setServerConfig
              (loaded_serverConfig storedConfig VNull (VStr "true") VNull) st, [])
      else failed
    else failed
  else failed.

(** A path the comparator may report below [propertyPath]: it extends
    [propertyPath] by at least one name, and no added name is excluded. *)
Definition reportable (propertyPath path : list string) : Prop :=
  exists names,
    path = propertyPath ++ names /\ names <> [] /\
    Forall (fun n => includes excludeProps n = false) names.

(** The name has no ['.'] in it. *)
Fixpoint dot_free (s : string) : bool :=
  match s with
  | EmptyString => true
  | String c rest => negb (Ascii.eqb c ".") && dot_free rest
  end.

(** The text that follows the first name of a flattened path. *)
Fixpoint dotted (names : list string) : string :=
  match names with
  | [] => EmptyString
  | n :: rest => String.append "." (String.append n (dotted rest))
  end.

(** [{}] stored against [{a: {b: 1}}] active, and a response carrying
    [{a: 1}] and [{a: 2}]. *)
Definition cfg_active_nested : value := VObj [("a", VObj [("b", VNum 1)])].

Definition response_a1_a2 : value :=
  VObj [("relatedHTTPCode", VNum 200); ("storedConfig", cfg_a1);
        ("activeConfig", cfg_a2)].

Definition response_proto : value :=
  VObj [("relatedHTTPCode", VNum 200); ("storedConfig", cfg_proto_1);
        ("activeConfig", cfg_proto_2)].

(** ** Further functions and predicates of the store *)

(** [getNumGens]. *)
Definition getNumGens (st : provider) : nat := List.length (gens st).

(** [resourceExists(guid)]: the index knows the identifier. *)
Definition resourceExists (st : provider) (id : string) : bool :=
  bool_decide (is_Some (guidToGenId st !! id)).

(** [clear]: no focus, no generations, an empty index. *)
Definition clear (st : provider) : provider :=
  setGuidToGenId ∅ (setGens [] (clearFocusResource st)).

(** Every identifier a generation holds is indexed to that generation. *)
Definition index_complete (st : provider) : Prop :=
  forall genId k id,
    stores (gens st) genId k id -> guidToGenId st !! id = Some genId.

(** The request summary of generation number [genId]. *)
Definition summary_at (gs : list gen) (genId : nat) : option value :=
  requestSummary <$> lookup_gen gs genId.

(** The update supplies [id], as a resource or as a relationship. *)
Definition supplied (u : update) (id : string) : Prop :=
  is_Some (u_resources u !! id) \/ is_Some (u_relationships u !! id).

(** ** Strings and GUID generators *)

(** The string a value turns into when it is concatenated to a string
    (numbers are printed in decimal). *)
Fixpoint ToString (v : value) : string :=
  match v with
  | VUndefined => "undefined"
  | VNull => "null"
  | VBool true => "true"
  | VBool false => "false"
  | VNum n => NilZero.string_of_int (Z.to_int n)
  | VStr s => s
  | VArr l =>
      (fix join (l : list value) : string :=
         match l with
         | [] => EmptyString
         | x :: t =>
             let first :=
               match x with
               | VUndefined | VNull => EmptyString
               | _ => ToString x
               end in
             match t with
             | [] => first
             | _ :: _ => String.append first (String.append "," (join t))
             end
         end) l
  | VObj _ => "[object Object]"
  end.

(** [prefix + v] for a string [prefix]. *)
Definition string_concat (prefix : string) (v : value) : string :=
  String.append prefix (ToString v).

Definition genPlatformGUID (platformRootName : value) : string :=
  string_concat "PLATFORM_" platformRootName.

Definition genServerInstanceGUID (serverInstanceName : value) : string :=
  string_concat "SERVER_INSTANCE_" serverInstanceName.

Definition genPlatformServerEdgeGUID (edgeName : value) : string :=
  string_concat "PLATFORM_TO_SERVER_" edgeName.

Definition genServiceInstanceGUID (serviceName : value) : string :=
  string_concat "SERVICE_INSTANCE_" serviceName.

Definition genCohortGUID (cohortName : value) : string :=
  string_concat "COHORT_" cohortName.

Definition genServerCohortGUID (serverCohortName : value) : string :=
  string_concat "SERVER_COHORT" serverCohortName.

(** ** Getters *)

(** What a getter of the focus returns: the stored resource, [undefined]
    or [null]. *)
Inductive focus_result : Type :=
| ReturnsEntity (e : entity)
| ReturnsUndefined
| ReturnsNull.

(** The common body of [getFocusPlatform], [getFocusServer] and
    [getFocusService], which differ in the category they ask for. *)
Definition getFocusOfCategory (wanted : string) (st : provider) : outcome focus_result :=
  if String.eqb (category (focus st)) wanted then
    if truthy (VStr (guid (focus st))) then
      match guidToGenId st !! guid (focus st) with
      | Some genId =>
          if truthy (VNum (Z.of_nat genId)) then
            match lookup_gen (gens st) genId with
            | None => TypeError
            | Some g =>
                Ok (match resources g !! guid (focus st) with
                    | Some e => ReturnsEntity e
                    | None => ReturnsUndefined
                    end)
            end
          else Ok ReturnsNull
      | None => Ok ReturnsNull
      end
    else Ok ReturnsNull
  else Ok ReturnsNull.

Definition getFocusPlatform : provider -> outcome focus_result :=
  getFocusOfCategory "platform".

Definition getFocusServer : provider -> outcome focus_result :=
  getFocusOfCategory "server-instance".

Definition getFocusService : provider -> outcome focus_result :=
  getFocusOfCategory "service-instance".

(** [mapPlatformGUIDToPlatformName]: the platform name and the alerts
    raised. *)
Definition mapPlatformGUIDToPlatformName (id : string) (st : provider)
  : value * list string :=
  let not_found :=
    (VNull,
     [String.append "Could not map supplied platform GUID "
        (String.append id " to a platform!")]) in
  match guidToGenId st !! id with
  | Some platformGenId =>
      if truthy (VNum (Z.of_nat platformGenId)) then
        match lookup_gen (gens st) platformGenId with
        | Some platformGen =>
            match resources platformGen !! id with
            | Some platform => (field platform "platformName", [])
            | None => not_found
            end
        | None => not_found
        end
      else not_found
  | None => not_found
  end.

(** ** The functions that put query results into the graph *)

(** An object built by a sequence of assignments [o.k = v]. *)
Definition object_of (assignments : list (string * value)) : entity :=
  fold_left (fun o kv => <[kv.1 := kv.2]> o) assignments ∅.

(** The value the last assignment to [k] in the sequence gave it. *)
Fixpoint assigned_value (k : string) (assignments : list (string * value))
    (before : option value) : option value :=
  match assignments with
  | [] => before
  | (k', v) :: rest =>
      assigned_value k rest (if String.eqb k k' then Some v else before)
  end.

(** The own properties of a parsed object, as an entity. *)
Definition entity_of_props (props : list (string * value)) : entity :=
  list_to_map props.

Definition inactive : OperationState := mkOperationState "inactive" (VStr "").

Definition processRetrievedPlatform (rs platformOverview : value) (st : provider)
  : outcome provider :=
  platformRootURL <- get_prop platformOverview "platformRootURL" ;;;
  if negb (truthy platformRootURL) then Ok st
  else
    platformName <- get_prop platformOverview "platformName" ;;;
    let id := genPlatformGUID platformName in
    match platformOverview with
    | VObj props =>
        let platform :=
          <["guid" := VStr id]> (<["category" := VStr "platform"]> (entity_of_props props)) in
        let update_objects := mkUpdate (<[id := platform]> ∅) ∅ in
        st1 <- updateGens update_objects rs st ;;;
        Ok (setOperationState inactive
              (setServerConfig cleared_serverConfig
                 (setFocus (mkFocus "platform" id) st1)))
    | _ => TypeError
    end.

(** The callback of [loadPlatform]: the state it leaves and the failures
    it reports. *)
Definition _loadPlatform (json : value) (st : provider)
  : outcome (provider * list failure_report) :=
  let failed := Ok (st, [("load platform", json)]) in
  if truthy json then
    code <- get_prop json "relatedHTTPCode" ;;;
    if strict_eq code (VNum 200) then
      rs <- get_prop json "requestSummary" ;;;
      platformOverview <- get_prop json "platformOverview" ;;;
      if truthy rs && truthy platformOverview then
        st' <- processRetrievedPlatform rs platformOverview st ;;;
        Ok (st', [])
      else failed
    else failed
  else failed.

(** The body of the loop of [loadServersFromPlatformQuery] over the listed
    servers. *)
Definition addListedServer (listedServer : value) (update_objects : update)
  : outcome update :=
  serverName <- get_prop listedServer "serverName" ;;;
  platformName <- get_prop listedServer "platformName" ;;;
  if negb (truthy serverName) || negb (truthy platformName) then Ok update_objects
  else
    listedName <- get_prop listedServer "serverInstanceName" ;;;
    let serverInstanceName :=
      if negb (truthy listedName)
      then VStr (String.append (string_concat (ToString serverName) (VStr "@")) (ToString platformName))
      else listedName in
    isActive <- get_prop listedServer "isActive" ;;;
    let serverInstanceGUID := genServerInstanceGUID serverInstanceName in
    let serverInstance :=
      object_of [("category", VStr "server-instance");
                 ("serverInstanceName", serverInstanceName);
                 ("serverName", serverName);
                 ("isActive", isActive);
                 ("platformName", platformName);
                 ("guid", VStr serverInstanceGUID)] in
    let edgeName := serverInstanceName in
    let edgeGUID := genPlatformServerEdgeGUID edgeName in
    let platformGUID := genPlatformGUID platformName in
    let edge :=
      object_of [("category", VStr "platform-server-edge");
                 ("serverInstanceName", edgeName);
                 ("guid", VStr edgeGUID);
                 ("serverInstanceName", serverInstanceName);
                 ("serverName", serverName);
                 ("platformName", platformName);
                 ("source", VStr platformGUID);
                 ("target", VStr serverInstanceGUID)] in
    Ok (mkUpdate (<[serverInstanceGUID := serverInstance]> (u_resources update_objects))
                 (<[edgeGUID := edge]> (u_relationships update_objects))).

Definition loadServersFromPlatformQuery (rs serverList : value) (st : provider)
  : outcome provider :=
  if negb (truthy serverList) then Ok st
  else
    match serverList with
    | VArr servers =>
        update_objects <- forEach servers addListedServer (mkUpdate ∅ ∅) ;;;
        updateGens update_objects rs st
    | _ => TypeError
    end.

Definition initial_serverConfig : entity :=
  <["stored" := VNull]> (<["active" := VNull]> (<["matching" := VBool true]>
    (<["diffs" := VNull]> (<["loading" := VStr "init"]> ∅)))).

Definition processRetrievedServer (rs serverOverview : value) (st : provider)
  : outcome provider :=
  serverInstanceName <- get_prop serverOverview "serverInstanceName" ;;;
  platformName <- get_prop rs "platformName" ;;;
  serverName <- get_prop serverOverview "serverName" ;;;
  let serverInstanceGUID := genServerInstanceGUID serverInstanceName in
  description <- get_prop serverOverview "description" ;;;
  platformRootURL <- get_prop serverOverview "platformRootURL" ;;;
  serverOrigin <- get_prop serverOverview "serverOrigin" ;;;
  serverClassification <- get_prop serverOverview "serverClassification" ;;;
  cohortDetails <- get_prop serverOverview "cohortDetails" ;;;
  serverStatus <- get_prop serverOverview "serverStatus" ;;;
  serverServicesList <- get_prop serverOverview "serverServicesList" ;;;
  integrationServices <- get_prop serverOverview "integrationServices" ;;;
  let serverInstance :=
    object_of [("category", VStr "server-instance");
               ("serverInstanceName", serverInstanceName);
               ("guid", VStr serverInstanceGUID);
               ("serverName", serverName);
               ("platformName", platformName);
               ("description",
                if truthy description
                then VStr (String.append
                             (string_concat (string_concat "Loaded by " serverInstanceName)
                                (VStr " server link. "))
                             (ToString description))
                else VStr (string_concat (string_concat "Loaded by " platformName)
                             (VStr " platform query")));
               ("platformRootURL", platformRootURL);
               ("serverOrigin", serverOrigin);
               ("serverClassification", serverClassification);
               ("cohortDetails", cohortDetails);
               ("serverStatus", serverStatus);
               ("serverServicesList", serverServicesList);
               ("integrationServices", integrationServices)] in
  let platformGUID := genPlatformGUID platformName in
  let relationships :=
    if resourceExists st platformGUID then
      let edgeName :=
        VStr (String.append (string_concat (ToString serverName) (VStr "@"))
                (ToString platformName)) in
      let edgeGUID := genPlatformServerEdgeGUID edgeName in
      <[edgeGUID :=
          object_of [("category", VStr "platform-server-edge");
                     ("edgeName", edgeName);
                     ("guid", VStr edgeGUID);
                     ("serverInstanceName", serverInstanceName);
                     ("serverName", serverName);
                     ("platformName", platformName);
                     ("source", VStr platformGUID);
                     ("target", VStr serverInstanceGUID)]]> ∅
    else ∅ in
  let update_objects :=
    mkUpdate (<[serverInstanceGUID := serverInstance]> ∅) relationships in
  st1 <- updateGens update_objects rs st ;;;
  Ok (setOperationState inactive
        (setServerConfig initial_serverConfig
           (setFocus (mkFocus "server-instance" serverInstanceGUID) st1))).

(** The callback of [loadServer]. *)
Definition _loadServer (json : value) (st : provider)
  : outcome (provider * list failure_report) :=
  let failed := Ok (st, [("load server", json)]) in
  if truthy json then
    code <- get_prop json "relatedHTTPCode" ;;;
    if strict_eq code (VNum 200) then
      rs <- get_prop json "requestSummary" ;;;
      serverOverview <- get_prop json "serverOverview" ;;;
      if truthy rs && truthy serverOverview then
        st' <- processRetrievedServer rs serverOverview st ;;;
        Ok (st', [])
      else failed
    else failed
  else failed.

(** ** Invariants of the graph *)

(** The focus is empty, or it is on an indexed identifier that the
    generation the index names holds as a resource. *)
Definition focus_valid (st : provider) : Prop :=
  guid (focus st) = "" \/
  exists genId,
    guidToGenId st !! guid (focus st) = Some genId /\
    stores (gens st) genId Resource (guid (focus st)).

Definition graph_invariant (st : provider) : Prop :=
  index_consistent st /\ index_complete st /\ focus_valid st.


(** A server overview and its request summary, and a list of servers as
    a platform query returns it: one entry has no instance name, one has
    no platform name. *)
Definition overview_s : value :=
  VObj [("serverInstanceName", VStr "s"); ("serverName", VStr "cocoMDS1");
        ("description", VStr "a metadata server")].

Definition summary_p : value := VObj [("platformName", VStr "p")].

Definition listed_servers : value :=
  VArr [VObj [("serverName", VStr "cocoMDS1"); ("platformName", VStr "p");
              ("serverInstanceName", VStr "s"); ("isActive", VBool true)];
        VObj [("serverName", VStr "cocoMDS2"); ("platformName", VStr "p")];
        VObj [("serverName", VStr "cocoMDS3")]].

(** A platform whose name begins with [TO_SERVER_]: its overview and the
    request summary of its queries, the state once it is loaded into the
    empty graph, a server that a query of that platform lists under the
    instance name [s], and the update built from that list. *)
Definition overview_q : list (string * value) :=
  [("platformName", VStr "TO_SERVER_s"); ("platformRootURL", VStr "https://q:9443")].

Definition summary_q : value := VObj [("platformName", VStr "TO_SERVER_s")].

Definition stored_platform_q : entity :=
  <["gen" := VNum 1]>
    (<["guid" := VStr "PLATFORM_TO_SERVER_s"]>
       (<["category" := VStr "platform"]> (entity_of_props overview_q))).

Definition provider_q : provider :=
  mkProvider (mkFocus "platform" "PLATFORM_TO_SERVER_s") cleared_serverConfig inactive
    [mkGen summary_q (<["PLATFORM_TO_SERVER_s" := stored_platform_q]> ∅) ∅]
    (<["PLATFORM_TO_SERVER_s" := 1]> ∅).

Definition listed_on_q : list value :=
  [VObj [("serverName", VStr "cocoMDS1"); ("platformName", VStr "TO_SERVER_s");
         ("serverInstanceName", VStr "s"); ("isActive", VBool true)]].

Definition update_on_q : update :=
  mkUpdate
    (<["SERVER_INSTANCE_s" :=
         object_of [("category", VStr "server-instance");
                    ("serverInstanceName", VStr "s");
                    ("serverName", VStr "cocoMDS1");
                    ("isActive", VBool true);
                    ("platformName", VStr "TO_SERVER_s");
                    ("guid", VStr "SERVER_INSTANCE_s")]]> ∅)
    (<["PLATFORM_TO_SERVER_s" :=
         object_of [("category", VStr "platform-server-edge");
                    ("serverInstanceName", VStr "s");
                    ("guid", VStr "PLATFORM_TO_SERVER_s");
                    ("serverName", VStr "cocoMDS1");
                    ("platformName", VStr "TO_SERVER_s");
                    ("source", VStr "PLATFORM_TO_SERVER_s");
                    ("target", VStr "SERVER_INSTANCE_s")]]> ∅).

(** The name [loadServersFromPlatformQuery] gives the instance of a listed
    server: the listed one, or [serverName@platformName] when none is
    listed. *)
Definition instance_name (serverName platformName listedName : value) : value :=
  if negb (truthy listedName)
  then VStr (String.append (string_concat (ToString serverName) (VStr "@"))
               (ToString platformName))
  else listedName.

(** Every edge of the update leads to a server instance of the update. *)
Definition edges_have_targets (u : update) : Prop :=
  forall eid e,
    u_relationships u !! eid = Some e ->
    exists name,
      eid = genPlatformServerEdgeGUID name /\
      e !! "target" = Some (VStr (genServerInstanceGUID name)) /\
      is_Some (u_resources u !! genServerInstanceGUID name).

(** ** The callbacks of getActiveServers and getKnownServers *)

(** What a function emits besides its changes of the state: an [alert], a
    call of [interactionContext.reportFailedOperation], or a call of
    [requestContext.callPOST] (the callback is given by its name). *)
Inductive notice : Type :=
| Alert (message : string)
| FailedOperation (label : string) (json : value)
| CallPOST (resourceCategory : string) (resourceName : value) (uri : string)
    (body : value) (callback : string).

(** The body the two callbacks share, up to the label of the failure
    report and the text of the alert. *)
Definition serversCallback (label message : string) (json : value) (st : provider)
  : outcome (provider * list notice) :=
  let failed := Ok (st, [FailedOperation label json]) in
  if truthy json then
    code <- get_prop json "relatedHTTPCode" ;;;
    if strict_eq code (VNum 200) then
      requestSummary <- get_prop json "requestSummary" ;;;
      serverList <- get_prop json "serverList" ;;;
      if truthy requestSummary && truthy serverList then
        st' <- loadServersFromPlatformQuery requestSummary serverList st ;;;
        Ok (st', [])
      else
        Ok (st, [Alert message])
    else failed
  else failed.

Definition _getActiveServers : value -> provider -> outcome (provider * list notice) :=
  serversCallback "get active servers"
    "Operation succeeded but found no active servers for platform".

Definition _getKnownServers : value -> provider -> outcome (provider * list notice) :=
  serversCallback "get known servers"
    "Operation succeeded but found no known servers for platform".

(** A response that lists no server. *)
Definition response_no_servers : value :=
  VObj [("relatedHTTPCode", VNum 200);
        ("requestSummary", VObj [("platformName", VStr "p")]);
        ("serverList", VArr [])].

(** ** loadServer and selectTargetResource *)

Definition loadServer (serverInstanceName serverName platformName : value)
  : list notice :=
  [CallPOST "server-instance" serverName (string_concat "server/" serverName)
     (VObj [("serverInstanceName", serverInstanceName);
            ("serverName", serverName);
            ("platformName", platformName)])
     "_loadServer"].

(** [gens[guidToGenId[id] - 1]], of which a property is read next: an
    [undefined] generation throws there.  The identifier is any value; it
    is used as a property name, so as the string it turns into. *)
Definition gen_of_guid (st : provider) (id : value) : outcome gen :=
  match guidToGenId st !! ToString id with
  | None => TypeError
  | Some genId =>
      match lookup_gen (gens st) genId with
      | None => TypeError
      | Some g => Ok g
      end
  end.

Definition not_a_platform_server_link : string :=
  "The selected link is not a platform-server link so no operation is defined".

Definition selectTargetResource (relationshipGUID : string) (st : provider)
  : outcome (provider * list notice) :=
  relGen <- gen_of_guid st (VStr relationshipGUID) ;;;
  match relationships relGen !! relationshipGUID with
  | None => TypeError
  | Some relationship =>
      let sourceGUID := field relationship "source" in
      let targetGUID := field relationship "target" in
      srcGen <- gen_of_guid st sourceGUID ;;;
      let src := resources srcGen !! ToString sourceGUID in
      tgtGen <- gen_of_guid st targetGUID ;;;
      let tgt := resources tgtGen !! ToString targetGUID in
      match src with
      | None => TypeError
      | Some src =>
          if strict_eq (field src "category") (VStr "platform") then
            match tgt with
            | None => TypeError
            | Some tgt =>
                if strict_eq (field tgt "category") (VStr "server-instance") then
                  Ok (setOperationState
                        (mkOperationState "loading" (field tgt "serverName")) st,
                      loadServer (field tgt "serverInstanceName")
                        (field tgt "serverName") (field src "platformName"))
                else Ok (st, [Alert not_a_platform_server_link])
            end
          else Ok (st, [Alert not_a_platform_server_link])
      end
  end.

(** ** loadCohort *)

(** [loadCohort(serverName, cohortName, configured)], for names that are
    strings: the state it leaves and the alerts it raises. *)
Definition loadCohort (serverName cohortName : string) (configured : bool)
    (st : provider) : outcome (provider * list string) :=
  let serverInstanceGUID := genServerInstanceGUID (VStr serverName) in
  match guidToGenId st !! serverInstanceGUID with
  | None =>
      Ok (st, [String.append "Cannot add cohort for unknown server " serverName])
  | Some serverGenId =>
      let cohortGUID := genCohortGUID (VStr cohortName) in
      let cohort :=
        object_of [("category", VStr "cohort");
                   ("cohortName", VStr cohortName);
                   ("guid", VStr cohortGUID)] in
      let serverCohortName :=
        String.append (String.append serverName "@") cohortName in
      let serverCohortGUID := genServerCohortGUID (VStr serverCohortName) in
      match lookup_gen (gens st) serverGenId with
      | None => TypeError
      | Some serverGen =>
          match resources serverGen !! serverInstanceGUID with
          | None => TypeError
          | Some server =>
              cohortDetails <- get_prop (field server "cohortDetails") cohortName ;;;
              connectionDescription <- get_prop cohortDetails "cohortDescription" ;;;
              connectionStatus <- get_prop connectionDescription "connectionStatus" ;;;
              let isActive := strict_eq connectionStatus (VStr "CONNECTED") in
              let serverCohortRelationship :=
                object_of [("category", VStr "server-cohort");
                           ("serverCohortName", VStr serverCohortName);
                           ("guid", VStr serverCohortGUID);
                           ("serverName", VStr serverName);
                           ("cohortName", VStr cohortName);
                           ("active", VBool isActive);
                           ("source", VStr serverInstanceGUID);
                           ("target", VStr cohortGUID)] in
              let update_objects :=
                mkUpdate (<[cohortGUID := cohort]> ∅)
                         (<[serverCohortGUID := serverCohortRelationship]> ∅) in
              let rs :=
                VObj [("serverName", VStr serverName);
                      ("platformName", VNull);
                      ("operation",
                       VStr (if configured
                             then String.append
                                    "Expansion of server configuration for cohort "
                                    cohortName
                             else String.append "Expansion of cohort " cohortName))] in
              st' <- updateGens update_objects rs st ;;;
              Ok (st', [])
          end
      end
  end.

Definition loadConfiguredCohort (serverName cohortName : string) :=
  loadCohort serverName cohortName true.

Definition loadCohortFromServer (serverName cohortName : string) :=
  loadCohort serverName cohortName false.

(** A stored server that is connected to the cohort [c1], alone in the
    graph. *)
Definition server_in_cohort : entity :=
  <["category" := VStr "server-instance"]>
    (<["cohortDetails" :=
         VObj [("c1", VObj [("cohortDescription",
                             VObj [("connectionStatus", VStr "CONNECTED")])])]]> ∅).

Definition provider_server : provider :=
  mkProvider (mkFocus "server-instance" "SERVER_INSTANCE_s") initial_serverConfig
    inactive
    [mkGen (VStr "server s") (<["SERVER_INSTANCE_s" := server_in_cohort]> ∅) ∅]
    (<["SERVER_INSTANCE_s" := 1]> ∅).

(** * Properties of the configuration comparator *)

Section Comparator.

Implicit Types (storedConfig activeConfig v : value).
Implicit Types (propertyPath : list string) (mpn : list value).

Lemma In_insert_sorted x s l : In x (insert_sorted s l) <-> x = s \/ In x l.
Proof.
  induction l as [|h t IH]; simpl.
  - intuition.
  - destruct (String.leb s h); simpl; rewrite ?IH; intuition.
Qed.

Lemma In_Array_sort x l : In x (Array_sort l) <-> In x l.
Proof.
  induction l as [|h t IH]; simpl; [reflexivity|].
  rewrite In_insert_sorted, IH. intuition.
Qed.

Lemma configPropNames_overlay aks sks :
  configPropNames aks sks = sks ++ skipn (List.length sks) aks.
Proof.
  unfold configPropNames, array_assign.
  now rewrite skipn_nil, app_nil_r.
Qed.

(** The names that reach the loop: every stored name, and the active
names found at positions beyond the number of stored names. *)
Lemma configPropNames_members aks sks k :
  In k (Array_sort (configPropNames aks sks)) <->
  In k sks \/ In k (skipn (List.length sks) aks).
Proof.
  rewrite In_Array_sort, configPropNames_overlay. apply in_app_iff.
Qed.


Lemma find_all_false {A} (f : A -> bool) (l : list A) :
  (forall x, In x l -> f x = false) -> List.find f l = None.
Proof.
  induction l as [|h t IH]; simpl; intros H; [reflexivity|].
  rewrite (H h) by now left. apply IH. intros x Hx. apply H. now right.
Qed.

Lemma index_of_key_absent k n :
  ~ In k (index_keys n) -> index_of_key k n = None.
Proof.
  intros Hk. apply find_all_false. intros i Hi.
  apply String.eqb_neq. intros <-. apply Hk.
  unfold index_keys. now apply in_map.
Qed.

Lemma assoc_absent k ps : ~ In k (map fst ps) -> assoc k ps = VUndefined.
Proof.
  induction ps as [|[k' v'] t IH]; simpl; intros Hk; [reflexivity|].
  destruct (String.eqb_spec k k') as [->|_].
  - exfalso. apply Hk. now left.
  - apply IH. intros Hin. apply Hk. now right.
Qed.

Lemma includes_In l k : includes l k = true <-> In k l.
Proof.
  unfold includes. rewrite existsb_exists. split.
  - intros (x & Hin & Heq). apply String.eqb_eq in Heq. now subst.
  - intros Hin. exists k. split; [exact Hin|apply String.eqb_refl].
Qed.

Lemma includes_not_In l k : includes l k = false <-> ~ In k l.
Proof.
  rewrite <- includes_In. destruct (includes l k); split; intros H;
    try reflexivity; try discriminate; try (intros ?; discriminate).
  exfalso. now apply H.
Qed.

Lemma index_string_digits_from d k : NilEmpty.string_of_uint d = String "l" k -> False.
Proof. destruct d; discriminate. Qed.

Lemma index_of_key_length n : index_of_key "length" n = None.
Proof.
  apply find_all_false. intros i _. apply String.eqb_neq.
  unfold index_string. intros H. exact (index_string_digits_from _ _ H).
Qed.

(** A name that is neither an own key of the value, nor its [length], nor
    on its prototype chain, reads as [undefined]. *)
Lemma get_prop_absent v ks k :
  Object_keys v = Ok ks -> ~ In k ks -> k <> "length" ->
  includes (inherited_names v) k = false ->
  get_prop v k = Ok VUndefined.
Proof.
  intros Hks Hk Hlen Hinh. apply String.eqb_neq in Hlen.
  destruct v; cbn [get_prop Object_keys] in *; try discriminate;
    unfold read_prototype; try (now rewrite Hinh);
    injection Hks as <-.
  - rewrite (index_of_key_absent _ _ Hk). now rewrite Hlen, Hinh.
  - rewrite (index_of_key_absent _ _ Hk). now rewrite Hlen, Hinh.
  - apply includes_not_In in Hk. now rewrite Hk, Hinh.
Qed.

(** On an object, a name that [Object.prototype] does not hold reads the
    own property, or [undefined]. *)
Lemma get_prop_object ps k :
  includes Object_prototype_names k = false -> get_prop (VObj ps) k = Ok (assoc k ps).
Proof.
  intros Hk. cbn [get_prop]. destruct (includes (map fst ps) k) eqn:Hown; [reflexivity|].
  unfold read_prototype, inherited_names. rewrite Hk.
  apply includes_not_In in Hown. now rewrite assoc_absent.
Qed.

Lemma Object_keys_returns v why : Object_keys v <> Stops why.
Proof. destruct v; discriminate. Qed.

(** A read never uses up the budget: it returns, throws, or finds an
    inherited property. *)
Lemma get_prop_budget v k : get_prop v k <> OutOfFuel.
Proof.
  destruct v; cbn [get_prop]; unfold read_prototype; try discriminate.
  - destruct (includes _ k); discriminate.
  - destruct (includes _ k); discriminate.
  - destruct (index_of_key k _); [destruct (String.get _ _); discriminate|].
    destruct (String.eqb k "length"); [discriminate|].
    destruct (includes _ k); discriminate.
  - destruct (index_of_key k _); [discriminate|].
    destruct (String.eqb k "length"); [discriminate|].
    destruct (includes _ k); discriminate.
  - destruct (includes (map fst props) k); [discriminate|].
    destruct (includes _ k); discriminate.
Qed.

Lemma index_of_key_present k n : In k (index_keys n) -> exists i, index_of_key k n = Some i.
Proof.
  unfold index_keys, index_of_key. intros Hin.
  apply in_map_iff in Hin as (i & <- & Hi).
  destruct (List.find _ (seq 0 n)) as [j|] eqn:Hfind; [eauto|].
  exfalso. pose proof (find_none _ _ Hfind i Hi) as Hno. cbn in Hno.
  now rewrite String.eqb_refl in Hno.
Qed.

(** An own key of a value reads its value. *)
Lemma get_prop_key v ks k :
  Object_keys v = Ok ks -> In k ks -> exists x, get_prop v k = Ok x.
Proof.
  destruct v; cbn [get_prop Object_keys]; intros Hks Hin;
    try discriminate; injection Hks as <-; try (now destruct Hin).
  - destruct (index_of_key_present _ _ Hin) as [i ->].
    destruct (String.get i s); eauto.
  - destruct (index_of_key_present _ _ Hin) as [i ->]. eauto.
  - apply includes_In in Hin. rewrite Hin. eauto.
Qed.

(** *** The recursion budget *)

Lemma depth_assoc k ps x :
  assoc k ps = x -> is_object_type (typeof x) = true ->
  depth x < depth (VObj ps).
Proof.
  simpl. induction ps as [|[k' v'] t IH]; simpl; intros Hx Hobj.
  - subst x. discriminate.
  - destruct (String.eqb k k').
    + subst x. lia.
    + specialize (IH Hx Hobj). lia.
Qed.

Lemma depth_nth i l x :
  nth i l VUndefined = x -> is_object_type (typeof x) = true ->
  depth x < depth (VArr l).
Proof.
  simpl. revert i. induction l as [|h t IH]; intros [|i] Hx Hobj; simpl in *;
    try (subst x; discriminate).
  - subst x. lia.
  - specialize (IH i Hx Hobj). lia.
Qed.

(** A nested call goes one level down in [activeConfig]. *)
Lemma depth_get_prop v k x :
  get_prop v k = Ok x -> is_object_type (typeof x) = true ->
  depth x < depth v.
Proof.
  destruct v; cbn [get_prop]; unfold read_prototype; intros Hx Hobj; try discriminate.
  - destruct (includes _ k); [discriminate|]. injection Hx as <-. discriminate.
  - destruct (includes _ k); [discriminate|]. injection Hx as <-. discriminate.
  - destruct (index_of_key k _); [destruct (String.get _ _)|];
      try (injection Hx as <-; discriminate).
    destruct (String.eqb k "length"); [injection Hx as <-; discriminate|].
    destruct (includes _ k); [discriminate|]. injection Hx as <-. discriminate.
  - destruct (index_of_key k _) as [i|].
    + injection Hx as Hx. now apply (depth_nth i).
    + destruct (String.eqb k "length"); [injection Hx as <-; discriminate|].
      destruct (includes _ k); [discriminate|]. injection Hx as <-. discriminate.
  - destruct (includes (map fst props) k).
    + injection Hx as Hx. now apply (depth_assoc k).
    + destruct (includes _ k); [discriminate|]. injection Hx as <-. discriminate.
Qed.

Lemma forEach_ext {A S} (l : list A) (f g : A -> S -> outcome S) s :
  (forall x s', f x s' = g x s') -> forEach l f s = forEach l g s.
Proof.
  intros Hfg. revert s. induction l as [|x t IH]; intros s; simpl; [reflexivity|].
  rewrite Hfg. destruct (g x s); simpl; auto.
Qed.

Lemma forEach_fixed {A S} (l : list A) (f : A -> S -> outcome S) s :
  (forall x, In x l -> f x s = Ok s) -> forEach l f s = Ok s.
Proof.
  intros Hf. induction l as [|x t IH]; simpl; [reflexivity|].
  rewrite Hf by now left. simpl. apply IH. intros y Hy. apply Hf. now right.
Qed.

Lemma compareProperty_ext recur1 recur2 storedConfig activeConfig propertyPath propName st :
  (forall sv av p m,
      get_prop activeConfig propName = Ok av ->
      is_object_type (typeof av) = true ->
      recur1 sv av p m = recur2 sv av p m) ->
  compareProperty recur1 storedConfig activeConfig propertyPath propName st =
  compareProperty recur2 storedConfig activeConfig propertyPath propName st.
Proof.
  intros Hrec. unfold compareProperty. destruct st as [matched mpn].
  destruct (includes excludeProps propName); [reflexivity|].
  destruct (get_prop activeConfig propName) as [av| |] eqn:Hav; simpl; try reflexivity.
  destruct (is_object_type (typeof av)) eqn:Hobj; [|reflexivity].
  destruct (get_prop storedConfig propName) as [sv| |]; simpl; try reflexivity.
  now rewrite (Hrec sv av _ _ eq_refl Hobj).
Qed.

Lemma compareConfigurations_fuel_irrelevant fuel1 :
  forall fuel2 storedConfig activeConfig propertyPath mpn,
    depth activeConfig < fuel1 -> depth activeConfig < fuel2 ->
    compareConfigurations_fuel fuel1 storedConfig activeConfig propertyPath mpn =
    compareConfigurations_fuel fuel2 storedConfig activeConfig propertyPath mpn.
Proof.
  induction fuel1 as [|f1 IH]; intros [|f2] sc ac p m H1 H2; try lia.
  simpl.
  destruct (Object_keys ac) as [aks| |]; simpl; try reflexivity.
  destruct (Object_keys sc) as [sks| |]; simpl; try reflexivity.
  apply forEach_ext. intros k st.
  apply compareProperty_ext. intros sv av p' m' Hav Hobj.
  pose proof (depth_get_prop _ _ _ Hav Hobj).
  apply IH; lia.
Qed.

(** Any budget above the depth of [activeConfig] gives the result of
    [compareConfigurations]. *)
Lemma compareConfigurations_fuel_enough fuel storedConfig activeConfig propertyPath mpn :
  depth activeConfig < fuel ->
  compareConfigurations_fuel fuel storedConfig activeConfig propertyPath mpn =
  compareConfigurations storedConfig activeConfig propertyPath mpn.
Proof.
  intros H. unfold compareConfigurations.
  apply compareConfigurations_fuel_irrelevant; lia.
Qed.

Lemma forEach_budget {A S} (l : list A) (f : A -> S -> outcome S) s :
  (forall x s', f x s' <> OutOfFuel) -> forEach l f s <> OutOfFuel.
Proof.
  intros Hf. revert s. induction l as [|x t IH]; intros s; simpl; [discriminate|].
  specialize (Hf x s). destruct (f x s); simpl; auto.
Qed.

Lemma forEach_returns {A S} (l : list A) (f : A -> S -> outcome S) s :
  (forall x s' why, f x s' <> Stops why) -> forall why, forEach l f s <> Stops why.
Proof.
  intros Hf why. revert s. induction l as [|x t IH]; intros s; simpl; [discriminate|].
  specialize (Hf x s). destruct (f x s) as [s1| |w]; simpl.
  - apply IH.
  - discriminate.
  - now destruct (Hf w).
Qed.

Lemma compareConfigurations_fuel_terminates fuel :
  forall storedConfig activeConfig propertyPath mpn,
    depth activeConfig < fuel ->
    compareConfigurations_fuel fuel storedConfig activeConfig propertyPath mpn
    <> OutOfFuel.
Proof.
  induction fuel as [|f IH]; intros sc ac p m H; [lia|].
  simpl.
  pose proof (Object_keys_returns ac Budget) as Ha.
  pose proof (Object_keys_returns sc Budget) as Hs.
  destruct (Object_keys ac) as [aks| |[|]] eqn:Haks; simpl; try congruence.
  destruct (Object_keys sc) as [sks| |[|]] eqn:Hsks; simpl; try congruence.
  apply forEach_budget. intros k [matched mpn']. unfold compareProperty.
  destruct (includes excludeProps k); [discriminate|].
  pose proof (get_prop_budget ac k) as Hab.
  pose proof (get_prop_budget sc k) as Hsb.
  destruct (get_prop ac k) as [av| |[|]] eqn:Hav; simpl; try congruence.
  destruct (is_object_type (typeof av)) eqn:Hobj.
  - destruct (get_prop sc k) as [sv| |[|]] eqn:Hsv; simpl; try congruence.
    pose proof (depth_get_prop _ _ _ Hav Hobj).
    specialize (IH sv av (p ++ [k]) mpn' ltac:(lia)).
    destruct (compareConfigurations_fuel f sv av (p ++ [k]) mpn') as [[b m']| |[|]];
      simpl; congruence.
  - destruct (get_prop sc k) as [sv| |[|]] eqn:Hsv; simpl; try congruence.
    destruct (strict_eq sv av); discriminate.
Qed.

(** The comparator never uses up its budget: it returns, it throws, or
    it reads an inherited property. *)
Lemma compareConfigurations_total storedConfig activeConfig propertyPath mpn :
  compareConfigurations storedConfig activeConfig propertyPath mpn <> OutOfFuel.
Proof.
  unfold compareConfigurations. apply compareConfigurations_fuel_terminates. lia.
Qed.

(** *** Comparing a configuration with itself *)

Lemma null_free_assoc k ps : null_free (VObj ps) = true -> null_free (assoc k ps) = true.
Proof.
  simpl. induction ps as [|[k' v'] t IH]; simpl; intros H; [reflexivity|].
  apply andb_prop in H as [Hv Ht].
  destruct (String.eqb k k'); auto.
Qed.

Lemma null_free_nth i l : null_free (VArr l) = true -> null_free (nth i l VUndefined) = true.
Proof.
  simpl. revert i. induction l as [|h t IH]; intros [|i] H; simpl in *;
    try reflexivity; apply andb_prop in H as [Hv Ht]; auto.
Qed.

Lemma null_free_get_prop v k x :
  null_free v = true -> get_prop v k = Ok x -> null_free x = true.
Proof.
  destruct v; cbn [get_prop]; unfold read_prototype; intros Hnf Hx; try discriminate.
  - destruct (includes _ k); [discriminate|]. now injection Hx as <-.
  - destruct (includes _ k); [discriminate|]. now injection Hx as <-.
  - destruct (index_of_key k _); [destruct (String.get _ _)|];
      try (now injection Hx as <-).
    destruct (String.eqb k "length"); [now injection Hx as <-|].
    destruct (includes _ k); [discriminate|]. now injection Hx as <-.
  - destruct (index_of_key k _) as [i|].
    + injection Hx as <-. now apply null_free_nth.
    + destruct (String.eqb k "length"); [now injection Hx as <-|].
      destruct (includes _ k); [discriminate|]. now injection Hx as <-.
  - destruct (includes (map fst props) k).
    + injection Hx as <-. now apply null_free_assoc.
    + destruct (includes _ k); [discriminate|]. now injection Hx as <-.
Qed.

Lemma strict_eq_refl_scalar v : is_object_type (typeof v) = false -> strict_eq v v = true.
Proof.
  destruct v; simpl; intros H; try discriminate; try reflexivity.
  - now destruct b.
  - apply Z.eqb_refl.
  - apply String.eqb_refl.
Qed.

Lemma object_keys_of_object v :
  is_object_type (typeof v) = true -> null_free v = true ->
  exists ks, Object_keys v = Ok ks.
Proof. destruct v; simpl; intros H1 H2; try discriminate; eauto. Qed.

Lemma compareConfigurations_fuel_refl fuel :
  forall X propertyPath mpn,
    is_object_type (typeof X) = true -> null_free X = true -> depth X < fuel ->
    compareConfigurations_fuel fuel X X propertyPath mpn = Ok (true, mpn).
Proof.
  induction fuel as [|f IH]; intros X p m Hobj Hnf Hd; [lia|].
  simpl. destruct (object_keys_of_object X Hobj Hnf) as [ks Hks].
  rewrite Hks; simpl.
  apply forEach_fixed. intros k Hk.
  assert (In k ks) as Hin.
  { apply configPropNames_members in Hk as [Hk|Hk]; [exact Hk|].
    rewrite skipn_all in Hk. destruct Hk. }
  unfold compareProperty.
  destruct (includes excludeProps k); [reflexivity|].
  destruct (get_prop_key X ks k Hks Hin) as [x Hx]. rewrite Hx; simpl.
  destruct (is_object_type (typeof x)) eqn:Hxo.
  - rewrite IH; [reflexivity|assumption| |].
    + now apply (null_free_get_prop X k).
    + pose proof (depth_get_prop _ _ _ Hx Hxo). lia.
  - now rewrite strict_eq_refl_scalar.
Qed.

(** An object or array without any [null] inside matches itself, and
    nothing is added to [mpn]. *)
Lemma compareConfigurations_refl_null_free X propertyPath mpn :
  is_object_type (typeof X) = true -> null_free X = true ->
  compareConfigurations X X propertyPath mpn = Ok (true, mpn).
Proof.
  intros Hobj Hnf. unfold compareConfigurations.
  apply compareConfigurations_fuel_refl; auto.
Qed.

(** C4 (the code departs from the specification): on the JSON object [{a: null}]
    compared with itself the comparator does not return [matched = true];
    [typeof null] is "object", so it descends into the property and
    [Object.keys(null)] throws. *)
Theorem compareConfigurations_null_property_throws :
  compareConfigurations cfg_null cfg_null [] [] = TypeError.
Proof. reflexivity. Qed.

(** C2 (the code departs from the specification): the merged name array is the
    stored names followed by the active names at the positions the stored
    names do not cover, not the union.  With [{b: 1}] stored and
    [{a: 5, b: 1}] active the property [a] of the active configuration is
    never examined, and the two configurations are reported as matching. *)
Theorem compareConfigurations_misses_active_key :
  Object_keys cfg_active_ab = Ok ["a"; "b"] /\
  Object_keys cfg_stored_b = Ok ["b"] /\
  Array_sort (configPropNames ["a"; "b"] ["b"]) = ["b"; "b"] /\
  ~ In "a" (Array_sort (configPropNames ["a"; "b"] ["b"])) /\
  compareConfigurations cfg_stored_b cfg_active_ab [] [] = Ok (true, []).
Proof.
  repeat split; try reflexivity.
  simpl. intros [H|[H|[]]]; discriminate.
Qed.

(** C9: [compareConfigurations({a:1}, {a:2}, [], mpn)] returns
    [matched = false] and leaves [mpn] equal to ["a"];
    [compareConfigurations({a:{b:1}}, {a:{b:2}}, [], mpn)] returns
    [matched = false] and leaves [mpn] equal to ["a.b"]. *)
Theorem compareConfigurations_reports_flattened_paths :
  compareConfigurations cfg_a1 cfg_a2 [] [] = Ok (false, [VStr "a"]) /\
  compareConfigurations cfg_ab1 cfg_ab2 [] [] = Ok (false, [VStr "a.b"]).
Proof. split; reflexivity. Qed.

End Comparator.

(** * Properties of the generation store *)

Section Store.

Implicit Types (st : provider) (gs : list gen) (g : gen) (id : string).
Implicit Types (k : kind) (m : gmap string nat).

(** *** removeGen *)

Lemma pop_snoc {A} (l : list A) (x : A) : pop (l ++ [x]) = Some (l, x).
Proof.
  induction l as [|h t IH]; simpl; [reflexivity|]. now rewrite IH.
Qed.

Lemma pop_nonempty {A} (l : list A) :
  l <> [] -> exists l' x, l = l' ++ [x] /\ pop l = Some (l', x).
Proof.
  intros Hl. destruct (exists_last Hl) as (l' & x & ->).
  exists l', x. split; [reflexivity|apply pop_snoc].
Qed.

Lemma elem_of_keys {V} (mp : gmap string V) id : id ∈ keys mp <-> is_Some (mp !! id).
Proof.
  unfold keys. rewrite list_elem_of_fmap. split.
  - intros (ix & Heq & Hin). destruct ix as [i x]. simpl in Heq. subst i.
    apply elem_of_map_to_list in Hin. eauto.
  - intros [x Hx]. exists (id, x). split; [reflexivity|].
    now apply elem_of_map_to_list.
Qed.

Lemma elem_of_fst_map_to_list {V} (mp : gmap string V) id :
  id ∈ (map_to_list mp).*1 <-> is_Some (mp !! id).
Proof. apply elem_of_keys. Qed.

Lemma lookup_delete_keys ks m id :
  delete_keys ks m !! id = if decide (id ∈ ks) then None else m !! id.
Proof.
  unfold delete_keys. revert m. induction ks as [|r t IH]; intros m; cbn [fold_left].
  - destruct (decide (id ∈ [])) as [H|_]; [by apply elem_of_nil in H|done].
  - rewrite IH. destruct (decide (id = r)) as [->|Hne].
    + rewrite lookup_delete_eq.
      destruct (decide (r ∈ t)) as [Ht|Ht], (decide (r ∈ r :: t)) as [Hrt|Hrt];
        try done; exfalso; rewrite elem_of_cons in Hrt; tauto.
    + rewrite lookup_delete_ne by done.
      destruct (decide (id ∈ t)) as [Ht|Ht], (decide (id ∈ r :: t)) as [Hrt|Hrt];
        try done; exfalso; rewrite elem_of_cons in Hrt; tauto.
Qed.

(** *** One step of a loop of updateGens *)

Lemma entities_set_entity k' k id id' (e : entity) g :
  entities k' (set_entity k id e g) !! id' =
  if decide (k' = k /\ id' = id) then Some e else entities k' g !! id'.
Proof.
  destruct (decide (k' = k /\ id' = id)) as [[-> ->]|Hn].
  - destruct k; cbn [entities set_entity resources relationships];
      apply lookup_insert_eq.
  - destruct k, k'; cbn [entities set_entity resources relationships];
      try reflexivity; apply lookup_insert_ne; intros ->; now apply Hn.
Qed.

Lemma requestSummary_set_entity k id (e : entity) g :
  requestSummary (set_entity k id e g) = requestSummary g.
Proof. now destruct k. Qed.

Lemma lookup_gen_insert gs j g (x : gen) j' :
  lookup_gen gs j = Some g ->
  lookup_gen (<[j - 1 := x]> gs) j' =
  if decide (j' = j) then Some x else lookup_gen gs j'.
Proof.
  destruct j as [|i]; [discriminate|].
  replace (S i - 1) with i by lia. cbn [lookup_gen]. intros Hi.
  destruct (decide (j' = S i)) as [->|Hne]; cbn [lookup_gen].
  - apply list_lookup_insert_eq. eapply lookup_lt_Some; eauto.
  - destruct j' as [|i']; cbn [lookup_gen]; [reflexivity|].
    apply list_lookup_insert_ne. lia.
Qed.

Lemma lookup_gen_bound gs j g : lookup_gen gs j = Some g -> 1 <= j <= List.length gs.
Proof.
  destruct j as [|i]; [discriminate|]. simpl. intros H.
  apply lookup_lt_Some in H. lia.
Qed.

(** Merging into the entity [(j, k, id)] changes that entity only. *)
Lemma entity_at_merge gs j g k id (e : entity) j' k' id' :
  lookup_gen gs j = Some g ->
  entity_at (<[j - 1 := set_entity k id e g]> gs) j' k' id' =
  if decide (j' = j /\ k' = k /\ id' = id) then Some e
  else entity_at gs j' k' id'.
Proof.
  intros Hj. unfold entity_at. rewrite (lookup_gen_insert gs j g) by done.
  destruct (decide (j' = j /\ k' = k /\ id' = id)) as [(-> & -> & ->)|Hn].
  - rewrite decide_True by done. rewrite entities_set_entity.
    now rewrite decide_True.
  - destruct (decide (j' = j)) as [->|Hne]; [|done].
    rewrite Hj, entities_set_entity. rewrite decide_False; [done|].
    intros [-> ->]. now apply Hn.
Qed.

Section Loop.

(** One loop: the kind it runs over, the index of the state and the
    number reserved for the generation that may be added. *)
Variable k : kind.
Variable index : gmap string nat.
Variable ad_genId : nat.

Lemma processKey_inv id upd ms ms' :
  processKey k index ad_genId (id, upd) ms = Ok ms' ->
  (index !! id = None /\
   ms' = mkMerge (gens_clone ms) (<[id := ad_genId]> (map_clone ms)) true
           (set_entity k id (<["gen" := VNum (Z.of_nat ad_genId)]> upd) (ad_gen ms)))
  \/
  (exists j g existing,
      index !! id = Some j /\ lookup_gen (gens_clone ms) j = Some g /\
      entities k g !! id = Some existing /\
      ms' = mkMerge
              (<[j - 1 := set_entity k id (Object_assign existing upd) g]> (gens_clone ms))
              (map_clone ms) (addingGen ms) (ad_gen ms)).
Proof.
  unfold processKey. destruct (index !! id) as [j|] eqn:Hidx.
  - destruct (lookup_gen (gens_clone ms) j) as [g|] eqn:Hg; [|discriminate].
    destruct (entities k g !! id) as [existing|] eqn:He; [|discriminate].
    intros [= <-]. right. eauto 10.
  - intros [= <-]. now left.
Qed.

Lemma processKey_known id upd ms j existing :
  index !! id = Some j ->
  entity_at (gens_clone ms) j k id = Some existing ->
  exists g,
    lookup_gen (gens_clone ms) j = Some g /\
    processKey k index ad_genId (id, upd) ms =
    Ok (mkMerge
          (<[j - 1 := set_entity k id (Object_assign existing upd) g]> (gens_clone ms))
          (map_clone ms) (addingGen ms) (ad_gen ms)).
Proof.
  intros Hidx He. unfold entity_at in He.
  destruct (lookup_gen (gens_clone ms) j) as [g|] eqn:Hg; [|discriminate].
  exists g. split; [reflexivity|].
  unfold processKey. now rewrite Hidx, Hg, He.
Qed.

(** What a completed step does to the generations. *)
Lemma processKey_gens id upd ms ms' :
  processKey k index ad_genId (id, upd) ms = Ok ms' ->
  List.length (gens_clone ms') = List.length (gens_clone ms) /\
  forall j k' id',
    entity_at (gens_clone ms') j k' id' =
    if decide (index !! id = Some j /\ k' = k /\ id' = id)
    then (fun e => Object_assign e upd) <$> entity_at (gens_clone ms) j k' id'
    else entity_at (gens_clone ms) j k' id'.
Proof.
  intros H. apply processKey_inv in H as [[Hidx ->]|(j0 & g & ex & Hidx & Hg & He & ->)];
    simpl.
  - split; [reflexivity|]. intros j k' id'.
    case_decide as Hc; [|done]. destruct Hc as [Hc _]. congruence.
  - split; [apply length_insert|]. intros j k' id'.
    rewrite (entity_at_merge _ j0 g) by done.
    destruct (decide (j = j0 /\ k' = k /\ id' = id)) as [(-> & -> & ->)|Hne].
    + rewrite decide_True by done.
      unfold entity_at. now rewrite Hg, He.
    + rewrite decide_False; [done|].
      intros (Hj & -> & ->). apply Hne. split; [congruence|done].
Qed.

(** What a completed step does to the bookkeeping variables. *)
Lemma processKey_books id0 upd ms ms' :
  processKey k index ad_genId (id0, upd) ms = Ok ms' ->
  (addingGen ms' = true <-> addingGen ms = true \/ index !! id0 = None) /\
  requestSummary (ad_gen ms') = requestSummary (ad_gen ms) /\
  (forall k' id,
      is_Some (entities k' (ad_gen ms') !! id) <->
      is_Some (entities k' (ad_gen ms) !! id) \/
      (k' = k /\ id = id0 /\ index !! id0 = None)) /\
  (forall id,
      map_clone ms' !! id =
      if decide (id = id0 /\ index !! id0 = None) then Some ad_genId
      else map_clone ms !! id).
Proof.
  intros H. apply processKey_inv in H as [[Hidx ->]|(j0 & g & ex & Hidx & Hg & He & ->)];
    cbn [addingGen ad_gen map_clone].
  - split; [tauto|]. split; [apply requestSummary_set_entity|]. split.
    + intros k' id. rewrite entities_set_entity.
      destruct (decide (k' = k /\ id = id0)) as [[-> ->]|Hn].
      * split; [intros _; right; done|intros _; eauto].
      * split; [tauto|]. intros [?|(-> & -> & _)]; [done|]. exfalso. now apply Hn.
    + intros id. destruct (decide (id = id0 /\ index !! id0 = None)) as [[-> _]|Hn].
      * apply lookup_insert_eq.
      * apply lookup_insert_ne. intros <-. now apply Hn.
  - split; [split; [tauto|intros [?|?]; [done|congruence]]|].
    split; [reflexivity|]. split.
    + intros k' id. split; [tauto|]. intros [?|(_ & _ & ?)]; [done|congruence].
    + intros id. rewrite decide_False; [done|]. intros [_ ?]. congruence.
Qed.

Lemma loop_gens l :
  forall ms ms',
    NoDup l.*1 ->
    forEach l (processKey k index ad_genId) ms = Ok ms' ->
    List.length (gens_clone ms') = List.length (gens_clone ms) /\
    (forall j id upd,
        (id, upd) ∈ l -> index !! id = Some j ->
        entity_at (gens_clone ms') j k id =
        (fun e => Object_assign e upd) <$> entity_at (gens_clone ms) j k id) /\
    (forall j k' id,
        k' <> k \/ id ∉ l.*1 \/ index !! id <> Some j ->
        entity_at (gens_clone ms') j k' id = entity_at (gens_clone ms) j k' id).
Proof.
  induction l as [|[id0 upd0] t IH]; intros ms ms' Hnd Hrun.
  - injection Hrun as <-. split; [reflexivity|]. split; [|reflexivity].
    intros j id upd Hin. by apply elem_of_nil in Hin.
  - cbn [forEach] in Hrun.
    destruct (processKey k index ad_genId (id0, upd0) ms) as [ms1| |] eqn:Hstep;
      cbn [obind] in Hrun; try discriminate.
    rewrite fmap_cons in Hnd. cbn [fst] in Hnd.
    apply NoDup_cons in Hnd as [Hfresh Hnd].
    destruct (IH ms1 ms' Hnd Hrun) as (Hlen & Hmerge & Hframe).
    destruct (processKey_gens _ _ _ _ Hstep) as (Hlen1 & Hstep1).
    split; [congruence|]. split.
    + intros j id upd Hin Hidx. apply elem_of_cons in Hin as [[= -> ->]|Hin].
      * rewrite Hframe by (right; left; exact Hfresh).
        rewrite Hstep1. now rewrite decide_True.
      * rewrite (Hmerge j id upd Hin Hidx). rewrite Hstep1.
        rewrite decide_False; [done|]. intros (_ & _ & ->).
        apply Hfresh. apply list_elem_of_fmap. exists (id0, upd). done.
    + intros j k' id Hcond. rewrite fmap_cons in Hcond. cbn [fst] in Hcond.
      rewrite Hframe.
      * rewrite Hstep1. rewrite decide_False; [done|]. intros (Hj & -> & ->).
        destruct Hcond as [?|[Hn|?]]; [done| |done].
        apply Hn. apply elem_of_cons. now left.
      * destruct Hcond as [?|[Hn|?]]; [tauto| |tauto].
        right; left. intros Hin. apply Hn. apply elem_of_cons. now right.
Qed.

Lemma loop_books l :
  forall ms ms',
    forEach l (processKey k index ad_genId) ms = Ok ms' ->
    (addingGen ms' = true <->
     addingGen ms = true \/ exists id, id ∈ l.*1 /\ index !! id = None) /\
    requestSummary (ad_gen ms') = requestSummary (ad_gen ms) /\
    (forall k' id,
        is_Some (entities k' (ad_gen ms') !! id) <->
        is_Some (entities k' (ad_gen ms) !! id) \/
        (k' = k /\ id ∈ l.*1 /\ index !! id = None)) /\
    (forall id,
        map_clone ms' !! id =
        if decide (id ∈ l.*1 /\ index !! id = None) then Some ad_genId
        else map_clone ms !! id).
Proof.
  induction l as [|[id0 upd0] t IH]; intros ms ms' Hrun.
  - injection Hrun as <-. cbn [fmap list_fmap].
    split; [split; [tauto|intros [?|(id & Hin & _)]; [done|by apply elem_of_nil in Hin]]|].
    split; [reflexivity|]. split.
    + intros k' id. split; [tauto|].
      intros [?|(_ & Hin & _)]; [done|by apply elem_of_nil in Hin].
    + intros id. rewrite decide_False; [done|].
      intros [Hin _]. by apply elem_of_nil in Hin.
  - cbn [forEach] in Hrun.
    destruct (processKey k index ad_genId (id0, upd0) ms) as [ms1| |] eqn:Hstep;
      cbn [obind] in Hrun; try discriminate.
    destruct (IH ms1 ms' Hrun) as (Hadd & Hrs & Hgen & Hmap).
    destruct (processKey_books _ _ _ _ Hstep) as (Hadd1 & Hrs1 & Hgen1 & Hmap1).
    rewrite fmap_cons. cbn [fst].
    split; [|split; [congruence|split]].
    + rewrite Hadd, Hadd1. split.
      * intros [[?|?]|(id & Hin & Hid)]; [tauto| |].
        -- right. exists id0. split; [apply elem_of_cons; now left|done].
        -- right. exists id. split; [apply elem_of_cons; now right|done].
      * intros [?|(id & Hin & Hid)]; [tauto|].
        apply elem_of_cons in Hin as [->|Hin]; [tauto|]. right. eauto.
    + intros k' id. rewrite Hgen, Hgen1. split.
      * intros [[?|(-> & -> & ?)]|(-> & Hin & ?)]; [tauto| |].
        -- right. split; [done|]. split; [apply elem_of_cons; now left|done].
        -- right. split; [done|]. split; [apply elem_of_cons; now right|done].
      * intros [?|(-> & Hin & ?)]; [tauto|].
        apply elem_of_cons in Hin as [->|Hin]; [tauto|]. right. tauto.
    + intros id. rewrite Hmap, Hmap1.
      destruct (decide (id ∈ t.*1 /\ index !! id = None)) as [[Hin Hid]|Hn].
      * rewrite decide_True; [done|]. split; [apply elem_of_cons; now right|done].
      * destruct (decide (id = id0 /\ index !! id0 = None)) as [[-> Hid]|Hn0].
        -- rewrite decide_True; [done|]. split; [apply elem_of_cons; now left|done].
        -- rewrite decide_False; [done|]. intros [Hin Hid].
           apply elem_of_cons in Hin as [->|Hin]; [now apply Hn0|now apply Hn].
Qed.

(** A loop completes when the identifiers it knows are stored, under
    the kind of the loop, where the index says. *)
Lemma loop_total l :
  forall ms,
    NoDup l.*1 ->
    (forall id j, id ∈ l.*1 -> index !! id = Some j ->
                  stores (gens_clone ms) j k id) ->
    exists ms', forEach l (processKey k index ad_genId) ms = Ok ms'.
Proof.
  induction l as [|[id0 upd0] t IH]; intros ms Hnd Hpre; [by eexists|].
  rewrite fmap_cons in Hnd, Hpre. cbn [fst] in Hnd, Hpre.
  apply NoDup_cons in Hnd as [Hfresh Hnd].
  assert (exists ms1, processKey k index ad_genId (id0, upd0) ms = Ok ms1) as [ms1 Hstep].
  { destruct (index !! id0) as [j|] eqn:Hidx.
    - destruct (Hpre id0 j) as [ex Hex]; [apply elem_of_cons; now left|done|].
      destruct (processKey_known id0 upd0 ms j ex Hidx Hex) as (g & _ & ->).
      by eexists.
    - unfold processKey. rewrite Hidx. by eexists. }
  cbn [forEach]. rewrite Hstep. cbn [obind]. apply IH; [done|].
  intros id j Hin Hidx. unfold stores.
  destruct (processKey_gens _ _ _ _ Hstep) as (_ & ->).
  rewrite decide_False.
  - apply Hpre; [apply elem_of_cons; now right|done].
  - intros (_ & _ & ->). now apply Hfresh.
Qed.

(** A loop neither adds an identifier to an existing generation nor
    removes one. *)
Lemma loop_stores l ms ms' :
  NoDup l.*1 ->
  forEach l (processKey k index ad_genId) ms = Ok ms' ->
  forall j k' id, stores (gens_clone ms') j k' id <-> stores (gens_clone ms) j k' id.
Proof.
  intros Hnd Hrun j k' id. unfold stores.
  destruct (loop_gens l ms ms' Hnd Hrun) as (_ & Hmerge & Hframe).
  destruct (decide (k' = k)) as [->|Hk]; [|by rewrite Hframe by (left; done)].
  destruct (decide (id ∈ l.*1)) as [Hin|Hin];
    [|by rewrite Hframe by (right; left; done)].
  destruct (decide (index !! id = Some j)) as [Hidx|Hidx];
    [|by rewrite Hframe by (right; right; done)].
  apply list_elem_of_fmap in Hin as ([id' upd] & Heq & Hin). cbn in Heq. subst id'.
  rewrite (Hmerge j id upd Hin Hidx). apply fmap_is_Some.
Qed.

(** A loop that completes found every identifier it knows where the
    index says. *)
Lemma loop_known_stored l :
  forall ms ms',
    NoDup l.*1 ->
    forEach l (processKey k index ad_genId) ms = Ok ms' ->
    forall id j, id ∈ l.*1 -> index !! id = Some j ->
                 stores (gens_clone ms) j k id.
Proof.
  induction l as [|[id0 upd0] t IH]; intros ms ms' Hnd Hrun id j Hin Hidx.
  - by apply elem_of_nil in Hin.
  - cbn [forEach] in Hrun.
    destruct (processKey k index ad_genId (id0, upd0) ms) as [ms1| |] eqn:Hstep;
      cbn [obind] in Hrun; try discriminate.
    rewrite fmap_cons in Hnd, Hin. cbn [fst] in Hnd, Hin.
    apply NoDup_cons in Hnd as [Hfresh Hnd].
    apply elem_of_cons in Hin as [->|Hin].
    + apply processKey_inv in Hstep
        as [[Hnone _]|(j0 & g & ex & Hidx0 & Hg & He & _)]; [congruence|].
      assert (j0 = j) as -> by congruence.
      unfold stores, entity_at. rewrite Hg, He. by eexists.
    + pose proof (IH ms1 ms' Hnd Hrun id j Hin Hidx) as Hs.
      unfold stores in *.
      destruct (processKey_gens _ _ _ _ Hstep) as (_ & Heq).
      rewrite Heq in Hs. rewrite decide_False in Hs; [done|].
      intros (_ & _ & ->). now apply Hfresh.
Qed.

End Loop.

(** *** updateGens as a whole *)

Lemma array_store_end {A} (a : list A) (x : A) :
  array_store a (List.length a) x = a ++ [x].
Proof. unfold array_store. rewrite decide_False; [done|lia]. Qed.

Lemma entity_at_app gs g j k id :
  j <= List.length gs ->
  entity_at (gs ++ [g]) j k id = entity_at gs j k id.
Proof.
  intros Hj. unfold entity_at. destruct j as [|i]; [reflexivity|].
  cbn [lookup_gen]. rewrite lookup_app_l by lia. reflexivity.
Qed.

Lemma entity_at_last gs g k id :
  entity_at (gs ++ [g]) (S (List.length gs)) k id = entities k g !! id.
Proof.
  unfold entity_at. cbn [lookup_gen].
  rewrite lookup_app_r by lia. now rewrite Nat.sub_diag.
Qed.

Lemma entity_at_beyond gs j k id :
  List.length gs < j -> entity_at gs j k id = None.
Proof.
  intros Hj. unfold entity_at. destruct j as [|i]; [reflexivity|].
  cbn [lookup_gen]. rewrite lookup_ge_None_2 by lia. reflexivity.
Qed.

Lemma updateGens_inv u rs st st' :
  updateGens u rs st = Ok st' ->
  exists ms1 ms2,
    forEach (map_to_list (u_resources u))
      (processKey Resource (guidToGenId st) (S (List.length (gens st))))
      (start st rs) = Ok ms1 /\
    forEach (map_to_list (u_relationships u))
      (processKey Relationship (guidToGenId st) (S (List.length (gens st))))
      ms1 = Ok ms2 /\
    st' = finish st ms2.
Proof.
  unfold updateGens, getLatestGenId. rewrite Nat.add_1_r. fold (start st rs).
  destruct (forEach (map_to_list (u_resources u)) _ _) as [ms1| |] eqn:H1;
    cbn [obind]; try discriminate.
  destruct (forEach (map_to_list (u_relationships u)) _ _) as [ms2| |] eqn:H2;
    cbn [obind]; try discriminate.
  intros [= <-]. exists ms1, ms2. split; [done|]. split; [done|].
  destruct (loop_gens _ _ _ _ _ _ (NoDup_fst_map_to_list _) H1) as (L1 & _).
  destruct (loop_gens _ _ _ _ _ _ (NoDup_fst_map_to_list _) H2) as (L2 & _).
  unfold finish.
  replace (List.length (gens st) - 0) with (List.length (gens_clone ms2)).
  - rewrite array_store_end. destruct (addingGen ms2); reflexivity.
  - rewrite L2, L1. cbn. lia.
Qed.

(** The effect of a whole loop over the dictionary [mp] on the entities
    of the existing generations. *)
Lemma loop_entity k index n (mp : gmap string entity) ms ms' :
  forEach (map_to_list mp) (processKey k index n) ms = Ok ms' ->
  forall j k' id,
    entity_at (gens_clone ms') j k' id =
    if decide (k' = k) then
      match mp !! id with
      | Some upd =>
          if decide (index !! id = Some j)
          then (fun e => Object_assign e upd) <$> entity_at (gens_clone ms) j k' id
          else entity_at (gens_clone ms) j k' id
      | None => entity_at (gens_clone ms) j k' id
      end
    else entity_at (gens_clone ms) j k' id.
Proof.
  intros Hrun j k' id.
  destruct (loop_gens k index n _ ms ms' (NoDup_fst_map_to_list _) Hrun)
    as (_ & Hmerge & Hframe).
  destruct (decide (k' = k)) as [->|Hk]; [|by apply Hframe; left].
  destruct (mp !! id) as [upd|] eqn:Hupd.
  - destruct (decide (index !! id = Some j)) as [Hidx|Hidx].
    + apply Hmerge; [|done]. now apply elem_of_map_to_list.
    + apply Hframe. right; right; done.
  - apply Hframe. right; left. intros Hin.
    apply (elem_of_keys mp) in Hin as [x Hx]. congruence.
Qed.

Lemma entities_createEmptyGen k rs id : entities k (createEmptyGen rs) !! id = None.
Proof. destruct k; apply lookup_empty. Qed.

Lemma fresh_cases st u :
  (exists id, id ∈ (map_to_list (u_resources u)).*1 /\ guidToGenId st !! id = None) \/
  (exists id, id ∈ (map_to_list (u_relationships u)).*1 /\ guidToGenId st !! id = None)
  <-> exists k id, fresh st u k id.
Proof.
  unfold fresh. split.
  - intros [(id & Hin & Hid)|(id & Hin & Hid)]; apply (elem_of_keys _ id) in Hin.
    + exists Resource, id. done.
    + exists Relationship, id. done.
  - intros ([] & id & Hin & Hid); apply (elem_of_keys _ id) in Hin; [left|right]; eauto.
Qed.

(** What a completed call of [updateGens] leaves. *)
Lemma updateGens_spec u rs st st' :
  updateGens u rs st = Ok st' ->
  focus st' = focus st /\ serverConfig st' = serverConfig st /\
  operationState st' = operationState st /\
  (forall j k id,
      j <= List.length (gens st) ->
      entity_at (gens st') j k id =
      match u_entities k u !! id with
      | Some upd =>
          if decide (guidToGenId st !! id = Some j)
          then (fun e => Object_assign e upd) <$> entity_at (gens st) j k id
          else entity_at (gens st) j k id
      | None => entity_at (gens st) j k id
      end) /\
  ((exists k id, fresh st u k id) ->
   List.length (gens st') = S (List.length (gens st)) /\
   (exists g,
       gens st' !! List.length (gens st) = Some g /\ requestSummary g = rs /\
       forall k id, is_Some (entities k g !! id) <-> fresh st u k id) /\
   (forall id,
       guidToGenId st' !! id =
       if decide (guidToGenId st !! id = None /\
                  (is_Some (u_resources u !! id) \/ is_Some (u_relationships u !! id)))
       then Some (S (List.length (gens st)))
       else guidToGenId st !! id)) /\
  (~ (exists k id, fresh st u k id) ->
   List.length (gens st') = List.length (gens st) /\
   guidToGenId st' = guidToGenId st) /\
  ((exists k id, fresh st u k id) \/ ~ (exists k id, fresh st u k id)).
Proof.
  intros H. apply updateGens_inv in H as (ms1 & ms2 & H1 & H2 & ->).
  pose proof (loop_entity _ _ _ _ _ _ H1) as E1.
  pose proof (loop_entity _ _ _ _ _ _ H2) as E2.
  destruct (loop_gens _ _ _ _ _ _ (NoDup_fst_map_to_list _) H1) as (L1 & _).
  destruct (loop_gens _ _ _ _ _ _ (NoDup_fst_map_to_list _) H2) as (L2 & _).
  destruct (loop_books _ _ _ _ _ _ H1) as (A1 & R1 & G1 & M1).
  destruct (loop_books _ _ _ _ _ _ H2) as (A2 & R2 & G2 & M2).
  cbn [start gens_clone map_clone addingGen ad_gen] in *.
  assert (List.length (gens_clone ms2) = List.length (gens st)) as Hlen by congruence.
  assert (addingGen ms2 = true <-> exists k id, fresh st u k id) as Hadd.
  { rewrite A2, A1, <- fresh_cases. split; [intros [[?|?]|?]|]; try tauto. done. }
  assert (forall j k id,
             entity_at (gens_clone ms2) j k id =
             match u_entities k u !! id with
             | Some upd =>
                 if decide (guidToGenId st !! id = Some j)
                 then (fun e => Object_assign e upd) <$> entity_at (gens st) j k id
                 else entity_at (gens st) j k id
             | None => entity_at (gens st) j k id
             end) as Hent.
  { intros j k id. rewrite E2, E1. destruct k; cbn [u_entities].
    - rewrite decide_False by done. now rewrite decide_True.
    - rewrite decide_True by done. rewrite decide_False by done.
      reflexivity. }
  unfold finish. destruct (addingGen ms2) eqn:Hflag;
    cbn [focus serverConfig operationState gens guidToGenId].
  - split; [done|]. split; [done|]. split; [done|]. split.
    { intros j k id Hj. rewrite entity_at_app by lia. apply Hent. }
    split.
    + intros _. split; [rewrite length_app; cbn; lia|]. split.
      * exists (ad_gen ms2). split.
        { rewrite lookup_app_r by lia. rewrite Hlen, Nat.sub_diag. done. }
        split; [rewrite R2, R1; done|].
        intros k id. rewrite G2, G1, entities_createEmptyGen. unfold fresh.
        rewrite !elem_of_fst_map_to_list. split.
        -- intros [[Hn|(-> & ? & ?)]|(-> & ? & ?)]; [by destruct Hn|done|done].
        -- destruct k; intros [? ?]; [left; right|right]; done.
      * intros id. rewrite M2, M1.
        rewrite !(decide_ext _ _ _ _ (and_iff_compat_r _ (elem_of_fst_map_to_list _ id))).
        destruct (decide (is_Some (u_relationships u !! id) /\ guidToGenId st !! id = None))
          as [[Hr Hn]|Hnr].
        { rewrite decide_True; [done|]. split; [done|]. now right. }
        destruct (decide (is_Some (u_resources u !! id) /\ guidToGenId st !! id = None))
          as [[Hr Hn]|Hne].
        { rewrite decide_True; [done|]. split; [done|]. now left. }
        rewrite decide_False; [done|]. intros [Hn [?|?]]; tauto.
    + split; [|left; now apply Hadd].
      intros Hno. exfalso. apply Hno. now apply Hadd.
  - split; [done|]. split; [done|]. split; [done|]. split.
    { intros j k id _. apply Hent. }
    split.
    + intros Hf. apply Hadd in Hf. discriminate.
    + split; [done|]. right. intros Hf. apply Hadd in Hf. discriminate.
Qed.

Lemma updateGens_total u rs st :
  applicable st u -> exists st', updateGens u rs st = Ok st'.
Proof.
  intros Happ. unfold updateGens, getLatestGenId. rewrite Nat.add_1_r.
  fold (start st rs).
  destruct (loop_total Resource (guidToGenId st) (S (List.length (gens st)))
              (map_to_list (u_resources u)) (start st rs)) as [ms1 H1].
  { apply NoDup_fst_map_to_list. }
  { intros id j Hin Hidx. apply elem_of_keys in Hin as [upd Hupd].
    exact (Happ Resource id upd j Hupd Hidx). }
  rewrite H1. cbn [obind].
  destruct (loop_total Relationship (guidToGenId st) (S (List.length (gens st)))
              (map_to_list (u_relationships u)) ms1) as [ms2 H2].
  { apply NoDup_fst_map_to_list. }
  { intros id j Hin Hidx. apply elem_of_keys in Hin as [upd Hupd].
    apply (loop_stores _ _ _ _ _ _ (NoDup_fst_map_to_list _) H1).
    exact (Happ Relationship id upd j Hupd Hidx). }
  rewrite H2. cbn [obind]. by eexists.
Qed.


(** [updateGens] completes exactly on the updates that fit the state. *)
Lemma updateGens_completes_iff u rs st :
  (exists st', updateGens u rs st = Ok st') <-> applicable st u.
Proof.
  split; [|apply updateGens_total].
  intros [st' Hrun]. apply updateGens_inv in Hrun as (ms1 & ms2 & H1 & H2 & _).
  intros k id upd j Hupd Hidx. destruct k; cbn [u_entities] in Hupd.
  - apply (loop_known_stored _ _ _ _ _ _ (NoDup_fst_map_to_list _) H1 id j);
      [|done]. apply elem_of_fst_map_to_list. by eexists.
  - apply (loop_stores _ _ _ _ _ _ (NoDup_fst_map_to_list _) H1).
    apply (loop_known_stored _ _ _ _ _ _ (NoDup_fst_map_to_list _) H2 id j);
      [|done]. apply elem_of_fst_map_to_list. by eexists.
Qed.

Lemma updateGens_stores u rs st st' :
  updateGens u rs st = Ok st' ->
  forall j k id,
    j <= List.length (gens st) ->
    (stores (gens st') j k id <-> stores (gens st) j k id).
Proof.
  intros H j k id Hj. unfold stores.
  destruct (updateGens_spec _ _ _ _ H) as (_ & _ & _ & Hent & _).
  rewrite (Hent j k id Hj).
  destruct (u_entities k u !! id); [|done].
  case_decide; [apply fmap_is_Some|done].
Qed.

Lemma lookup_Object_assign (existing upd : entity) (f : string) :
  Object_assign existing upd !! f =
  match upd !! f with
  | Some v => Some v
  | None => existing !! f
  end.
Proof.
  unfold Object_assign. rewrite lookup_union.
  destruct (upd !! f), (existing !! f); reflexivity.
Qed.

(** X29: a call of [updateGens] on an update that fits the state
    completes; when the update supplies at least one identifier the index
    does not know, exactly one generation is appended (the earlier ones
    keep their identifiers) and every such identifier is placed in it,
    under the kind it was supplied as; when the index knows every
    identifier supplied, the number of generations is unchanged. *)
Theorem updateGens_appends_one_generation u rs st :
  applicable st u ->
  exists st',
    updateGens u rs st = Ok st' /\
    (forall j k id, j <= List.length (gens st) ->
                    (stores (gens st') j k id <-> stores (gens st) j k id)) /\
    ((exists k id, fresh st u k id) ->
     List.length (gens st') = S (List.length (gens st)) /\
     exists g,
       gens st' !! List.length (gens st) = Some g /\
       forall k id, fresh st u k id -> is_Some (entities k g !! id)) /\
    ((forall k id, is_Some (u_entities k u !! id) -> is_Some (guidToGenId st !! id)) ->
     List.length (gens st') = List.length (gens st)).
Proof.
  intros Happ. destruct (updateGens_total u rs st Happ) as [st' Hrun].
  exists st'. split; [exact Hrun|].
  split; [exact (updateGens_stores _ _ _ _ Hrun)|].
  destruct (updateGens_spec _ _ _ _ Hrun) as (_ & _ & _ & _ & Hadd & Hsame & _).
  split.
  - intros Hf. destruct (Hadd Hf) as (Hlen & (g & Hg & _ & Hin) & _).
    split; [exact Hlen|]. exists g. split; [exact Hg|].
    intros k id Hfr. now apply Hin.
  - intros Hknown. apply Hsame. intros (k & id & Hsup & Hnone).
    destruct (Hknown k id Hsup) as [j Hj]. congruence.
Qed.

Lemma applicable_initial u : applicable initial_provider u.
Proof. intros k id upd j _ Hj. cbn in Hj. by rewrite lookup_empty in Hj. Qed.

Lemma updateGens_appends_one_generation_witness :
  exists st',
    updateGens update_servers (VStr "servers of p") initial_provider = Ok st' /\
    List.length (gens st') = 1.
Proof.
  destruct (updateGens_appends_one_generation update_servers (VStr "servers of p")
              initial_provider (applicable_initial _))
    as (st' & Hrun & _ & Hadd & _).
  exists st'. split; [exact Hrun|].
  apply Hadd. exists Resource, "PLATFORM_p". split; [|apply lookup_empty].
  cbn [u_entities update_servers u_resources]. rewrite lookup_insert_eq. by eexists.
Defined.


Lemma applicable_platform_servers : applicable provider_platform update_servers.
Proof.
  intros k id upd j Hupd Hj. cbn in Hj.
  apply lookup_insert_Some in Hj as [[<- <-]|[_ Hj]]; [|by rewrite lookup_empty in Hj].
  destruct k.
  - unfold stores, entity_at. cbn. rewrite lookup_insert_eq. by eexists.
  - cbn in Hupd. apply lookup_insert_Some in Hupd as [[Hk _]|[_ Hupd]];
      [discriminate|by rewrite lookup_empty in Hupd].
Qed.


(** C6: when [removeGen] removes the most recent generation, the focus is
    cleared (category and guid both the empty string) if the resources
    of that generation hold the guid of the focus, and is left as it was
    otherwise. *)
Theorem removeGen_focus st gs g :
  gens st = gs ++ [g] ->
  exists st',
    removeGen st = Ok st' /\
    (is_Some (resources g !! guid (focus st)) -> focus st' = mkFocus "" "") /\
    (resources g !! guid (focus st) = None -> focus st' = focus st).
Proof.
  intros Hg. unfold removeGen. rewrite Hg, pop_snoc.
  eexists. split; [reflexivity|].
  destruct (resources g !! guid (focus st)) as [r|]; cbn.
  - split; [done|discriminate].
  - split; [intros [? ?]; discriminate|done].
Qed.

Lemma removeGen_focus_witness :
  (exists st', removeGen provider_platform = Ok st' /\ focus st' = mkFocus "" "") /\
  (exists st', removeGen provider_elsewhere = Ok st' /\
               focus st' = mkFocus "server-instance" "SERVER_INSTANCE_t").
Proof.
  split.
  - destruct (removeGen_focus provider_platform [] gen_platform eq_refl)
      as (st' & Hrun & Hclear & _).
    exists st'. split; [exact Hrun|]. apply Hclear.
    cbn. rewrite lookup_insert_eq. by eexists.
  - destruct (removeGen_focus provider_elsewhere [] gen_platform eq_refl)
      as (st' & Hrun & _ & Hkeep).
    exists st'. split; [exact Hrun|]. apply Hkeep.
    cbn. rewrite lookup_insert_ne by discriminate. apply lookup_empty.
Defined.

(** C10: on the empty list of generations [removeGen] throws (it reads
    [resources] of the [undefined] that [pop] returned); on every
    non-empty list it completes and leaves the list without its last
    element, one shorter. *)
Theorem removeGen_defined_on_nonempty st :
  (gens st = [] -> removeGen st = TypeError) /\
  (gens st <> [] ->
   exists st' g,
     removeGen st = Ok st' /\ gens st = gens st' ++ [g] /\
     S (List.length (gens st')) = List.length (gens st)).
Proof.
  split.
  - intros Hg. unfold removeGen. now rewrite Hg.
  - intros Hg. destruct (pop_nonempty _ Hg) as (gs & g & Heq & Hpop).
    unfold removeGen. rewrite Hpop. eexists. exists g.
    split; [reflexivity|]. cbn [setGuidToGenId setGens gens].
    split; [exact Heq|]. rewrite Heq, length_app. cbn. lia.
Qed.

Lemma removeGen_defined_on_nonempty_witness :
  removeGen initial_provider = TypeError /\
  exists st' g, removeGen provider_platform = Ok st' /\
                gens provider_platform = gens st' ++ [g] /\
                S (List.length (gens st')) = List.length (gens provider_platform).
Proof.
  split.
  - apply (removeGen_defined_on_nonempty initial_provider). reflexivity.
  - apply (removeGen_defined_on_nonempty provider_platform). discriminate.
Defined.

(** *** The index *)

Lemma pop_Some {A} (l l' : list A) (x : A) : pop l = Some (l', x) -> l = l' ++ [x].
Proof.
  destruct l as [|h t]; [discriminate|]. intros Hpop.
  destruct (pop_nonempty (h :: t)) as (l0 & x0 & Heq & Hpop0); [discriminate|].
  rewrite Hpop in Hpop0. injection Hpop0 as -> ->. exact Heq.
Qed.

Lemma removeGen_index st st' :
  removeGen st = Ok st' ->
  exists g,
    gens st = gens st' ++ [g] /\
    forall id,
      guidToGenId st' !! id =
      if decide (is_Some (resources g !! id) \/ is_Some (relationships g !! id))
      then None else guidToGenId st !! id.
Proof.
  unfold removeGen. destruct (pop (gens st)) as [[newList g]|] eqn:Hpop; [|discriminate].
  intros [= <-]. exists g. cbn [setGuidToGenId setGens gens guidToGenId].
  split; [now apply pop_Some|].
  intros id. rewrite !lookup_delete_keys.
  destruct (decide (id ∈ keys (relationships g))) as [Hrel|Hrel];
    destruct (decide (id ∈ keys (resources g))) as [Hres|Hres];
    rewrite elem_of_keys in Hrel; rewrite elem_of_keys in Hres.
  - rewrite decide_True; [done|now left].
  - rewrite decide_True; [done|now right].
  - rewrite decide_True; [done|now left].
  - rewrite decide_False; [done|tauto].
Qed.

(** C7: in a state whose index is consistent, a completed [updateGens]
    leaves a consistent index and adds to it only identifiers held by
    the generation it appended, and a completed [removeGen] leaves a
    consistent index from which exactly the resource and relationship
    keys of the removed generation have been deleted. *)
Theorem index_consistency_preserved st :
  index_consistent st ->
  (forall u rs st',
      updateGens u rs st = Ok st' ->
      index_consistent st' /\
      forall id genId,
        guidToGenId st' !! id = Some genId ->
        guidToGenId st !! id = Some genId \/
        (genId = S (List.length (gens st)) /\
         List.length (gens st') = S (List.length (gens st)) /\
         (stores (gens st') genId Resource id \/
          stores (gens st') genId Relationship id))) /\
  (forall st',
      removeGen st = Ok st' ->
      index_consistent st' /\
      exists g,
        gens st = gens st' ++ [g] /\
        forall id,
          guidToGenId st' !! id =
          if decide (is_Some (resources g !! id) \/ is_Some (relationships g !! id))
          then None else guidToGenId st !! id).
Proof.
  intros Hinv. split.
  - intros u rs st' Hrun.
    destruct (updateGens_spec _ _ _ _ Hrun) as (_ & _ & _ & _ & Hadd & Hsame & Hdec).
    pose proof (updateGens_stores _ _ _ _ Hrun) as Hst.
    assert (forall id genId,
               guidToGenId st' !! id = Some genId ->
               guidToGenId st !! id = Some genId \/
               (genId = S (List.length (gens st)) /\
                List.length (gens st') = S (List.length (gens st)) /\
                (stores (gens st') genId Resource id \/
                 stores (gens st') genId Relationship id))) as Hnew.
    { intros id genId Hid. destruct Hdec as [Hf|Hf].
      - destruct (Hadd Hf) as (Hlen & (g & Hg & _ & Hin) & Hmap).
        rewrite Hmap in Hid.
        destruct (decide (guidToGenId st !! id = None /\
                          (is_Some (u_resources u !! id) \/
                           is_Some (u_relationships u !! id))))
          as [[Hnone Hsup]|_]; [|now left].
        injection Hid as <-. right. split; [done|]. split; [done|].
        unfold stores, entity_at. cbn [lookup_gen]. rewrite Hg.
        destruct Hsup as [Hs|Hs]; [left|right]; apply Hin; split; done.
      - destruct (Hsame Hf) as (_ & Heq). rewrite Heq in Hid. now left. }
    split; [|exact Hnew].
    intros id genId Hid. destruct (Hnew id genId Hid) as [Hold|(_ & _ & Hin)]; [|exact Hin].
    assert (genId <= List.length (gens st)) as Hbound.
    { destruct (Hinv id genId Hold) as [[e He]|[e He]]; unfold entity_at in He;
        destruct (lookup_gen (gens st) genId) as [g|] eqn:Hg; try discriminate;
        apply lookup_gen_bound in Hg; lia. }
    destruct (Hinv id genId Hold) as [Hs|Hs]; [left|right]; now apply Hst.
  - intros st' Hrun. destruct (removeGen_index _ _ Hrun) as (g & Hgens & Hmap).
    split; [|exists g; done].
    intros id genId Hid. rewrite Hmap in Hid.
    destruct (decide (is_Some (resources g !! id) \/ is_Some (relationships g !! id)))
      as [|Hout]; [discriminate|].
    assert (forall k, stores (gens st) genId k id -> stores (gens st') genId k id) as Hkeep.
    { intros k. unfold stores. rewrite Hgens.
      destruct (decide (genId <= List.length (gens st'))) as [Hle|Hgt].
      - now rewrite entity_at_app.
      - destruct (decide (genId = S (List.length (gens st')))) as [->|Hne].
        + rewrite entity_at_last. intros Hs. exfalso. apply Hout.
          destruct k; [now left|now right].
        + intros [e He]. rewrite entity_at_beyond in He; [discriminate|].
          rewrite length_app. cbn. lia. }
    destruct (Hinv id genId Hid) as [Hs|Hs]; [left|right]; now apply Hkeep.
Qed.

Lemma index_consistent_platform : index_consistent provider_platform.
Proof.
  intros id j Hj. cbn in Hj.
  apply lookup_insert_Some in Hj as [[<- <-]|[_ Hj]]; [|by rewrite lookup_empty in Hj].
  left. unfold stores, entity_at. cbn. rewrite lookup_insert_eq. by eexists.
Qed.

Lemma index_consistency_preserved_witness :
  (exists st', updateGens update_servers (VStr "servers of p") provider_platform = Ok st' /\
               index_consistent st') /\
  (exists st', removeGen provider_platform = Ok st' /\ index_consistent st').
Proof.
  destruct (index_consistency_preserved provider_platform index_consistent_platform)
    as [Hupd Hrem].
  split.
  - destruct (updateGens_total update_servers (VStr "servers of p") provider_platform
                applicable_platform_servers) as [st' Hrun].
    exists st'. split; [exact Hrun|]. now apply (Hupd _ _ _ Hrun).
  - eexists. split; [reflexivity|]. now apply Hrem.
Defined.

End Store.

(** * The focus state machine *)

Section FocusMachine.

Context {effect : Type}.
Variable loadPlatform : value -> outcome (list effect).
Variable loadServerFromGen : provider -> entity -> outcome (list effect).
Variable loadServiceFromGen : provider -> entity -> outcome (list effect).

Lemma focus_has_no_instanceGUID (f : Focus) : focus_prop f "instanceGUID" = VUndefined.
Proof. reflexivity. Qed.

(** The guard of [changeFocusResource] reads [focus.instanceGUID], which
    no focus object has, so no guid takes the branch that clears the
    focus: a completed call leaves the focus as it was. *)
Lemma changeFocusResource_keeps_focus id st st' eff :
  changeFocusResource loadPlatform loadServerFromGen loadServiceFromGen id st
  = Ok (st', eff) ->
  focus st' = focus st.
Proof.
  unfold changeFocusResource. rewrite focus_has_no_instanceGUID. cbn [strict_eq].
  destruct (guidToGenId st !! id) as [genId|]; [|by intros [= <- _]].
  destruct (lookup_gen (gens st) genId) as [g|]; [|discriminate].
  destruct (resources g !! id) as [resource|]; [|discriminate].
  destruct (strict_eq _ _).
  { destruct (loadPlatform _); cbn [obind]; try discriminate. by intros [= <- _]. }
  destruct (strict_eq _ _).
  { destruct (loadServerFromGen _ _); cbn [obind]; try discriminate. by intros [= <- _]. }
  destruct (strict_eq _ _).
  { destruct (loadServiceFromGen _ _); cbn [obind]; try discriminate. by intros [= <- _]. }
  by intros [= <- _].
Qed.

(** C3 (the code departs from the specification): with the platform
    [PLATFORM_p] focused, [changeFocusResource("PLATFORM_p")] does not
    clear the focus; it reloads the platform, and the state it leaves
    differs from the one before only in the operation state. *)
Theorem changeFocusResource_focused_guid_reloads :
  guid (focus provider_platform) = "PLATFORM_p" /\
  changeFocusResource loadPlatform loadServerFromGen loadServiceFromGen
    "PLATFORM_p" provider_platform
  = (eff <- loadPlatform (VStr "p") ;;;
     Ok (setOperationState (mkOperationState "loading" (VStr "p")) provider_platform,
         eff)) /\
  focus (setOperationState (mkOperationState "loading" (VStr "p")) provider_platform)
  = mkFocus "platform" "PLATFORM_p".
Proof.
  split; [reflexivity|]. split; [|reflexivity].
  unfold changeFocusResource. rewrite focus_has_no_instanceGUID. cbn [strict_eq].
  cbn [provider_platform guidToGenId gens]. rewrite lookup_insert_eq.
  cbn [lookup_gen lookup list_lookup gen_platform resources].
  rewrite lookup_insert_eq. reflexivity.
Qed.

End FocusMachine.

(** * Further properties of the configuration comparator *)

Section ComparatorExtras.

Implicit Types (storedConfig activeConfig : value).
Implicit Types (propertyPath : list string) (mpn : list value).

Lemma reportable_nested propertyPath propName path :
  includes excludeProps propName = false ->
  reportable (propertyPath ++ [propName]) path -> reportable propertyPath path.
Proof.
  intros Hex (names & -> & _ & Hall). exists (propName :: names).
  split; [now rewrite <- app_assoc|]. split; [discriminate|].
  now constructor.
Qed.

Lemma appends_nothing propertyPath (matched : bool) mpn :
  exists paths,
    mpn = mpn ++ map flattenPropertyPath paths /\
    Forall (reportable propertyPath) paths /\
    (matched = true <-> matched = true /\ paths = []).
Proof.
  exists []. cbn. rewrite app_nil_r. split; [reflexivity|].
  split; [constructor|]. split; [intros ->; split; reflexivity|intros [-> _]; reflexivity].
Qed.

Lemma compareProperty_appends recur storedConfig activeConfig propertyPath propName
    matched mpn matched' mpn' :
  (forall sv av m b m',
      recur sv av (propertyPath ++ [propName]) m = Ok (b, m') ->
      exists paths,
        m' = m ++ map flattenPropertyPath paths /\
        Forall (reportable (propertyPath ++ [propName])) paths /\
        (b = true <-> paths = [])) ->
  compareProperty recur storedConfig activeConfig propertyPath propName (matched, mpn)
  = Ok (matched', mpn') ->
  exists paths,
    mpn' = mpn ++ map flattenPropertyPath paths /\
    Forall (reportable propertyPath) paths /\
    (matched' = true <-> matched = true /\ paths = []).
Proof.
  intros Hrec. unfold compareProperty.
  destruct (includes excludeProps propName) eqn:Hex.
  { intros [= <- <-]. apply appends_nothing. }
  destruct (get_prop activeConfig propName) as [av| |]; cbn [obind]; try discriminate.
  destruct (is_object_type (typeof av)).
  - destruct (get_prop storedConfig propName) as [sv| |]; cbn [obind]; try discriminate.
    destruct (recur sv av (propertyPath ++ [propName]) mpn) as [[b m']| |] eqn:Hr;
      cbn [obind]; try discriminate.
    intros [= <- <-]. destruct (Hrec _ _ _ _ _ Hr) as (paths & -> & Hall & Hb).
    exists paths. split; [reflexivity|]. split.
    + eapply Forall_impl; [exact Hall|]. intros q. now apply reportable_nested.
    + destruct b; [|split; [discriminate|intros [_ ?]; now apply Hb]].
      split; [intros ->; split; [done|now apply Hb]|tauto].
  - destruct (get_prop storedConfig propName) as [sv| |]; cbn [obind]; try discriminate.
    destruct (strict_eq sv av).
    + intros [= <- <-]. apply appends_nothing.
    + intros [= <- <-]. exists [propertyPath ++ [propName]]. split; [reflexivity|].
      split; [|split; [discriminate|intros [_ ?]; discriminate]].
      constructor; [|constructor]. exists [propName].
      split; [reflexivity|]. split; [discriminate|]. now repeat constructor.
Qed.

Lemma forEach_appends {A} (l : list A) (body : A -> cmp_state -> outcome cmp_state)
    propertyPath :
  (forall x matched mpn matched' mpn',
      body x (matched, mpn) = Ok (matched', mpn') ->
      exists paths,
        mpn' = mpn ++ map flattenPropertyPath paths /\
        Forall (reportable propertyPath) paths /\
        (matched' = true <-> matched = true /\ paths = [])) ->
  forall matched mpn matched' mpn',
    forEach l body (matched, mpn) = Ok (matched', mpn') ->
    exists paths,
      mpn' = mpn ++ map flattenPropertyPath paths /\
      Forall (reportable propertyPath) paths /\
      (matched' = true <-> matched = true /\ paths = []).
Proof.
  intros Hbody. induction l as [|x t IH]; intros matched mpn matched' mpn' Hrun.
  - injection Hrun as <- <-. apply appends_nothing.
  - cbn [forEach] in Hrun.
    destruct (body x (matched, mpn)) as [[b1 m1]| |] eqn:Hstep;
      cbn [obind] in Hrun; try discriminate.
    destruct (Hbody _ _ _ _ _ Hstep) as (p1 & -> & Hall1 & Hb1).
    destruct (IH _ _ _ _ Hrun) as (p2 & -> & Hall2 & Hb2).
    exists (p1 ++ p2). split; [now rewrite map_app, app_assoc|].
    split; [now apply Forall_app|].
    rewrite Hb2, Hb1. split.
    + intros [[? ->] ->]. done.
    + intros [? Hnil]. apply app_eq_nil in Hnil as [-> ->]. done.
Qed.

Lemma compareConfigurations_fuel_appends fuel :
  forall storedConfig activeConfig propertyPath mpn matched mpn',
    compareConfigurations_fuel fuel storedConfig activeConfig propertyPath mpn
    = Ok (matched, mpn') ->
    exists paths,
      mpn' = mpn ++ map flattenPropertyPath paths /\
      Forall (reportable propertyPath) paths /\
      (matched = true <-> paths = []).
Proof.
  induction fuel as [|f IH]; intros sc ac p m b m' H; [discriminate|].
  cbn [compareConfigurations_fuel] in H.
  destruct (Object_keys ac) as [aks| |]; cbn [obind] in H; try discriminate.
  destruct (Object_keys sc) as [sks| |]; cbn [obind] in H; try discriminate.
  eapply forEach_appends in H as (paths & Hm & Hall & Hb).
  - exists paths. split; [exact Hm|]. split; [exact Hall|]. tauto.
  - intros k matched mpn matched' mpn' Hstep.
    eapply compareProperty_appends; [|exact Hstep].
    intros sv av m0 b0 m0' Hr. exact (IH _ _ _ _ _ _ Hr).
Qed.

(** *** A property the active configuration reads as undefined *)

Lemma compareConfigurations_fuel_S fuel storedConfig activeConfig propertyPath mpn :
  compareConfigurations_fuel (S fuel) storedConfig activeConfig propertyPath mpn =
  (activeConfigPropNames <- Object_keys activeConfig ;;;
   storedConfigPropNames <- Object_keys storedConfig ;;;
   forEach (Array_sort (configPropNames activeConfigPropNames storedConfigPropNames))
     (compareProperty (compareConfigurations_fuel fuel)
        storedConfig activeConfig propertyPath)
     (true, mpn)).
Proof. reflexivity. Qed.


Section UndefinedOnActive.

Variables storedConfig activeConfig : value.
Variable propertyPath : list string.
Variable propName : string.
Variable storedValue : value.
Hypothesis Hexcluded : includes excludeProps propName = false.
Hypothesis Hactive : get_prop activeConfig propName = Ok VUndefined.
Hypothesis Hstored : get_prop storedConfig propName = Ok storedValue.




End UndefinedOnActive.






(** X1: a completed comparison only appends to [mpn], and it returns
    [matched = true] exactly when it appended nothing. *)
Theorem compareConfigurations_matched_iff_nothing_reported
    storedConfig activeConfig propertyPath mpn matched mpn' :
  compareConfigurations storedConfig activeConfig propertyPath mpn = Ok (matched, mpn') ->
  exists added, mpn' = mpn ++ added /\ (matched = true <-> added = []).
Proof.
  intros H. apply compareConfigurations_fuel_appends in H as (paths & -> & _ & Hb).
  exists (map flattenPropertyPath paths). split; [reflexivity|].
  rewrite Hb. split; [intros ->; reflexivity|].
  destruct paths; [reflexivity|discriminate].
Qed.

Lemma compareConfigurations_matched_iff_nothing_reported_witness :
  exists added, [VStr "a"] = [] ++ added /\ (false = true <-> added = []).
Proof.
  apply (compareConfigurations_matched_iff_nothing_reported cfg_a1 cfg_a2 [] []).
  reflexivity.
Defined.

Lemma flattenPropertyPath_nonempty_is_string path :
  path <> [] -> exists s, flattenPropertyPath path = VStr s.
Proof. destruct path; [congruence|]. intros _. by eexists. Qed.

(** X2: every entry a completed comparison appends to [mpn] is the
    flattened form of a path that extends [propertyPath] by at least one
    property name, and none of the added names is excluded; so an entry is
    always a string, never [null], and "class" is never a name on it. *)
Theorem compareConfigurations_reports_only_paths
    storedConfig activeConfig propertyPath mpn matched mpn' :
  compareConfigurations storedConfig activeConfig propertyPath mpn = Ok (matched, mpn') ->
  exists paths,
    mpn' = mpn ++ map flattenPropertyPath paths /\
    Forall (fun path =>
              (exists names,
                  path = propertyPath ++ names /\ names <> [] /\ ~ In "class" names) /\
              exists s, flattenPropertyPath path = VStr s) paths.
Proof.
  intros H. apply compareConfigurations_fuel_appends in H as (paths & -> & Hall & _).
  exists paths. split; [reflexivity|].
  eapply Forall_impl; [exact Hall|]. intros path (names & -> & Hne & Hex). split.
  - exists names. split; [reflexivity|]. split; [exact Hne|].
    intros Hin. rewrite Forall_forall in Hex. apply list_elem_of_In in Hin.
    specialize (Hex _ Hin). discriminate.
  - apply flattenPropertyPath_nonempty_is_string.
    destruct names; [congruence|]. now destruct propertyPath.
Qed.

Lemma compareConfigurations_reports_only_paths_witness :
  exists paths,
    [VStr "a.b"] = [] ++ map flattenPropertyPath paths /\
    Forall (fun path =>
              (exists names,
                  path = [] ++ names /\ names <> [] /\ ~ In "class" names) /\
              exists s, flattenPropertyPath path = VStr s) paths.
Proof.
  apply (compareConfigurations_reports_only_paths cfg_ab1 cfg_ab2 [] [] false).
  reflexivity.
Defined.

(** X3: an object or array that holds no [null] matches itself, whatever
    the path, and nothing is added to [mpn]. *)
Theorem compareConfigurations_reflexive_without_null X propertyPath mpn :
  is_object_type (typeof X) = true -> null_free X = true ->
  compareConfigurations X X propertyPath mpn = Ok (true, mpn).
Proof. apply compareConfigurations_refl_null_free. Qed.

Lemma compareConfigurations_reflexive_without_null_witness :
  compareConfigurations cfg_ab1 cfg_ab1 ["x"] [VStr "y"] = Ok (true, [VStr "y"]).
Proof.
  apply (compareConfigurations_reflexive_without_null cfg_ab1); reflexivity.
Defined.

(** *** A property only the active configuration has *)

Lemma compareConfigurations_fuel_undefined_stored fuel activeValue propertyPath mpn :
  compareConfigurations_fuel (S fuel) VUndefined activeValue propertyPath mpn = TypeError.
Proof.
  rewrite compareConfigurations_fuel_S. now destruct activeValue.
Qed.

Lemma forEach_Ok_each {A S} (l : list A) (body : A -> S -> outcome S) s s' :
  forEach l body s = Ok s' ->
  forall x, In x l -> exists s1 s2, body x s1 = Ok s2.
Proof.
  revert s. induction l as [|h t IH]; intros s Hrun x Hin; [destruct Hin|].
  cbn [forEach] in Hrun.
  destruct (body h s) as [s1| |] eqn:Hstep; cbn [obind] in Hrun; try discriminate.
  destruct Hin as [<-|Hin]; [eauto|]. exact (IH _ Hrun x Hin).
Qed.

(** X4: when [activeConfig] has an object-valued property for which
    [storedConfig] reads [undefined] (it has no such property, own or
    inherited), and the name reaches the loop (it stands, among the
    active names, beyond the number of stored names), the comparison does
    not return: the nested call is given [undefined] as stored
    configuration and [Object.keys] rejects it.  The outcome is the
    [TypeError], unless an earlier name has led to an inherited
    property, where the model stops. *)
Theorem compareConfigurations_active_only_object_throws
    storedConfig activeConfig propertyPath mpn sks aks propName activeValue :
  Object_keys storedConfig = Ok sks ->
  Object_keys activeConfig = Ok aks ->
  In propName (skipn (List.length sks) aks) ->
  get_prop storedConfig propName = Ok VUndefined ->
  includes excludeProps propName = false ->
  get_prop activeConfig propName = Ok activeValue ->
  typeof activeValue = TObject ->
  compareConfigurations storedConfig activeConfig propertyPath mpn = TypeError \/
  compareConfigurations storedConfig activeConfig propertyPath mpn = Inherited.
Proof.
  intros Hsks Haks Hin Hsv Hex Hav Hobj.
  assert (is_object_type (typeof activeValue) = true) as Hot by now rewrite Hobj.
  pose proof (depth_get_prop _ _ _ Hav Hot) as Hdepth.
  pose proof (compareConfigurations_total storedConfig activeConfig propertyPath mpn) as Htot.
  unfold compareConfigurations in *.
  destruct (depth activeConfig) as [|d] eqn:Hd; [lia|].
  destruct (compareConfigurations_fuel (S (S d)) storedConfig activeConfig propertyPath mpn)
    as [[b m']| |[|]] eqn:Hrun; [exfalso|now left|congruence|now right].
  rewrite compareConfigurations_fuel_S, Haks in Hrun. cbn [obind] in Hrun.
  rewrite Hsks in Hrun. cbn [obind] in Hrun.
  destruct (forEach_Ok_each _ _ _ _ Hrun propName) as ([b1 m1] & s2 & Hstep).
  { apply configPropNames_members. now right. }
  unfold compareProperty in Hstep. rewrite Hex, Hav in Hstep. cbn [obind] in Hstep.
  rewrite Hot, Hsv in Hstep. cbn [obind] in Hstep.
  rewrite compareConfigurations_fuel_undefined_stored in Hstep. discriminate.
Qed.

Lemma compareConfigurations_active_only_object_throws_witness :
  compareConfigurations cfg_empty cfg_active_nested [] [] = TypeError \/
  compareConfigurations cfg_empty cfg_active_nested [] [] = Inherited.
Proof.
  apply (compareConfigurations_active_only_object_throws
           cfg_empty cfg_active_nested [] [] [] ["a"] "a" (VObj [("b", VNum 1)]));
    try reflexivity.
  cbn. now left.
Defined.

(** *** From a flattened path back to the values *)

Lemma append_cons (c : ascii) (a b : string) :
  String.append (String c a) b = String c (String.append a b).
Proof. reflexivity. Qed.

Lemma append_assoc (a b c : string) :
  String.append (String.append a b) c = String.append a (String.append b c).
Proof.
  induction a as [|x a IH]; [reflexivity|]. rewrite !append_cons. now f_equal.
Qed.

Lemma append_empty_r (a : string) : String.append a EmptyString = a.
Proof.
  induction a as [|x a IH]; [reflexivity|]. rewrite append_cons. now f_equal.
Qed.

Lemma flatten_fold names acc :
  fold_left (fun flatPath p => String.append flatPath (String.append "." p)) names acc
  = String.append acc (dotted names).
Proof.
  revert acc. induction names as [|n rest IH]; intros acc; cbn [fold_left dotted].
  - now rewrite append_empty_r.
  - rewrite IH. rewrite !append_assoc. reflexivity.
Qed.

Lemma String_split_dot_free (a : string) :
  dot_free a = true -> String_split "." a = [a].
Proof.
  induction a as [|c a IH]; cbn [dot_free String_split]; [reflexivity|].
  intros H. apply andb_prop in H as [Hc Ha].
  apply negb_true_iff in Hc. rewrite Hc, (IH Ha). reflexivity.
Qed.

Lemma String_split_dot (a rest : string) :
  dot_free a = true ->
  String_split "." (String.append a (String "." rest)) = a :: String_split "." rest.
Proof.
  induction a as [|c a IH]; cbn [dot_free]; intros H.
  - reflexivity.
  - apply andb_prop in H as [Hc Ha]. apply negb_true_iff in Hc.
    rewrite append_cons. cbn [String_split]. rewrite Hc, (IH Ha). reflexivity.
Qed.

Lemma String_split_dotted first names :
  dot_free first = true -> Forall (fun n => dot_free n = true) names ->
  String_split "." (String.append first (dotted names)) = first :: names.
Proof.
  revert first. induction names as [|n rest IH]; intros first Hf Hall; cbn [dotted].
  - rewrite append_empty_r. now apply String_split_dot_free.
  - apply Forall_cons in Hall as [Hn Hrest].
    change (String.append "." (String.append n (dotted rest)))
      with (String "." (String.append n (dotted rest))).
    rewrite String_split_dot by done. now rewrite IH.
Qed.

(** X5: for a non-empty path whose names hold no ['.'], splitting the
    flattened path at ['.'] gives the names back, so the caller of the
    comparator records, for that path, the two values found by following
    the names through the stored and through the active configuration
    (it assigns them under the flattened path, see [obj_set]). *)
Theorem flattened_path_leads_back_to_the_values path storedConfig activeConfig differences :
  path <> [] -> Forall (fun n => dot_free n = true) path ->
  exists s,
    flattenPropertyPath path = VStr s /\
    String_split "." s = path /\
    add_difference storedConfig activeConfig (flattenPropertyPath path) differences
    = (storedValue <- reduce_index path storedConfig ;;;
       activeValue <- reduce_index path activeConfig ;;;
       Ok (obj_set s (VObj [("active", activeValue); ("stored", storedValue)])
             differences)).
Proof.
  intros Hne Hall. destruct path as [|first names]; [congruence|].
  apply Forall_cons in Hall as [Hf Hnames].
  cbn [flattenPropertyPath]. rewrite flatten_fold.
  eexists. split; [reflexivity|].
  pose proof (String_split_dotted first names Hf Hnames) as Hsplit.
  split; [exact Hsplit|]. cbn [add_difference]. now rewrite Hsplit.
Qed.

Lemma flattened_path_leads_back_to_the_values_witness :
  add_difference cfg_ab1 cfg_ab2 (flattenPropertyPath ["a"; "b"]) []
  = Ok [("a.b", VObj [("active", VNum 2); ("stored", VNum 1)])].
Proof.
  destruct (flattened_path_leads_back_to_the_values ["a"; "b"] cfg_ab1 cfg_ab2 [])
    as (s & Hs & _ & ->).
  - discriminate.
  - repeat constructor.
  - injection Hs as <-. reflexivity.
Defined.

(** *** The callback that stores the result *)

(** The own names of an object after [o[k] = v], for an object that
    has no own property ["__proto__"]. *)
Lemma obj_set_names k v ps :
  ~ In "__proto__" (map fst ps) ->
  ~ In "__proto__" (map fst (obj_set k v ps)) /\
  forall x, In x (map fst (obj_set k v ps)) <->
            In x (map fst ps) \/ (x = k /\ k <> "__proto__").
Proof.
  induction ps as [|[k' v'] t IH]; cbn [obj_set map fst]; intros Hno.
  - destruct (String.eqb_spec k "__proto__") as [->|Hne]; cbn [map fst In].
    + split; [tauto|]. intros x. intuition congruence.
    + split; [intuition congruence|]. intros x. intuition congruence.
  - cbn [In] in Hno.
    destruct (String.eqb_spec k k') as [->|Hne]; cbn [map fst In].
    + split; [tauto|]. intros x. intuition congruence.
    + destruct (IH ltac:(tauto)) as [IHno IHiff]. split; [tauto|].
      intros x. rewrite IHiff. tauto.
Qed.

(** The loop that fills [differences]: it holds one property per name of
    the list, except for the name ["__proto__"]. *)
Lemma add_differences_names storedConfig activeConfig names :
  forall differences differences',
    ~ In "__proto__" (map fst differences) ->
    forEach (map VStr names) (add_difference storedConfig activeConfig) differences
    = Ok differences' ->
    ~ In "__proto__" (map fst differences') /\
    forall x, In x (map fst differences') <->
              In x (map fst differences) \/ (In x names /\ x <> "__proto__").
Proof.
  induction names as [|n t IH]; intros d d' Hno Hrun.
  - injection Hrun as <-. split; [exact Hno|]. intros x. cbn. tauto.
  - cbn [map forEach] in Hrun.
    destruct (add_difference storedConfig activeConfig (VStr n) d) as [d1| |] eqn:Hstep;
      cbn [obind] in Hrun; try discriminate.
    unfold add_difference in Hstep.
    destruct (reduce_index _ storedConfig) as [sv| |]; cbn [obind] in Hstep;
      try discriminate.
    destruct (reduce_index _ activeConfig) as [av| |]; cbn [obind] in Hstep;
      try discriminate.
    injection Hstep as <-.
    destruct (obj_set_names n (VObj [("active", av); ("stored", sv)]) d Hno)
      as [Hno1 Hiff1].
    destruct (IH _ _ Hno1 Hrun) as [Hno2 Hiff2].
    split; [exact Hno2|]. intros x. rewrite Hiff2, Hiff1. cbn [In].
    intuition congruence.
Qed.

Lemma map_VStr_inj (a b : list string) : map VStr a = map VStr b -> a = b.
Proof.
  revert b. induction a as [|x a IH]; intros [|y b] H; try discriminate; [reflexivity|].
  injection H as -> H. f_equal. now apply IH.
Qed.

(** Every entry the comparator reports from the empty path is a string. *)
Lemma reported_names_are_strings storedConfig activeConfig matched mpn :
  compareConfigurations storedConfig activeConfig [] [] = Ok (matched, mpn) ->
  exists names, mpn = map VStr names /\ (matched = true <-> names = []).
Proof.
  intros H. apply compareConfigurations_fuel_appends in H as (paths & -> & Hall & Hb).
  cbn [app].
  assert (exists names,
             map flattenPropertyPath paths = map VStr names /\
             (paths = [] <-> names = [])) as (names & Hnames & Hnil).
  { clear Hb. induction paths as [|q t IH].
    - exists []. split; [reflexivity|tauto].
    - apply Forall_cons in Hall as [(qn & -> & Hne & _) Ht].
      destruct (IH Ht) as (rest & Hrest & _).
      destruct (flattenPropertyPath_nonempty_is_string ([] ++ qn)) as [s Hs];
        [exact Hne|].
      exists (s :: rest). cbn [map]. rewrite Hs, Hrest.
      split; [reflexivity|]. split; discriminate. }
  exists names. split; [exact Hnames|]. now rewrite Hb.
Qed.

(** X6: when the response carries a stored and an active configuration
    and the callback completes, it reports no failure and stores both
    configurations as loaded.  The flag [matching] is "true" exactly when
    the comparator reported no name, and [diffs] holds one property for
    every reported name other than ["__proto__"]: an assignment under
    that name goes to the setter of the prototype and adds no property.
    So [diffs] is empty when [matching] is "true", and can be empty when
    it is "false". *)
Theorem loadServerConfiguration_diffs_hold_the_reported_names
    json st st' reports storedConfig activeConfig :
  truthy json = true ->
  get_prop json "relatedHTTPCode" = Ok (VNum 200) ->
  get_prop json "storedConfig" = Ok storedConfig ->
  get_prop json "activeConfig" = Ok activeConfig ->
  truthy storedConfig = true -> truthy activeConfig = true ->
  _loadServerConfiguration json st = Ok (st', reports) ->
  reports = [] /\
  exists matched names differences,
    compareConfigurations storedConfig activeConfig [] [] = Ok (matched, map VStr names) /\
    serverConfig st' =
    loaded_serverConfig storedConfig activeConfig
      (VStr (if matched then "true" else "false")) (VObj differences) /\
    (matched = true <-> names = []) /\
    (forall name,
        In name (map fst differences) <-> In name names /\ name <> "__proto__").
Proof.
  intros Hj Hcode Hsc Hac Hts Hta. unfold _loadServerConfiguration.
  rewrite Hj, Hcode. cbn [obind strict_eq]. rewrite Z.eqb_refl, Hsc. cbn [obind].
  rewrite Hac. cbn [obind]. rewrite Hts, Hta. cbn [andb].
  destruct (compareConfigurations storedConfig activeConfig [] [])
    as [[matched mpn]| |] eqn:Hcmp; cbn [obind]; try discriminate.
  destruct (reported_names_are_strings _ _ _ _ Hcmp) as (names & -> & Hmatched).
  destruct matched; cbn [obind].
  - intros [= <- <-]. split; [reflexivity|]. exists true, names, [].
    split; [reflexivity|]. split; [reflexivity|]. split; [exact Hmatched|].
    intros name. rewrite (proj1 Hmatched eq_refl). cbn. tauto.
  - destruct (forEach (map VStr names) (add_difference storedConfig activeConfig) [])
      as [differences| |] eqn:Hd; cbn [obind]; try discriminate.
    intros [= <- <-]. split; [reflexivity|]. exists false, names, differences.
    split; [reflexivity|]. split; [reflexivity|]. split; [exact Hmatched|].
    destruct (add_differences_names _ _ _ _ _ (fun H : In "__proto__" (map fst []) => H) Hd)
      as [_ Hiff].
    intros name. rewrite Hiff. cbn [map In]. tauto.
Qed.

Lemma loadServerConfiguration_diffs_hold_the_reported_names_witness :
  exists st',
    _loadServerConfiguration response_proto provider_platform = Ok (st', []) /\
    serverConfig st' =
    loaded_serverConfig cfg_proto_1 cfg_proto_2 (VStr "false") (VObj []).
Proof.
  destruct (_loadServerConfiguration response_proto provider_platform)
    as [[st' reports]| |] eqn:Hrun; [|discriminate Hrun..].
  destruct (loadServerConfiguration_diffs_hold_the_reported_names
              response_proto provider_platform st' reports cfg_proto_1 cfg_proto_2)
    as (-> & matched & names & differences & Hcmp & Hc & _ & Hiff);
    try reflexivity; [exact Hrun|].
  exists st'. split; [reflexivity|]. rewrite Hc.
  assert (compareConfigurations cfg_proto_1 cfg_proto_2 [] []
          = Ok (false, map VStr ["__proto__"])) as Heval by reflexivity.
  rewrite Heval in Hcmp. injection Hcmp as <- Hnames.
  apply (map_VStr_inj ["__proto__"] names) in Hnames as <-.
  destruct differences as [|[k v] rest]; [reflexivity|].
  exfalso. destruct (proj1 (Hiff k) ltac:(now left)) as [[<-|[]] Hne].
  now apply Hne.
Defined.

Lemma loadServerConfiguration_frame json st st' reports :
  _loadServerConfiguration json st = Ok (st', reports) ->
  focus st' = focus st /\ operationState st' = operationState st /\
  gens st' = gens st /\ guidToGenId st' = guidToGenId st /\
  (reports = [] \/
   (reports = [("load server configuration", json)] /\ st' = st)).
Proof.
  unfold _loadServerConfiguration.
  assert (forall r : outcome (provider * list failure_report),
             r = Ok (st, [("load server configuration", json)]) ->
             r = Ok (st', reports) ->
             focus st' = focus st /\ operationState st' = operationState st /\
             gens st' = gens st /\ guidToGenId st' = guidToGenId st /\
             (reports = [] \/
              (reports = [("load server configuration", json)] /\ st' = st))) as Hfail.
  { intros r -> [= <- <-]. repeat split; try reflexivity. right. done. }
  destruct (truthy json); [|now apply Hfail].
  destruct (get_prop json "relatedHTTPCode") as [code| |]; cbn [obind]; try discriminate.
  destruct (strict_eq code (VNum 200)); [|now apply Hfail].
  destruct (get_prop json "storedConfig") as [sc| |]; cbn [obind]; try discriminate.
  destruct (get_prop json "activeConfig") as [ac| |]; cbn [obind]; try discriminate.
  destruct (truthy sc && truthy ac).
  - destruct (compareConfigurations sc ac [] []) as [[matched names]| |];
      cbn [obind]; try discriminate.
    destruct (if matched then _ else _) as [differences| |]; cbn [obind]; try discriminate.
    intros [= <- <-]. repeat split; try reflexivity. now left.
  - destruct (truthy sc); [|now apply Hfail].
    intros [= <- <-]. repeat split; try reflexivity. now left.
Qed.

(** X7: a completed callback changes no state cell but [serverConfig],
    and when it reports a failure it reports exactly one, labelled
    "load server configuration" and carrying the response, and leaves the
    whole state as it was. *)
Theorem loadServerConfiguration_touches_only_serverConfig json st st' reports :
  _loadServerConfiguration json st = Ok (st', reports) ->
  focus st' = focus st /\ operationState st' = operationState st /\
  gens st' = gens st /\ guidToGenId st' = guidToGenId st /\
  (reports = [] \/
   (reports = [("load server configuration", json)] /\ st' = st)).
Proof. apply loadServerConfiguration_frame. Qed.

Lemma loadServerConfiguration_touches_only_serverConfig_witness :
  _loadServerConfiguration VNull provider_platform
  = Ok (provider_platform, [("load server configuration", VNull)]) /\
  focus provider_platform = focus provider_platform.
Proof.
  split; [reflexivity|].
  apply (loadServerConfiguration_touches_only_serverConfig VNull provider_platform
           provider_platform [("load server configuration", VNull)]).
  reflexivity.
Defined.

End ComparatorExtras.

(** * Further properties of the generation store *)

Section StoreExtras.

Implicit Types (st : provider) (gs : list gen) (g : gen) (id : string).
Implicit Types (k : kind) (u : update).

Section LoopExtras.

Variable k : kind.
Variable idx : gmap string nat.
Variable ad_genId : nat.

Lemma processKey_ad_gen id upd ms ms' :
  processKey k idx ad_genId (id, upd) ms = Ok ms' ->
  forall k' id',
    entities k' (ad_gen ms') !! id' =
    if decide (idx !! id = None /\ k' = k /\ id' = id)
    then Some (<["gen" := VNum (Z.of_nat ad_genId)]> upd)
    else entities k' (ad_gen ms) !! id'.
Proof.
  intros H k' id'.
  apply processKey_inv in H as [[Hidx ->]|(j0 & g & ex & Hidx & Hg & He & ->)];
    cbn [ad_gen].
  - rewrite entities_set_entity.
    destruct (decide (k' = k /\ id' = id)) as [[-> ->]|Hn].
    + now rewrite decide_True.
    + rewrite decide_False; [done|]. intros (_ & ? & ?). now apply Hn.
  - rewrite decide_False; [done|]. intros [? _]. congruence.
Qed.

Lemma processKey_summaries id upd ms ms' :
  processKey k idx ad_genId (id, upd) ms = Ok ms' ->
  forall j, summary_at (gens_clone ms') j = summary_at (gens_clone ms) j.
Proof.
  intros H j. unfold summary_at.
  apply processKey_inv in H as [[Hidx ->]|(j0 & g & ex & Hidx & Hg & He & ->)];
    cbn [gens_clone]; [reflexivity|].
  rewrite (lookup_gen_insert _ j0 g) by done.
  destruct (decide (j = j0)) as [->|Hne]; [|reflexivity].
  rewrite Hg. cbn. now rewrite requestSummary_set_entity.
Qed.

Lemma processKey_unknown_keeps_gens id upd ms ms' :
  processKey k idx ad_genId (id, upd) ms = Ok ms' ->
  idx !! id = None -> gens_clone ms' = gens_clone ms.
Proof.
  intros H Hnone.
  apply processKey_inv in H as [[Hidx ->]|(j0 & g & ex & Hidx & Hg & He & ->)];
    [reflexivity|congruence].
Qed.

Lemma loop_ad_gen l :
  forall ms ms',
    NoDup l.*1 ->
    forEach l (processKey k idx ad_genId) ms = Ok ms' ->
    (forall id upd,
        (id, upd) ∈ l -> idx !! id = None ->
        entities k (ad_gen ms') !! id = Some (<["gen" := VNum (Z.of_nat ad_genId)]> upd)) /\
    (forall k' id,
        k' <> k \/ id ∉ l.*1 \/ idx !! id <> None ->
        entities k' (ad_gen ms') !! id = entities k' (ad_gen ms) !! id) /\
    (forall j, summary_at (gens_clone ms') j = summary_at (gens_clone ms) j) /\
    ((forall id, id ∈ l.*1 -> idx !! id = None) -> gens_clone ms' = gens_clone ms).
Proof.
  induction l as [|[id0 upd0] t IH]; intros ms ms' Hnd Hrun.
  - injection Hrun as <-. split; [|done].
    intros id upd Hin. by apply elem_of_nil in Hin.
  - cbn [forEach] in Hrun.
    destruct (processKey k idx ad_genId (id0, upd0) ms) as [ms1| |] eqn:Hstep;
      cbn [obind] in Hrun; try discriminate.
    rewrite fmap_cons in Hnd. cbn [fst] in Hnd.
    apply NoDup_cons in Hnd as [Hfresh Hnd].
    destruct (IH ms1 ms' Hnd Hrun) as (Hnew & Hframe & Hsum & Hkeep).
    pose proof (processKey_ad_gen _ _ _ _ Hstep) as Hstep1.
    split; [|split; [|split]].
    + intros id upd Hin Hidx. apply elem_of_cons in Hin as [[= -> ->]|Hin].
      * rewrite Hframe by (right; left; exact Hfresh).
        rewrite Hstep1. now rewrite decide_True.
      * now apply Hnew.
    + intros k' id Hcond. rewrite fmap_cons in Hcond. cbn [fst] in Hcond.
      rewrite Hframe.
      * rewrite Hstep1. rewrite decide_False; [done|]. intros (Hnone & -> & ->).
        destruct Hcond as [?|[Hn|?]]; [done| |done].
        apply Hn. apply elem_of_cons. now left.
      * destruct Hcond as [?|[Hn|?]]; [tauto| |tauto].
        right; left. intros Hin. apply Hn. apply elem_of_cons. now right.
    + intros j. rewrite Hsum. exact (processKey_summaries _ _ _ _ Hstep j).
    + intros Hall. rewrite fmap_cons in Hall. cbn [fst] in Hall. rewrite Hkeep.
      * apply (processKey_unknown_keeps_gens _ _ _ _ Hstep).
        apply Hall. apply elem_of_cons. now left.
      * intros id Hin. apply Hall. apply elem_of_cons. now right.
Qed.

End LoopExtras.

Lemma loop_ad_gen_map k idx n (mp : gmap string entity) ms ms' :
  forEach (map_to_list mp) (processKey k idx n) ms = Ok ms' ->
  (forall k' id,
      entities k' (ad_gen ms') !! id =
      if decide (k' = k) then
        match mp !! id with
        | Some upd =>
            if decide (idx !! id = None)
            then Some (<["gen" := VNum (Z.of_nat n)]> upd)
            else entities k' (ad_gen ms) !! id
        | None => entities k' (ad_gen ms) !! id
        end
      else entities k' (ad_gen ms) !! id) /\
  (forall j, summary_at (gens_clone ms') j = summary_at (gens_clone ms) j) /\
  ((forall id, is_Some (mp !! id) -> idx !! id = None) ->
   gens_clone ms' = gens_clone ms).
Proof.
  intros Hrun.
  destruct (loop_ad_gen k idx n _ ms ms' (NoDup_fst_map_to_list _) Hrun)
    as (Hnew & Hframe & Hsum & Hkeep).
  split; [|split; [exact Hsum|]].
  - intros k' id. destruct (decide (k' = k)) as [->|Hk]; [|by apply Hframe; left].
    destruct (mp !! id) as [upd|] eqn:Hupd.
    + destruct (decide (idx !! id = None)) as [Hidx|Hidx].
      * apply Hnew; [|done]. now apply elem_of_map_to_list.
      * apply Hframe. right; right; done.
    + apply Hframe. right; left. intros Hin.
      apply elem_of_fst_map_to_list in Hin as [x Hx]. congruence.
  - intros Hall. apply Hkeep. intros id Hin.
    apply Hall. now apply elem_of_fst_map_to_list.
Qed.

(** What a completed call of [updateGens] does with the entities it does
    not know yet, with the request summaries, and with the generations
    when it knows none of the identifiers. *)
Lemma updateGens_spec_new u rs st st' :
  updateGens u rs st = Ok st' ->
  (forall k id upd,
      u_entities k u !! id = Some upd -> guidToGenId st !! id = None ->
      entity_at (gens st') (S (List.length (gens st))) k id
      = Some (<["gen" := VNum (Z.of_nat (S (List.length (gens st))))]> upd)) /\
  (forall j, j <= List.length (gens st) ->
             summary_at (gens st') j = summary_at (gens st) j) /\
  ((forall k id, is_Some (u_entities k u !! id) -> guidToGenId st !! id = None) ->
   exists rest, gens st' = gens st ++ rest).
Proof.
  intros H. pose proof (updateGens_spec _ _ _ _ H) as (_ & _ & _ & _ & Hadd & _ & _).
  apply updateGens_inv in H as (ms1 & ms2 & H1 & H2 & ->).
  destruct (loop_ad_gen_map _ _ _ _ _ _ H1) as (N1 & S1 & K1).
  destruct (loop_ad_gen_map _ _ _ _ _ _ H2) as (N2 & S2 & K2).
  destruct (loop_gens _ _ _ _ _ _ (NoDup_fst_map_to_list _) H1) as (L1 & _).
  destruct (loop_gens _ _ _ _ _ _ (NoDup_fst_map_to_list _) H2) as (L2 & _).
  destruct (loop_books _ _ _ _ _ _ H1) as (A1 & _).
  destruct (loop_books _ _ _ _ _ _ H2) as (A2 & _).
  cbn [start gens_clone map_clone addingGen ad_gen] in *.
  assert (List.length (gens_clone ms2) = List.length (gens st)) as Hlen by congruence.
  split; [|split].
  - intros k id upd Hupd Hnone.
    assert (addingGen ms2 = true) as Hflag.
    { apply A2. destruct k; cbn [u_entities] in Hupd.
      - left. apply A1. right. exists id. split; [|done].
        apply elem_of_fst_map_to_list. by eexists.
      - right. exists id. split; [|done].
        apply elem_of_fst_map_to_list. by eexists. }
    unfold finish. rewrite Hflag. cbn [gens].
    pose proof (entity_at_last (gens_clone ms2) (ad_gen ms2) k id) as E.
    rewrite Hlen in E. rewrite E, N2.
    destruct k; cbn [u_entities] in Hupd.
    + rewrite decide_False by done. rewrite N1, decide_True by done.
      rewrite Hupd. now rewrite decide_True.
    + rewrite decide_True by done. rewrite Hupd. now rewrite decide_True.
  - intros j Hj. unfold finish.
    assert (summary_at (gens_clone ms2) j = summary_at (gens st) j) as Hs
        by (now rewrite S2, S1).
    destruct (addingGen ms2); cbn [gens]; [|exact Hs].
    rewrite <- Hs. unfold summary_at. destruct j as [|i]; [reflexivity|].
    cbn [lookup_gen]. rewrite lookup_app_l by lia. reflexivity.
  - intros Hall.
    assert (gens_clone ms2 = gens st) as Heq.
    { rewrite K2, K1; [done| |].
      - intros id Hs. exact (Hall Resource id Hs).
      - intros id Hs. exact (Hall Relationship id Hs). }
    unfold finish. destruct (addingGen ms2); cbn [gens]; rewrite Heq.
    + by eexists.
    + exists []. now rewrite app_nil_r.
Qed.

Lemma stores_bound gs j k id : stores gs j k id -> 1 <= j <= List.length gs.
Proof.
  intros [e He]. unfold entity_at in He.
  destruct (lookup_gen gs j) as [g|] eqn:Hg; [|discriminate].
  now apply lookup_gen_bound in Hg.
Qed.

Lemma stores_app gs g j k id :
  j <= List.length gs -> (stores (gs ++ [g]) j k id <-> stores gs j k id).
Proof. intros Hj. unfold stores. now rewrite entity_at_app. Qed.

Lemma stores_last gs g k id :
  stores (gs ++ [g]) (S (List.length gs)) k id <-> is_Some (entities k g !! id).
Proof. unfold stores. now rewrite entity_at_last. Qed.

Lemma removeGen_total st : gens st <> [] -> exists st', removeGen st = Ok st'.
Proof.
  intros Hg. destruct (pop_nonempty _ Hg) as (gs & g & _ & Hpop).
  unfold removeGen. rewrite Hpop. by eexists.
Qed.

Lemma updateGens_frame u rs st st' :
  updateGens u rs st = Ok st' ->
  focus st' = focus st /\ serverConfig st' = serverConfig st /\
  operationState st' = operationState st /\
  (forall j k id,
      j <= List.length (gens st) -> u_entities k u !! id = None ->
      entity_at (gens st') j k id = entity_at (gens st) j k id) /\
  (forall j, j <= List.length (gens st) ->
             summary_at (gens st') j = summary_at (gens st) j) /\
  (forall id,
      is_Some (guidToGenId st !! id) \/ ~ supplied u id ->
      guidToGenId st' !! id = guidToGenId st !! id).
Proof.
  intros Hrun.
  destruct (updateGens_spec _ _ _ _ Hrun) as (Hf & Hc & Ho & Hent & Hadd & Hsame & Hdec).
  destruct (updateGens_spec_new _ _ _ _ Hrun) as (_ & Hsum & _).
  split; [exact Hf|]. split; [exact Hc|]. split; [exact Ho|]. split; [|split].
  - intros j k id Hj Hnone. rewrite (Hent j k id Hj). now rewrite Hnone.
  - exact Hsum.
  - intros id Hid. destruct Hdec as [Hfr|Hfr].
    + destruct (Hadd Hfr) as (_ & _ & Hmap). rewrite Hmap.
      rewrite decide_False; [done|]. intros [Hnone Hsup].
      destruct Hid as [[j Hj]|Hn]; [congruence|now apply Hn].
    + now destruct (Hsame Hfr) as (_ & ->).
Qed.

(** After a completed update, every identifier the update supplies is
    indexed. *)
Lemma updateGens_supplied_indexed u rs st st' id :
  updateGens u rs st = Ok st' -> supplied u id -> is_Some (guidToGenId st' !! id).
Proof.
  intros Hrun Hsup.
  destruct (updateGens_spec _ _ _ _ Hrun) as (_ & _ & _ & _ & Hadd & Hsame & Hdec).
  destruct (guidToGenId st !! id) as [j|] eqn:Hidx.
  - destruct Hdec as [Hf|Hf].
    + destruct (Hadd Hf) as (_ & _ & Hmap). rewrite Hmap, decide_False.
      * rewrite Hidx. by eexists.
      * intros [? _]. congruence.
    + destruct (Hsame Hf) as (_ & ->). rewrite Hidx. by eexists.
  - assert (exists k id0, fresh st u k id0) as Hf.
    { destruct Hsup as [Hs|Hs]; [exists Resource, id|exists Relationship, id]; done. }
    destruct (Hadd Hf) as (_ & _ & Hmap). rewrite Hmap, decide_True by done.
    by eexists.
Qed.

Lemma index_complete_updateGens u rs st st' :
  index_complete st -> updateGens u rs st = Ok st' -> index_complete st'.
Proof.
  intros Hinv Hrun j k id Hs.
  destruct (updateGens_spec _ _ _ _ Hrun) as (_ & _ & _ & _ & Hadd & Hsame & Hdec).
  pose proof (updateGens_stores _ _ _ _ Hrun) as Hst.
  pose proof (stores_bound _ _ _ _ Hs) as Hb.
  destruct Hdec as [Hf|Hf].
  + destruct (Hadd Hf) as (Hlen & (g & Hg & _ & Hin) & Hmap). rewrite Hmap.
    destruct (decide (j <= List.length (gens st))) as [Hle|Hgt].
    * apply Hst in Hs; [|done]. apply Hinv in Hs.
      rewrite decide_False; [done|]. intros [? _]. congruence.
    * assert (j = S (List.length (gens st))) as -> by lia.
      unfold stores, entity_at in Hs. cbn [lookup_gen] in Hs. rewrite Hg in Hs.
      apply Hin in Hs as [Hsup Hnone]. rewrite decide_True; [done|].
      split; [done|]. destruct k; [now left|now right].
  + destruct (Hsame Hf) as (Hlen & ->). apply (Hinv j k id). apply Hst; [lia|done].
Qed.

Lemma index_complete_removeGen st st' :
  index_complete st -> removeGen st = Ok st' -> index_complete st'.
Proof.
  intros Hinv Hrun j k id Hs.
  destruct (removeGen_index _ _ Hrun) as (g & Hgens & Hmap).
  pose proof (stores_bound _ _ _ _ Hs) as Hb.
  assert (stores (gens st) j k id) as Hs0.
  { rewrite Hgens. apply stores_app; [lia|done]. }
  rewrite Hmap, decide_False; [exact (Hinv j k id Hs0)|].
  intros Hin.
  assert (exists k', stores (gens st) (S (List.length (gens st'))) k' id) as [k' Hk'].
  { rewrite Hgens. destruct Hin as [Hr|Hr];
      [exists Resource|exists Relationship]; now apply stores_last. }
  apply Hinv in Hk'. apply Hinv in Hs0. rewrite Hs0 in Hk'.
  injection Hk' as ->. lia.
Qed.

(** X8: in a state where every identifier held by a generation is indexed
    to that generation, no identifier is held by two generations, and
    every completed [updateGens] and [removeGen] leaves a state of the
    same kind. *)
Theorem index_completeness_preserved st :
  index_complete st ->
  (forall j j' k k' id,
      stores (gens st) j k id -> stores (gens st) j' k' id -> j = j') /\
  (forall u rs st', updateGens u rs st = Ok st' -> index_complete st') /\
  (forall st', removeGen st = Ok st' -> index_complete st').
Proof.
  intros Hinv. split; [|split].
  - intros j j' k k' id H1 H2. apply Hinv in H1. apply Hinv in H2. congruence.
  - intros u rs st' Hrun. now apply (index_complete_updateGens u rs st).
  - intros st' Hrun. now apply (index_complete_removeGen st).
Qed.

Lemma index_complete_platform : index_complete provider_platform.
Proof.
  intros j k id Hs. pose proof (stores_bound _ _ _ _ Hs) as Hb. cbn in Hb.
  assert (j = 1) as -> by lia.
  destruct Hs as [e He]. unfold entity_at in He. cbn in He.
  destruct k; cbn in He.
  - apply lookup_insert_Some in He as [[<- _]|[_ He]];
      [apply lookup_insert_eq|by rewrite lookup_empty in He].
  - by rewrite lookup_empty in He.
Qed.

Lemma index_completeness_preserved_witness :
  (exists st', updateGens update_servers (VStr "servers of p") provider_platform = Ok st' /\
               index_complete st') /\
  (exists st', removeGen provider_platform = Ok st' /\ index_complete st').
Proof.
  destruct (index_completeness_preserved provider_platform index_complete_platform)
    as (_ & Hupd & Hrem).
  split.
  - destruct (updateGens_total update_servers (VStr "servers of p") provider_platform
                applicable_platform_servers) as [st' Hrun].
    exists st'. split; [exact Hrun|]. exact (Hupd _ _ _ Hrun).
  - eexists. split; [reflexivity|]. now apply Hrem.
Defined.

(** X9: an entity a fitting update supplies under an identifier the index
    does not know is stored, in the generation the call appends, as it was
    supplied plus the field [gen] holding the number of that generation,
    and the index maps the identifier to the same number. *)
Theorem updateGens_stamps_new_entity u rs st k id upd :
  applicable st u ->
  u_entities k u !! id = Some upd ->
  guidToGenId st !! id = None ->
  exists st',
    updateGens u rs st = Ok st' /\
    getNumGens st' = S (getNumGens st) /\
    entity_at (gens st') (getNumGens st') k id
    = Some (<["gen" := VNum (Z.of_nat (getNumGens st'))]> upd) /\
    guidToGenId st' !! id = Some (getNumGens st').
Proof.
  intros Happ Hupd Hnone. destruct (updateGens_total u rs st Happ) as [st' Hrun].
  exists st'. split; [exact Hrun|].
  destruct (updateGens_spec _ _ _ _ Hrun) as (_ & _ & _ & _ & Hadd & _ & _).
  destruct (updateGens_spec_new _ _ _ _ Hrun) as (Hnew & _ & _).
  destruct Hadd as (Hlen & _ & Hmap).
  { exists k, id. split; [by eexists|done]. }
  unfold getNumGens. rewrite Hlen. split; [reflexivity|].
  split; [now apply Hnew|].
  rewrite Hmap, decide_True; [done|]. split; [done|].
  destruct k; [left|right]; by eexists.
Qed.

Lemma updateGens_stamps_new_entity_witness :
  exists st',
    updateGens update_platform (VStr "platform p") initial_provider = Ok st' /\
    entity_at (gens st') (getNumGens st') Resource "PLATFORM_p"
    = Some (<["gen" := VNum (Z.of_nat (getNumGens st'))]> platform_p) /\
    guidToGenId st' !! "PLATFORM_p" = Some (getNumGens st').
Proof.
  destruct (updateGens_stamps_new_entity update_platform (VStr "platform p")
              initial_provider Resource "PLATFORM_p" platform_p
              (applicable_initial _))
    as (st' & Hrun & _ & Hent & Hidx).
  - cbn. apply lookup_insert_eq.
  - apply lookup_empty.
  - exists st'. split; [exact Hrun|]. split; [exact Hent|exact Hidx].
Defined.

(** X10: a completed [updateGens] leaves the focus, the server
    configuration and the operation state alone; in the generations that
    existed it leaves every entity the update does not supply, and every
    request summary, as they were; and it leaves the index entry of every
    identifier that was known or is not supplied as it was. *)
Theorem updateGens_leaves_the_rest u rs st st' :
  updateGens u rs st = Ok st' ->
  focus st' = focus st /\ serverConfig st' = serverConfig st /\
  operationState st' = operationState st /\
  (forall j k id,
      j <= List.length (gens st) -> u_entities k u !! id = None ->
      entity_at (gens st') j k id = entity_at (gens st) j k id) /\
  (forall j, j <= List.length (gens st) ->
             summary_at (gens st') j = summary_at (gens st) j) /\
  (forall id,
      is_Some (guidToGenId st !! id) \/ ~ supplied u id ->
      guidToGenId st' !! id = guidToGenId st !! id).
Proof. apply updateGens_frame. Qed.

Lemma updateGens_leaves_the_rest_witness :
  exists st',
    updateGens update_servers (VStr "servers of p") provider_platform = Ok st' /\
    focus st' = focus provider_platform /\
    summary_at (gens st') 1 = Some (VStr "platform p").
Proof.
  destruct (updateGens_total update_servers (VStr "servers of p") provider_platform
              applicable_platform_servers) as [st' Hrun].
  destruct (updateGens_leaves_the_rest _ _ _ _ Hrun) as (Hf & _ & _ & _ & Hsum & _).
  exists st'. split; [exact Hrun|]. split; [exact Hf|].
  rewrite Hsum; [reflexivity|cbn; lia].
Defined.

(** X11: after a fitting update that supplied at least one unknown
    identifier, [removeGen] completes and takes the update back: the index
    is the one before the update, the generations are as many and hold the
    same identifiers as before; and when the update supplied unknown
    identifiers only, the generations are exactly those before it. *)
Theorem removeGen_takes_back_updateGens u rs st :
  applicable st u ->
  (exists k id, fresh st u k id) ->
  exists st' st'',
    updateGens u rs st = Ok st' /\ removeGen st' = Ok st'' /\
    guidToGenId st'' = guidToGenId st /\
    List.length (gens st'') = List.length (gens st) /\
    (forall j k id, stores (gens st'') j k id <-> stores (gens st) j k id) /\
    ((forall k id, is_Some (u_entities k u !! id) -> guidToGenId st !! id = None) ->
     gens st'' = gens st).
Proof.
  intros Happ Hf. destruct (updateGens_total u rs st Happ) as [st' Hrun].
  destruct (updateGens_spec _ _ _ _ Hrun) as (_ & _ & _ & _ & Hadd & _ & _).
  destruct (Hadd Hf) as (Hlen & (g & Hg & _ & Hin) & Hmap).
  destruct (removeGen_total st') as [st'' Hrem].
  { intros Hnil. rewrite Hnil in Hlen. discriminate. }
  destruct (removeGen_index _ _ Hrem) as (g' & Hgens & Hmap').
  assert (List.length (gens st'') = List.length (gens st)) as Hlen''.
  { rewrite Hgens, length_app in Hlen. cbn in Hlen. lia. }
  assert (g' = g) as ->.
  { rewrite Hgens in Hg. rewrite lookup_app_r in Hg by lia.
    rewrite Hlen'', Nat.sub_diag in Hg. now injection Hg. }
  exists st', st''. split; [exact Hrun|]. split; [exact Hrem|].
  split; [|split; [exact Hlen''|split]].
  - apply map_eq. intros id. rewrite Hmap'.
    destruct (decide (is_Some (resources g !! id) \/ is_Some (relationships g !! id)))
      as [Hheld|Hout].
    + destruct Hheld as [Hh|Hh];
        [apply (Hin Resource) in Hh|apply (Hin Relationship) in Hh];
        destruct Hh as [_ ->]; reflexivity.
    + rewrite Hmap. rewrite decide_False; [done|]. intros [Hnone Hsup].
      apply Hout. destruct Hsup as [Hs|Hs];
        [left; apply (Hin Resource)|right; apply (Hin Relationship)]; done.
  - intros j k id. destruct (decide (j <= List.length (gens st))) as [Hle|Hgt].
    + rewrite <- (updateGens_stores _ _ _ _ Hrun j k id Hle), Hgens.
      symmetry. apply stores_app. lia.
    + split; intros Hs; apply stores_bound in Hs; lia.
  - intros Hall.
    destruct (updateGens_spec_new _ _ _ _ Hrun) as (_ & _ & Hkeep).
    destruct (Hkeep Hall) as [rest Hrest]. rewrite Hgens in Hrest.
    apply app_inj_1 in Hrest as [? _]; done.
Qed.

Lemma removeGen_takes_back_updateGens_witness :
  exists st' st'',
    updateGens update_platform (VStr "platform p") initial_provider = Ok st' /\
    removeGen st' = Ok st'' /\
    guidToGenId st'' = guidToGenId initial_provider /\
    gens st'' = gens initial_provider.
Proof.
  destruct (removeGen_takes_back_updateGens update_platform (VStr "platform p")
              initial_provider (applicable_initial _))
    as (st' & st'' & Hrun & Hrem & Hidx & _ & _ & Hgens).
  - exists Resource, "PLATFORM_p". split; [|apply lookup_empty].
    cbn. rewrite lookup_insert_eq. by eexists.
  - exists st', st''. split; [exact Hrun|]. split; [exact Hrem|].
    split; [exact Hidx|]. apply Hgens. intros k id _. apply lookup_empty.
Defined.

(** X12: a fitting update applied a second time (with any request
    summary) completes again and adds nothing: the number of generations
    and the index stay as the first application left them. *)
Theorem updateGens_again_adds_nothing u rs rs' st :
  applicable st u ->
  exists st' st'',
    updateGens u rs st = Ok st' /\ updateGens u rs' st' = Ok st'' /\
    List.length (gens st'') = List.length (gens st') /\
    guidToGenId st'' = guidToGenId st'.
Proof.
  intros Happ. destruct (updateGens_total u rs st Happ) as [st' Hrun].
  assert (applicable st' u) as Happ'.
  { intros k id upd j Hupd Hj.
    destruct (updateGens_spec _ _ _ _ Hrun) as (_ & _ & _ & _ & Hadd & Hsame & Hdec).
    destruct (updateGens_spec_new _ _ _ _ Hrun) as (Hnew & _ & _).
    destruct (guidToGenId st !! id) as [j0|] eqn:Hidx.
    - assert (guidToGenId st' !! id = Some j0) as Hkeep.
      { destruct (updateGens_frame _ _ _ _ Hrun) as (_ & _ & _ & _ & _ & Hk).
        rewrite Hk; [done|]. left. rewrite Hidx. by eexists. }
      assert (j = j0) as -> by congruence.
      pose proof (Happ k id upd j0 Hupd Hidx) as Hs.
      apply (updateGens_stores _ _ _ _ Hrun); [|done].
      apply stores_bound in Hs. lia.
    - destruct Hadd as (_ & _ & Hmap).
      { exists k, id. split; [by eexists|done]. }
      rewrite Hmap, decide_True in Hj.
      + injection Hj as <-. unfold stores. rewrite (Hnew k id upd Hupd Hidx).
        by eexists.
      + split; [done|]. destruct k; [left|right]; by eexists. }
  destruct (updateGens_total u rs' st' Happ') as [st'' Hrun'].
  exists st', st''. split; [exact Hrun|]. split; [exact Hrun'|].
  destruct (updateGens_spec _ _ _ _ Hrun') as (_ & _ & _ & _ & _ & Hsame & _).
  apply Hsame. intros (k & id & Hsup & Hnone).
  destruct (updateGens_supplied_indexed u rs st st' id Hrun) as [j Hj]; [|congruence].
  destruct k; [left|right]; done.
Qed.

Lemma updateGens_again_adds_nothing_witness :
  exists st' st'',
    updateGens update_servers (VStr "first") provider_platform = Ok st' /\
    updateGens update_servers (VStr "second") st' = Ok st'' /\
    List.length (gens st'') = List.length (gens st').
Proof.
  destruct (updateGens_again_adds_nothing update_servers (VStr "first") (VStr "second")
              provider_platform applicable_platform_servers)
    as (st' & st'' & H1 & H2 & Hlen & _).
  exists st', st''. split; [exact H1|]. split; [exact H2|exact Hlen].
Defined.

(** X13: after a completed [updateGens], [resourceExists] answers true for
    exactly the identifiers it answered true for before and those the
    update supplies, resources and relationships alike. *)
Theorem resourceExists_after_updateGens u rs st st' id :
  updateGens u rs st = Ok st' ->
  (resourceExists st' id = true <-> resourceExists st id = true \/ supplied u id).
Proof.
  intros Hrun. unfold resourceExists. rewrite !bool_decide_eq_true. split.
  - intros Hs.
    destruct (decide (is_Some (guidToGenId st !! id))) as [Hk|Hk]; [now left|].
    right.
    destruct (decide (is_Some (u_resources u !! id) \/ is_Some (u_relationships u !! id)))
      as [Hsup|Hsup]; [exact Hsup|].
    destruct (updateGens_frame _ _ _ _ Hrun) as (_ & _ & _ & _ & _ & Hkeep).
    rewrite Hkeep in Hs; [done|]. now right.
  - intros [Hk|Hsup].
    + destruct (updateGens_frame _ _ _ _ Hrun) as (_ & _ & _ & _ & _ & Hkeep).
      rewrite Hkeep; [done|]. now left.
    + exact (updateGens_supplied_indexed _ _ _ _ _ Hrun Hsup).
Qed.

Lemma resourceExists_after_updateGens_witness :
  exists st',
    updateGens update_servers (VStr "servers of p") provider_platform = Ok st' /\
    resourceExists st' "PLATFORM_TO_SERVER_s@p" = true.
Proof.
  destruct (updateGens_total update_servers (VStr "servers of p") provider_platform
              applicable_platform_servers) as [st' Hrun].
  exists st'. split; [exact Hrun|].
  apply (resourceExists_after_updateGens _ _ _ _ _ Hrun).
  right. right. cbn. rewrite lookup_insert_eq. by eexists.
Defined.

End StoreExtras.

(** * Invariants of the graph *)

Section GraphInvariant.

Implicit Types (st : provider) (gs : list gen) (g : gen) (id : string).
Implicit Types (k : kind) (u : update).

(** After a completed update, an entity the update supplies is held,
    under the kind it was supplied as, by the generation the index names
    for it. *)
Lemma updateGens_supplied_stored u rs st st' k id upd :
  updateGens u rs st = Ok st' -> u_entities k u !! id = Some upd ->
  exists j, guidToGenId st' !! id = Some j /\ stores (gens st') j k id.
Proof.
  intros Hrun Hupd.
  assert (applicable st u) as Happ
    by (apply (updateGens_completes_iff u rs st); eauto).
  destruct (updateGens_spec _ _ _ _ Hrun) as (_ & _ & _ & _ & Hadd & _ & _).
  destruct (updateGens_spec_new _ _ _ _ Hrun) as (Hnew & _ & _).
  destruct (updateGens_frame _ _ _ _ Hrun) as (_ & _ & _ & _ & _ & Hkeep).
  destruct (guidToGenId st !! id) as [j0|] eqn:Hidx.
  - exists j0. split.
    + rewrite Hkeep; [done|]. left. rewrite Hidx. by eexists.
    + pose proof (Happ k id upd j0 Hupd Hidx) as Hs.
      apply (updateGens_stores _ _ _ _ Hrun); [|done].
      apply stores_bound in Hs. lia.
  - destruct Hadd as (_ & _ & Hmap).
    { exists k, id. split; [by eexists|done]. }
    exists (S (List.length (gens st))). split.
    + rewrite Hmap, decide_True; [done|]. split; [done|].
      destruct k; [left|right]; by eexists.
    + unfold stores. rewrite (Hnew k id upd Hupd Hidx). by eexists.
Qed.

Lemma index_consistent_updateGens u rs st st' :
  index_consistent st -> updateGens u rs st = Ok st' -> index_consistent st'.
Proof.
  intros Hinv Hrun id j Hj.
  destruct (updateGens_frame _ _ _ _ Hrun) as (_ & _ & _ & _ & _ & Hkeep).
  destruct (guidToGenId st !! id) as [j0|] eqn:Hidx.
  - rewrite Hkeep in Hj by (left; rewrite Hidx; by eexists).
    rewrite Hidx in Hj. injection Hj as <-.
    destruct (Hinv id j0 Hidx) as [Hs|Hs]; [left|right];
      (apply (updateGens_stores _ _ _ _ Hrun); [apply stores_bound in Hs; lia|done]).
  - destruct (decide (is_Some (u_resources u !! id))) as [[upd Hupd]|Hres].
    { destruct (updateGens_supplied_stored u rs st st' Resource id upd Hrun Hupd)
        as (j' & Hj' & Hs). left. congruence. }
    destruct (decide (is_Some (u_relationships u !! id))) as [[upd Hupd]|Hrel].
    { destruct (updateGens_supplied_stored u rs st st' Relationship id upd Hrun Hupd)
        as (j' & Hj' & Hs). right. congruence. }
    rewrite Hkeep in Hj; [congruence|]. right. intros [?|?]; tauto.
Qed.

(** What a completed [removeGen] leaves. *)
Lemma removeGen_inv st st' :
  removeGen st = Ok st' ->
  exists g,
    gens st = gens st' ++ [g] /\
    (forall id,
        guidToGenId st' !! id =
        if decide (is_Some (resources g !! id) \/ is_Some (relationships g !! id))
        then None else guidToGenId st !! id) /\
    ((is_Some (resources g !! guid (focus st)) /\ focus st' = no_focus) \/
     (resources g !! guid (focus st) = None /\ focus st' = focus st)).
Proof.
  intros Hrun. destruct (removeGen_index _ _ Hrun) as (g & Hgens & Hmap).
  exists g. split; [exact Hgens|]. split; [exact Hmap|].
  unfold removeGen in Hrun.
  destruct (pop (gens st)) as [[newList g']|] eqn:Hpop; [|discriminate].
  apply pop_Some in Hpop. injection Hrun as <-.
  cbn [setGuidToGenId setGens gens] in Hgens. rewrite Hpop in Hgens.
  apply app_inj_tail in Hgens as [_ ->].
  cbn [setGuidToGenId setGens focus].
  destruct (resources g !! guid (focus st)) as [e|]; cbn.
  - left. split; [by eexists|reflexivity].
  - right. done.
Qed.

Lemma index_consistent_removeGen st st' :
  index_consistent st -> removeGen st = Ok st' -> index_consistent st'.
Proof.
  intros Hinv Hrun id j Hj.
  destruct (removeGen_inv _ _ Hrun) as (g & Hgens & Hmap & _).
  rewrite Hmap in Hj.
  destruct (decide (is_Some (resources g !! id) \/ is_Some (relationships g !! id)))
    as [|Hout]; [discriminate|].
  assert (forall k, stores (gens st) j k id -> stores (gens st') j k id) as Hkeep.
  { intros k Hs. pose proof (stores_bound _ _ _ _ Hs) as Hb.
    rewrite Hgens, length_app in Hb. cbn in Hb. rewrite Hgens in Hs.
    destruct (decide (j <= List.length (gens st'))) as [Hle|Hgt].
    - now apply stores_app in Hs.
    - assert (j = S (List.length (gens st'))) as -> by lia.
      apply stores_last in Hs. exfalso. apply Hout.
      destruct k; [now left|now right]. }
  destruct (Hinv id j Hj) as [Hs|Hs]; [left|right]; now apply Hkeep.
Qed.

Lemma focus_valid_updateGens u rs st st' :
  focus_valid st -> updateGens u rs st = Ok st' -> focus_valid st'.
Proof.
  intros Hv Hrun.
  destruct (updateGens_frame _ _ _ _ Hrun) as (Hf & _ & _ & _ & _ & Hkeep).
  unfold focus_valid. rewrite Hf. destruct Hv as [Hv|(j & Hj & Hs)]; [now left|].
  right. exists j. split.
  - rewrite Hkeep; [done|]. left. rewrite Hj. by eexists.
  - apply (updateGens_stores _ _ _ _ Hrun); [apply stores_bound in Hs; lia|done].
Qed.

Lemma focus_valid_removeGen st st' :
  index_complete st -> focus_valid st -> removeGen st = Ok st' -> focus_valid st'.
Proof.
  intros Hc Hv Hrun.
  destruct (removeGen_inv _ _ Hrun) as (g & Hgens & Hmap & [[_ Hf]|[Hnone Hf]]);
    unfold focus_valid; rewrite Hf; [now left|].
  destruct Hv as [Hv|(j & Hj & Hs)]; [now left|]. right. exists j.
  pose proof (stores_bound _ _ _ _ Hs) as Hb.
  rewrite Hgens, length_app in Hb. cbn in Hb.
  assert (j <= List.length (gens st')) as Hle.
  { destruct (decide (j = S (List.length (gens st')))) as [->|Hne]; [|lia].
    rewrite Hgens in Hs. apply stores_last in Hs. cbn in Hs.
    rewrite Hnone in Hs. by destruct Hs. }
  split.
  - rewrite Hmap, decide_False; [done|]. intros [Hr|Hr].
    + rewrite Hnone in Hr. by destruct Hr.
    + assert (stores (gens st) (S (List.length (gens st'))) Relationship (guid (focus st)))
        as Hs' by (rewrite Hgens; now apply stores_last).
      apply Hc in Hs'. rewrite Hj in Hs'. injection Hs' as ->. lia.
  - rewrite Hgens in Hs. now apply stores_app in Hs.
Qed.

Lemma graph_invariant_updateGens u rs st st' :
  graph_invariant st -> updateGens u rs st = Ok st' -> graph_invariant st'.
Proof.
  intros (Hi & Hc & Hv) Hrun. split; [|split].
  - exact (index_consistent_updateGens _ _ _ _ Hi Hrun).
  - exact (index_complete_updateGens _ _ _ _ Hc Hrun).
  - exact (focus_valid_updateGens _ _ _ _ Hv Hrun).
Qed.

Lemma graph_invariant_removeGen st st' :
  graph_invariant st -> removeGen st = Ok st' -> graph_invariant st'.
Proof.
  intros (Hi & Hc & Hv) Hrun. split; [|split].
  - exact (index_consistent_removeGen _ _ Hi Hrun).
  - exact (index_complete_removeGen _ _ Hc Hrun).
  - exact (focus_valid_removeGen _ _ Hc Hv Hrun).
Qed.

Lemma graph_invariant_clear st : graph_invariant (clear st).
Proof.
  split; [|split].
  - intros id j Hj. cbn in Hj. by rewrite lookup_empty in Hj.
  - intros j k id Hs. apply stores_bound in Hs. cbn in Hs. lia.
  - now left.
Qed.

Lemma graph_invariant_initial : graph_invariant initial_provider.
Proof.
  split; [|split].
  - intros id j Hj. cbn in Hj. by rewrite lookup_empty in Hj.
  - intros j k id Hs. apply stores_bound in Hs. cbn in Hs. lia.
  - now left.
Qed.

(** The invariant reads the focus, the generations and the index only. *)
Lemma graph_invariant_same_graph st st' :
  focus st' = focus st -> gens st' = gens st -> guidToGenId st' = guidToGenId st ->
  graph_invariant st -> graph_invariant st'.
Proof.
  intros Hf Hg Hm (Hi & Hc & Hv). unfold graph_invariant, index_consistent,
    index_complete, focus_valid. rewrite Hf, Hg, Hm. done.
Qed.

Lemma graph_invariant_focus_on_stored st wanted id c o j :
  graph_invariant st ->
  guidToGenId st !! id = Some j -> stores (gens st) j Resource id ->
  graph_invariant
    (setOperationState o (setServerConfig c (setFocus (mkFocus wanted id) st))).
Proof.
  intros (Hi & Hc & _) Hj Hs. split; [exact Hi|]. split; [exact Hc|].
  right. exists j. done.
Qed.

(** X14: the initial state has a consistent and complete index and a
    valid focus (empty, or on a resource held by the generation the index
    names); every completed [updateGens] and [removeGen] keeps the three,
    and [clear] establishes them from any state. *)
Theorem graph_invariant_kept st :
  graph_invariant initial_provider /\
  graph_invariant (clear st) /\
  (graph_invariant st ->
   (forall u rs st', updateGens u rs st = Ok st' -> graph_invariant st') /\
   (forall st', removeGen st = Ok st' -> graph_invariant st')).
Proof.
  split; [exact graph_invariant_initial|]. split; [exact (graph_invariant_clear st)|].
  intros Hinv. split.
  - intros u rs st' Hrun. exact (graph_invariant_updateGens _ _ _ _ Hinv Hrun).
  - intros st' Hrun. exact (graph_invariant_removeGen _ _ Hinv Hrun).
Qed.

Lemma graph_invariant_platform : graph_invariant provider_platform.
Proof.
  split; [exact index_consistent_platform|]. split; [exact index_complete_platform|].
  right. exists 1. split; [apply lookup_insert_eq|].
  unfold stores, entity_at. cbn. rewrite lookup_insert_eq. by eexists.
Qed.

Lemma graph_invariant_kept_witness :
  (exists st', updateGens update_servers (VStr "servers of p") provider_platform = Ok st' /\
               graph_invariant st') /\
  (exists st', removeGen provider_platform = Ok st' /\ graph_invariant st').
Proof.
  destruct (graph_invariant_kept provider_platform) as (_ & _ & Hkeep).
  destruct (Hkeep graph_invariant_platform) as [Hupd Hrem].
  split.
  - destruct (updateGens_total update_servers (VStr "servers of p") provider_platform
                applicable_platform_servers) as [st' Hrun].
    exists st'. split; [exact Hrun|]. exact (Hupd _ _ _ Hrun).
  - eexists. split; [reflexivity|]. now apply Hrem.
Defined.

End GraphInvariant.

(** * The getters and the functions that fill the graph *)

Section Builders.

Implicit Types (st : provider) (gs : list gen) (g : gen) (id : string).
Implicit Types (k : kind) (u : update).

(** After a completed update, an entity the update supplies is found
    where the index says, with every field it was supplied with (the
    field [gen] apart, which a new entity gets from the store). *)
Lemma updateGens_supplied_content u rs st st' k id upd :
  updateGens u rs st = Ok st' -> u_entities k u !! id = Some upd ->
  exists j e,
    guidToGenId st' !! id = Some j /\ entity_at (gens st') j k id = Some e /\
    forall f v, f <> "gen" -> upd !! f = Some v -> e !! f = Some v.
Proof.
  intros Hrun Hupd.
  assert (applicable st u) as Happ
    by (apply (updateGens_completes_iff u rs st); eauto).
  destruct (updateGens_spec _ _ _ _ Hrun) as (_ & _ & _ & Hent & Hadd & _ & _).
  destruct (updateGens_spec_new _ _ _ _ Hrun) as (Hnew & _ & _).
  destruct (updateGens_frame _ _ _ _ Hrun) as (_ & _ & _ & _ & _ & Hkeep).
  destruct (guidToGenId st !! id) as [j0|] eqn:Hidx.
  - destruct (Happ k id upd j0 Hupd Hidx) as [existing Hex].
    exists j0, (Object_assign existing upd). split; [|split].
    + rewrite Hkeep; [done|]. left. rewrite Hidx. by eexists.
    + rewrite Hent.
      * rewrite Hupd, decide_True by done. now rewrite Hex.
      * assert (stores (gens st) j0 k id) as Hs by (by eexists).
        apply stores_bound in Hs. lia.
    + intros f v _ Hf. rewrite lookup_Object_assign. now rewrite Hf.
  - destruct Hadd as (_ & _ & Hmap).
    { exists k, id. split; [by eexists|done]. }
    eexists _, _. split; [|split].
    + rewrite Hmap, decide_True; [done|]. split; [done|].
      destruct k; [left|right]; by eexists.
    + exact (Hnew k id upd Hupd Hidx).
    + intros f v Hne Hf. now rewrite lookup_insert_ne.
Qed.

Lemma getFocusOfCategory_found wanted st j e :
  category (focus st) = wanted -> guid (focus st) <> "" ->
  guidToGenId st !! guid (focus st) = Some j ->
  entity_at (gens st) j Resource (guid (focus st)) = Some e ->
  getFocusOfCategory wanted st = Ok (ReturnsEntity e).
Proof.
  intros Hcat Hne Hj He. unfold getFocusOfCategory.
  rewrite Hcat, String.eqb_refl. cbn [truthy].
  apply String.eqb_neq in Hne. rewrite Hne. cbn [negb]. rewrite Hj.
  unfold entity_at in He.
  destruct (lookup_gen (gens st) j) as [g|] eqn:Hg; [|discriminate].
  pose proof (lookup_gen_bound _ _ _ Hg) as Hb.
  assert (Z.eqb (Z.of_nat j) 0 = false) as -> by (apply Z.eqb_neq; lia).
  cbn [negb entities] in *. now rewrite He.
Qed.

Lemma getFocusOfCategory_null wanted st :
  category (focus st) <> wanted \/ guid (focus st) = "" ->
  getFocusOfCategory wanted st = Ok ReturnsNull.
Proof.
  intros [Hcat|Hg]; unfold getFocusOfCategory.
  - apply String.eqb_neq in Hcat. now rewrite Hcat.
  - rewrite Hg. cbn. now destruct (String.eqb (category (focus st)) wanted).
Qed.

(** X15: in a state whose focus is valid, each of [getFocusPlatform],
    [getFocusServer] and [getFocusService] completes; it returns the
    resource stored for the focus when the focus is not empty and has the
    category of the getter, and [null] otherwise; so none of them returns
    [undefined], and at most one of them returns a resource. *)
Theorem getFocus_getters_on_valid_focus st getter wanted :
  focus_valid st ->
  In (getter, wanted)
     [(getFocusPlatform, "platform"); (getFocusServer, "server-instance");
      (getFocusService, "service-instance")] ->
  (category (focus st) = wanted /\ guid (focus st) <> "" /\
   exists j e,
     guidToGenId st !! guid (focus st) = Some j /\
     entity_at (gens st) j Resource (guid (focus st)) = Some e /\
     getter st = Ok (ReturnsEntity e))
  \/
  ((category (focus st) <> wanted \/ guid (focus st) = "") /\
   getter st = Ok ReturnsNull).
Proof.
  intros Hv Hin.
  assert (getter = getFocusOfCategory wanted) as ->.
  { destruct Hin as [[= <- <-]|[[= <- <-]|[[= <- <-]|[]]]]; reflexivity. }
  destruct (decide (category (focus st) = wanted)) as [Hcat|Hcat];
    [|right; split; [now left|apply getFocusOfCategory_null; now left]].
  destruct (decide (guid (focus st) = "")) as [Hg|Hg];
    [right; split; [now right|apply getFocusOfCategory_null; now right]|].
  left. split; [exact Hcat|]. split; [exact Hg|].
  destruct Hv as [Hv|(j & Hj & [e He])]; [congruence|].
  exists j, e. split; [exact Hj|]. split; [exact He|].
  now apply (getFocusOfCategory_found wanted st j e).
Qed.

Lemma focus_valid_platform : focus_valid provider_platform.
Proof.
  right. exists 1. split; [apply lookup_insert_eq|].
  unfold stores, entity_at. cbn. rewrite lookup_insert_eq. by eexists.
Qed.

Lemma getFocus_getters_on_valid_focus_witness :
  getFocusPlatform provider_platform = Ok (ReturnsEntity stored_platform_p) /\
  getFocusServer provider_platform = Ok ReturnsNull.
Proof.
  split.
  - destruct (getFocus_getters_on_valid_focus provider_platform getFocusPlatform
                "platform" focus_valid_platform)
      as [(_ & _ & j & e & Hj & He & Hget)|[[Hcat|Hg] _]].
    + cbn. now left.
    + cbn in Hj. rewrite lookup_insert_eq in Hj. injection Hj as <-.
      unfold entity_at in He. cbn in He. rewrite lookup_insert_eq in He.
      injection He as <-. exact Hget.
    + exfalso. now apply Hcat.
    + discriminate Hg.
  - destruct (getFocus_getters_on_valid_focus provider_platform getFocusServer
                "server-instance" focus_valid_platform)
      as [(Hcat & _)|[_ Hget]].
    + cbn. right. now left.
    + discriminate Hcat.
    + exact Hget.
Defined.

(** X16: where every identifier a generation holds is indexed to it,
    [mapPlatformGUIDToPlatformName] finds every stored resource through
    the index: it returns the field [platformName] of the resource and
    raises no alert; for an identifier the index does not know it returns
    [null] and raises one alert. *)
Theorem mapPlatformGUIDToPlatformName_finds_stored st :
  index_complete st ->
  (forall j id e,
      entity_at (gens st) j Resource id = Some e ->
      mapPlatformGUIDToPlatformName id st = (field e "platformName", [])) /\
  (forall id,
      resourceExists st id = false ->
      exists message, mapPlatformGUIDToPlatformName id st = (VNull, [message])).
Proof.
  intros Hc. split.
  - intros j id e He.
    assert (stores (gens st) j Resource id) as Hs by (by eexists).
    pose proof (stores_bound _ _ _ _ Hs) as Hb. apply Hc in Hs.
    unfold mapPlatformGUIDToPlatformName. rewrite Hs. cbn [truthy].
    assert (Z.eqb (Z.of_nat j) 0 = false) as -> by (apply Z.eqb_neq; lia).
    cbn [negb]. unfold entity_at in He.
    destruct (lookup_gen (gens st) j) as [g|]; [|discriminate].
    cbn [entities] in He. now rewrite He.
  - intros id Hno. unfold resourceExists in Hno.
    apply bool_decide_eq_false in Hno.
    unfold mapPlatformGUIDToPlatformName.
    destruct (guidToGenId st !! id) as [j|]; [|by eexists].
    exfalso. apply Hno. by eexists.
Qed.

Lemma mapPlatformGUIDToPlatformName_finds_stored_witness :
  mapPlatformGUIDToPlatformName "PLATFORM_p" provider_platform = (VStr "p", []).
Proof.
  destruct (mapPlatformGUIDToPlatformName_finds_stored provider_platform
              index_complete_platform) as [Hfound _].
  rewrite (Hfound 1 "PLATFORM_p" stored_platform_p); [reflexivity|].
  unfold entity_at. cbn. apply lookup_insert_eq.
Defined.

Lemma resourceExists_of_update u rs st st' id :
  updateGens u rs st = Ok st' ->
  resourceExists st id = true \/ supplied u id -> resourceExists st' id = true.
Proof.
  intros Hrun Hid. unfold resourceExists in *. rewrite bool_decide_eq_true.
  destruct Hid as [Hk|Hsup].
  - apply bool_decide_eq_true in Hk.
    destruct (updateGens_frame _ _ _ _ Hrun) as (_ & _ & _ & _ & _ & Hkeep).
    rewrite Hkeep; [done|]. now left.
  - exact (updateGens_supplied_indexed _ _ _ _ _ Hrun Hsup).
Qed.

(** *** processRetrievedPlatform *)

Lemma genGUID_nonempty (tag : ascii) (rest : string) (v : value) :
  string_concat (String tag rest) v <> "".
Proof. unfold string_concat. rewrite append_cons. discriminate. Qed.

(** The platform resource that [processRetrievedPlatform] supplies. *)
Lemma processRetrievedPlatform_inv rs props st st' :
  truthy (assoc "platformRootURL" props) = true ->
  processRetrievedPlatform rs (VObj props) st = Ok st' ->
  exists st1,
    updateGens
      (mkUpdate
         (<[genPlatformGUID (assoc "platformName" props) :=
              <["guid" := VStr (genPlatformGUID (assoc "platformName" props))]>
                (<["category" := VStr "platform"]> (entity_of_props props))]> ∅) ∅)
      rs st = Ok st1 /\
    st' = setOperationState inactive
            (setServerConfig cleared_serverConfig
               (setFocus (mkFocus "platform" (genPlatformGUID (assoc "platformName" props)))
                  st1)).
Proof.
  intros Hurl. unfold processRetrievedPlatform.
  rewrite !get_prop_object by reflexivity. cbn [obind].
  rewrite Hurl. cbn [negb].
  destruct (updateGens _ rs st) as [st1| |]; cbn [obind]; [|discriminate..].
  intros [= <-]. by eexists.
Qed.



(** *** processRetrievedServer *)

Lemma lookup_assignments (assignments : list (string * value)) (o : entity) (key : string) :
  fold_left (fun o kv => <[kv.1 := kv.2]> o) assignments o !! key
  = assigned_value key assignments (o !! key).
Proof.
  revert o. induction assignments as [|[k' v] rest IH]; intros o;
    cbn [fold_left assigned_value fst snd]; [reflexivity|].
  rewrite IH. f_equal. destruct (String.eqb_spec key k') as [->|Hne].
  - apply lookup_insert_eq.
  - apply lookup_insert_ne. congruence.
Qed.

Lemma lookup_object_of (assignments : list (string * value)) (key : string) :
  object_of assignments !! key = assigned_value key assignments None.
Proof. unfold object_of. now rewrite lookup_assignments, lookup_empty. Qed.

Ltac assigned := rewrite lookup_object_of; reflexivity.

Lemma processRetrievedServer_inv rs serverOverview st st'
    serverInstanceName platformName serverName :
  get_prop serverOverview "serverInstanceName" = Ok serverInstanceName ->
  get_prop rs "platformName" = Ok platformName ->
  get_prop serverOverview "serverName" = Ok serverName ->
  processRetrievedServer rs serverOverview st = Ok st' ->
  exists serverInstance relationships st1,
    serverInstance !! "category" = Some (VStr "server-instance") /\
    serverInstance !! "guid" = Some (VStr (genServerInstanceGUID serverInstanceName)) /\
    serverInstance !! "serverName" = Some serverName /\
    serverInstance !! "platformName" = Some platformName /\
    relationships =
      (if resourceExists st (genPlatformGUID platformName) then
         <[genPlatformServerEdgeGUID
             (VStr (String.append (string_concat (ToString serverName) (VStr "@"))
                      (ToString platformName))) :=
             object_of
               [("category", VStr "platform-server-edge");
                ("edgeName",
                 VStr (String.append (string_concat (ToString serverName) (VStr "@"))
                         (ToString platformName)));
                ("guid",
                 VStr (genPlatformServerEdgeGUID
                         (VStr (String.append
                                  (string_concat (ToString serverName) (VStr "@"))
                                  (ToString platformName)))));
                ("serverInstanceName", serverInstanceName);
                ("serverName", serverName);
                ("platformName", platformName);
                ("source", VStr (genPlatformGUID platformName));
                ("target", VStr (genServerInstanceGUID serverInstanceName))]]> ∅
       else ∅) /\
    updateGens
      (mkUpdate (<[genServerInstanceGUID serverInstanceName := serverInstance]> ∅)
         relationships) rs st = Ok st1 /\
    st' = setOperationState inactive
            (setServerConfig initial_serverConfig
               (setFocus (mkFocus "server-instance"
                            (genServerInstanceGUID serverInstanceName)) st1)).
Proof.
  intros Hi Hp Hn. unfold processRetrievedServer. rewrite Hi. cbn [obind].
  rewrite Hp. cbn [obind]. rewrite Hn. cbn [obind].
  destruct (get_prop serverOverview "description") as [d| |]; cbn [obind]; [|discriminate..].
  destruct (get_prop serverOverview "platformRootURL") as [x1| |]; cbn [obind]; [|discriminate..].
  destruct (get_prop serverOverview "serverOrigin") as [x2| |]; cbn [obind]; [|discriminate..].
  destruct (get_prop serverOverview "serverClassification") as [x3| |]; cbn [obind]; [|discriminate..].
  destruct (get_prop serverOverview "cohortDetails") as [x4| |]; cbn [obind]; [|discriminate..].
  destruct (get_prop serverOverview "serverStatus") as [x5| |]; cbn [obind]; [|discriminate..].
  destruct (get_prop serverOverview "serverServicesList") as [x6| |]; cbn [obind]; [|discriminate..].
  destruct (get_prop serverOverview "integrationServices") as [x7| |]; cbn [obind]; [|discriminate..].
  destruct (updateGens _ rs st) as [st1| |] eqn:Hupd; cbn [obind]; [|discriminate..].
  intros [= <-]. eexists _, _, st1.
  split; [|split; [|split; [|split; [|split; [reflexivity|split; [exact Hupd|reflexivity]]]]]];
    assigned.
Qed.

(** X18: when [processRetrievedServer] completes, the focus is the server
    instance, the operation state is inactive, and [getFocusServer]
    returns the stored server, which carries the category
    "server-instance" and its GUID.  When the platform of the request was
    in the graph, the edge from the platform to the server is stored
    too, and its source and its target both exist; when it was not, no
    other index entry changes. *)
Theorem processRetrievedServer_focuses_the_server rs serverOverview st st'
    serverInstanceName platformName serverName :
  get_prop serverOverview "serverInstanceName" = Ok serverInstanceName ->
  get_prop rs "platformName" = Ok platformName ->
  get_prop serverOverview "serverName" = Ok serverName ->
  processRetrievedServer rs serverOverview st = Ok st' ->
  focus st' = mkFocus "server-instance" (genServerInstanceGUID serverInstanceName) /\
  operationState st' = inactive /\
  serverConfig st' = initial_serverConfig /\
  (exists e,
      getFocusServer st' = Ok (ReturnsEntity e) /\
      e !! "category" = Some (VStr "server-instance") /\
      e !! "guid" = Some (VStr (genServerInstanceGUID serverInstanceName))) /\
  (resourceExists st (genPlatformGUID platformName) = true ->
   exists j edge,
     guidToGenId st' !!
       genPlatformServerEdgeGUID
         (VStr (String.append (string_concat (ToString serverName) (VStr "@"))
                  (ToString platformName))) = Some j /\
     entity_at (gens st') j Relationship
       (genPlatformServerEdgeGUID
          (VStr (String.append (string_concat (ToString serverName) (VStr "@"))
                   (ToString platformName)))) = Some edge /\
     edge !! "source" = Some (VStr (genPlatformGUID platformName)) /\
     edge !! "target" = Some (VStr (genServerInstanceGUID serverInstanceName)) /\
     resourceExists st' (genPlatformGUID platformName) = true /\
     resourceExists st' (genServerInstanceGUID serverInstanceName) = true) /\
  (resourceExists st (genPlatformGUID platformName) = false ->
   forall id, id <> genServerInstanceGUID serverInstanceName ->
              guidToGenId st' !! id = guidToGenId st !! id).
Proof.
  intros Hi Hp Hn Hrun.
  destruct (processRetrievedServer_inv _ _ _ _ _ _ _ Hi Hp Hn Hrun)
    as (server & rels & st1 & Hcat & Hguid & _ & _ & Hrels & Hupd & ->).
  set (sid := genServerInstanceGUID serverInstanceName) in *.
  set (pid := genPlatformGUID platformName) in *.
  split; [reflexivity|]. split; [reflexivity|]. split; [reflexivity|].
  split; [|split].
  - destruct (updateGens_supplied_content _ _ _ _ Resource sid _ Hupd (lookup_insert_eq _ _ _))
      as (j & e & Hj & He & Hfields).
    exists e. split; [|split].
    + apply (getFocusOfCategory_found "server-instance" _ j e);
        first [done | apply genGUID_nonempty].
    + apply Hfields; [discriminate|exact Hcat].
    + apply Hfields; [discriminate|exact Hguid].
  - intros Hex. rewrite Hex in Hrels.
    set (eid := genPlatformServerEdgeGUID _) in *.
    assert (u_entities Relationship (mkUpdate (<[sid := server]> ∅) rels) !! eid
            = Some (object_of
                      [("category", VStr "platform-server-edge");
                       ("edgeName",
                        VStr (String.append (string_concat (ToString serverName) (VStr "@"))
                                (ToString platformName)));
                       ("guid", VStr eid);
                       ("serverInstanceName", serverInstanceName);
                       ("serverName", serverName);
                       ("platformName", platformName);
                       ("source", VStr pid);
                       ("target", VStr sid)])) as Hsup.
    { cbn [u_entities u_relationships]. rewrite Hrels. apply lookup_insert_eq. }
    destruct (updateGens_supplied_content _ _ _ _ Relationship eid _ Hupd Hsup)
      as (j & edge & Hj & He & Hfields).
    exists j, edge. split; [exact Hj|]. split; [exact He|].
    split; [apply Hfields; [discriminate|assigned]|].
    split; [apply Hfields; [discriminate|assigned]|].
    cbn [setOperationState setServerConfig setFocus].
    split.
    + apply (resourceExists_of_update _ _ _ _ _ Hupd). now left.
    + apply (resourceExists_of_update _ _ _ _ _ Hupd). right. left.
      cbn [u_resources]. rewrite lookup_insert_eq. by eexists.
  - intros Hex id Hne. rewrite Hex in Hrels.
    destruct (updateGens_frame _ _ _ _ Hupd) as (_ & _ & _ & _ & _ & Hkeep).
    cbn [setOperationState setServerConfig setFocus guidToGenId].
    apply Hkeep. right. intros [[x Hx]|[x Hx]].
    + cbn [u_resources] in Hx. rewrite lookup_insert_ne in Hx by done.
      by rewrite lookup_empty in Hx.
    + cbn [u_relationships] in Hx. rewrite Hrels in Hx.
      by rewrite lookup_empty in Hx.
Qed.

Lemma processRetrievedServer_focuses_the_server_witness :
  exists st',
    processRetrievedServer summary_p overview_s provider_platform = Ok st' /\
    focus st' = mkFocus "server-instance" "SERVER_INSTANCE_s" /\
    resourceExists st' "PLATFORM_TO_SERVER_cocoMDS1@p" = true.
Proof.
  destruct (processRetrievedServer summary_p overview_s provider_platform)
    as [st'| |] eqn:Hrun; [|vm_compute in Hrun; discriminate Hrun..].
  destruct (processRetrievedServer_focuses_the_server summary_p overview_s
              provider_platform st' (VStr "s") (VStr "p") (VStr "cocoMDS1")
              eq_refl eq_refl eq_refl Hrun)
    as (Hf & _ & _ & _ & Hedge & _).
  exists st'. split; [reflexivity|]. split; [exact Hf|].
  destruct Hedge as (j & edge & Hj & _); [vm_compute; reflexivity|].
  unfold resourceExists. apply bool_decide_eq_true. exists j. exact Hj.
Defined.

(** *** loadServersFromPlatformQuery *)

Lemma addListedServer_inv listedServer u u' :
  addListedServer listedServer u = Ok u' ->
  exists serverName platformName,
    get_prop listedServer "serverName" = Ok serverName /\
    get_prop listedServer "platformName" = Ok platformName /\
    ((truthy serverName && truthy platformName = false /\ u' = u) \/
     (truthy serverName = true /\ truthy platformName = true /\
      exists listedName serverInstance edge,
        get_prop listedServer "serverInstanceName" = Ok listedName /\
        edge !! "target"
        = Some (VStr (genServerInstanceGUID
                        (instance_name serverName platformName listedName))) /\
        u' = mkUpdate
               (<[genServerInstanceGUID
                    (instance_name serverName platformName listedName) :=
                    serverInstance]> (u_resources u))
               (<[genPlatformServerEdgeGUID
                    (instance_name serverName platformName listedName) :=
                    edge]> (u_relationships u)))).
Proof.
  unfold addListedServer.
  destruct (get_prop listedServer "serverName") as [n| |]; cbn [obind]; [|discriminate..].
  destruct (get_prop listedServer "platformName") as [p| |]; cbn [obind]; [|discriminate..].
  intros Hrun. exists n, p. split; [reflexivity|]. split; [reflexivity|].
  destruct (truthy n), (truthy p); cbn [negb orb andb] in *;
    try (injection Hrun as <-; left; done).
  destruct (get_prop listedServer "serverInstanceName") as [ln| |]; cbn [obind] in Hrun;
    [|discriminate Hrun..].
  destruct (get_prop listedServer "isActive") as [a| |]; cbn [obind] in Hrun;
    [|discriminate Hrun..].
  injection Hrun as <-. right. split; [done|]. split; [done|].
  eexists ln, _, _. split; [reflexivity|]. split; [|reflexivity]. assigned.
Qed.

Lemma forEach_addListedServer servers :
  forall u u',
    forEach servers addListedServer u = Ok u' ->
    edges_have_targets u ->
    edges_have_targets u' /\
    (forall id, is_Some (u_resources u !! id) -> is_Some (u_resources u' !! id)) /\
    (forall id, is_Some (u_relationships u !! id) -> is_Some (u_relationships u' !! id)) /\
    (forall listedServer serverName platformName listedName,
        In listedServer servers ->
        get_prop listedServer "serverName" = Ok serverName ->
        get_prop listedServer "platformName" = Ok platformName ->
        get_prop listedServer "serverInstanceName" = Ok listedName ->
        truthy serverName = true -> truthy platformName = true ->
        is_Some (u_resources u' !!
                   genServerInstanceGUID
                     (instance_name serverName platformName listedName)) /\
        is_Some (u_relationships u' !!
                   genPlatformServerEdgeGUID
                     (instance_name serverName platformName listedName))).
Proof.
  induction servers as [|s t IH]; intros u u' Hrun Hinv.
  - injection Hrun as <-. split; [exact Hinv|]. split; [done|]. split; [done|].
    intros ? ? ? ? [].
  - cbn [forEach] in Hrun.
    destruct (addListedServer s u) as [u1| |] eqn:Hstep; cbn [obind] in Hrun;
      try discriminate.
    destruct (addListedServer_inv _ _ _ Hstep)
      as (n & p & Hn & Hp & [[Hskip ->]|(Htn & Htp & ln & server & edge & Hln & Htarget & ->)]).
    + destruct (IH _ _ Hrun Hinv) as (Hinv' & Hres & Hrel & Hall).
      split; [exact Hinv'|]. split; [exact Hres|]. split; [exact Hrel|].
      intros s' n' p' ln' [<-|Hin] Hn' Hp' Hln' Htn' Htp'.
      * rewrite Hn in Hn'. rewrite Hp in Hp'. injection Hn' as <-. injection Hp' as <-.
        rewrite Htn', Htp' in Hskip. discriminate.
      * exact (Hall s' n' p' ln' Hin Hn' Hp' Hln' Htn' Htp').
    + set (name := instance_name n p ln) in *.
      assert (edges_have_targets
                (mkUpdate (<[genServerInstanceGUID name := server]> (u_resources u))
                   (<[genPlatformServerEdgeGUID name := edge]> (u_relationships u))))
        as Hinv1.
      { intros eid e He. cbn [u_relationships u_resources] in *.
        destruct (decide (eid = genPlatformServerEdgeGUID name)) as [->|Hne].
        - rewrite lookup_insert_eq in He. injection He as <-.
          exists name. split; [reflexivity|]. split; [exact Htarget|].
          rewrite lookup_insert_eq. by eexists.
        - rewrite lookup_insert_ne in He by done.
          destruct (Hinv eid e He) as (name' & -> & Ht & Hs).
          exists name'. split; [reflexivity|]. split; [exact Ht|].
          destruct (decide (genServerInstanceGUID name = genServerInstanceGUID name'))
            as [->|Hn'].
          + rewrite lookup_insert_eq. by eexists.
          + now rewrite lookup_insert_ne. }
      destruct (IH _ _ Hrun Hinv1) as (Hinv' & Hres & Hrel & Hall).
      split; [exact Hinv'|].
      assert (forall (mp : gmap string entity) key x id,
                 is_Some (mp !! id) -> is_Some (<[key := x]> mp !! id)) as Hgrow.
      { intros mp key x id Hs. destruct (decide (key = id)) as [->|Hne].
        - rewrite lookup_insert_eq. by eexists.
        - now rewrite lookup_insert_ne. }
      split; [|split].
      * intros id Hs. apply Hres. cbn [u_resources]. now apply Hgrow.
      * intros id Hs. apply Hrel. cbn [u_relationships]. now apply Hgrow.
      * intros s' n' p' ln' [<-|Hin] Hn' Hp' Hln' Htn' Htp'.
        -- rewrite Hn in Hn'. rewrite Hp in Hp'. rewrite Hln in Hln'.
           injection Hn' as <-. injection Hp' as <-. injection Hln' as <-.
           split; [apply Hres|apply Hrel]; cbn [u_resources u_relationships];
             rewrite lookup_insert_eq; by eexists.
        -- exact (Hall s' n' p' ln' Hin Hn' Hp' Hln' Htn' Htp').
Qed.

Lemma genPlatformServerEdgeGUID_same_server name name' :
  genPlatformServerEdgeGUID name = genPlatformServerEdgeGUID name' ->
  genServerInstanceGUID name = genServerInstanceGUID name'.
Proof.
  unfold genPlatformServerEdgeGUID, genServerInstanceGUID, string_concat.
  intros H. apply String.app_inj in H. now rewrite H.
Qed.

(** X19: [loadServersFromPlatformQuery] leaves the state as it is when
    the list is falsy.  When it completes on a list, it leaves the focus,
    the server configuration and the operation state alone, and for every
    listed server that has a server name and a platform name the graph
    holds its server instance and the edge to it, whose target is that
    server instance. *)
Theorem loadServersFromPlatformQuery_adds_listed_servers rs serverList st st' :
  loadServersFromPlatformQuery rs serverList st = Ok st' ->
  focus st' = focus st /\ serverConfig st' = serverConfig st /\
  operationState st' = operationState st /\
  (truthy serverList = false -> st' = st) /\
  (forall servers listedServer serverName platformName listedName,
      serverList = VArr servers ->
      In listedServer servers ->
      get_prop listedServer "serverName" = Ok serverName ->
      get_prop listedServer "platformName" = Ok platformName ->
      get_prop listedServer "serverInstanceName" = Ok listedName ->
      truthy serverName = true -> truthy platformName = true ->
      resourceExists st'
        (genServerInstanceGUID (instance_name serverName platformName listedName))
      = true /\
      exists j edge,
        guidToGenId st' !!
          genPlatformServerEdgeGUID (instance_name serverName platformName listedName)
        = Some j /\
        entity_at (gens st') j Relationship
          (genPlatformServerEdgeGUID (instance_name serverName platformName listedName))
        = Some edge /\
        edge !! "target"
        = Some (VStr (genServerInstanceGUID
                        (instance_name serverName platformName listedName)))).
Proof.
  unfold loadServersFromPlatformQuery.
  destruct (truthy serverList) eqn:Hlist; cbn [negb].
  2: { intros [= <-]. split; [reflexivity|]. split; [reflexivity|].
       split; [reflexivity|]. split; [reflexivity|].
       intros servers0 s n p ln ->. discriminate Hlist. }
  destruct serverList as [| | | | |servers|]; try (intros Hx; discriminate Hx).
  destruct (forEach servers addListedServer (mkUpdate ∅ ∅)) as [u| |] eqn:Hloop;
    cbn [obind]; [|discriminate..].
  intros Hrun.
  destruct (updateGens_frame _ _ _ _ Hrun) as (Hf & Hc & Ho & _).
  split; [exact Hf|]. split; [exact Hc|]. split; [exact Ho|].
  split; [discriminate|].
  intros servers' s n p ln [= <-] Hin Hn Hp Hln Htn Htp.
  destruct (forEach_addListedServer _ _ _ Hloop) as (Hinv & _ & _ & Hall).
  { intros eid e He. cbn in He. by rewrite lookup_empty in He. }
  destruct (Hall s n p ln Hin Hn Hp Hln Htn Htp) as [Hres [edge0 Hedge0]].
  split.
  - apply (resourceExists_of_update _ _ _ _ _ Hrun). right. now left.
  - destruct (updateGens_supplied_content _ _ _ _ Relationship _ _ Hrun Hedge0)
      as (j & edge & Hj & He & Hfields).
    exists j, edge. split; [exact Hj|]. split; [exact He|].
    apply Hfields; [discriminate|].
    destruct (Hinv _ _ Hedge0) as (name' & Heq & Ht & _).
    rewrite Ht. f_equal. f_equal. symmetry.
    now apply genPlatformServerEdgeGUID_same_server.
Qed.

Lemma loadServersFromPlatformQuery_adds_listed_servers_witness :
  exists st',
    loadServersFromPlatformQuery (VStr "servers of p") listed_servers provider_platform
    = Ok st' /\
    focus st' = focus provider_platform /\
    resourceExists st' "SERVER_INSTANCE_cocoMDS2@p" = true.
Proof.
  destruct (loadServersFromPlatformQuery (VStr "servers of p") listed_servers
              provider_platform) as [st'| |] eqn:Hrun;
    [|vm_compute in Hrun; discriminate Hrun..].
  destruct (loadServersFromPlatformQuery_adds_listed_servers _ _ _ _ Hrun)
    as (Hf & _ & _ & _ & Hall).
  exists st'. split; [reflexivity|]. split; [exact Hf|].
  refine (proj1 (Hall _ (VObj [("serverName", VStr "cocoMDS2"); ("platformName", VStr "p")])
                   (VStr "cocoMDS2") (VStr "p") VUndefined eq_refl _
                   eq_refl eq_refl eq_refl eq_refl eq_refl)).
  cbn. right. now left.
Defined.

End Builders.

(** * The operations and the invariants of the graph *)

Section Operations.

Implicit Types (st : provider) (id : string).

Lemma graph_invariant_processRetrievedPlatform rs platformOverview st st' :
  graph_invariant st -> processRetrievedPlatform rs platformOverview st = Ok st' ->
  graph_invariant st'.
Proof.
  intros Hinv Hrun.
  destruct platformOverview as [| | | | | |props].
  1-6: unfold processRetrievedPlatform in Hrun;
    destruct (get_prop _ "platformRootURL") as [url| |]; cbn [obind] in Hrun;
    [|discriminate Hrun..];
    destruct (truthy url); cbn [negb] in Hrun;
    [|injection Hrun as <-; exact Hinv];
    destruct (get_prop _ "platformName"); cbn [obind] in Hrun; discriminate Hrun.
  destruct (truthy (assoc "platformRootURL" props)) eqn:Hurl.
  - destruct (processRetrievedPlatform_inv _ _ _ _ Hurl Hrun) as (st1 & Hupd & ->).
    pose proof (graph_invariant_updateGens _ _ _ _ Hinv Hupd) as Hinv1.
    destruct (updateGens_supplied_stored _ _ _ _ Resource _ _ Hupd (lookup_insert_eq _ _ _))
      as (j & Hj & Hs).
    now apply (graph_invariant_focus_on_stored st1 _ _ _ _ j).
  - unfold processRetrievedPlatform in Hrun.
    rewrite !get_prop_object in Hrun by reflexivity. cbn [obind] in Hrun.
    rewrite Hurl in Hrun. injection Hrun as <-. exact Hinv.
Qed.

Lemma graph_invariant_processRetrievedServer rs serverOverview st st' :
  graph_invariant st -> processRetrievedServer rs serverOverview st = Ok st' ->
  graph_invariant st'.
Proof.
  intros Hinv Hrun.
  destruct (get_prop serverOverview "serverInstanceName") as [i| |] eqn:Hi;
    [|unfold processRetrievedServer in Hrun; rewrite Hi in Hrun; discriminate Hrun..].
  destruct (get_prop rs "platformName") as [p| |] eqn:Hp;
    [|unfold processRetrievedServer in Hrun; rewrite Hi in Hrun; cbn [obind] in Hrun;
      rewrite Hp in Hrun; discriminate Hrun..].
  destruct (get_prop serverOverview "serverName") as [n| |] eqn:Hn;
    [|unfold processRetrievedServer in Hrun; rewrite Hi in Hrun; cbn [obind] in Hrun;
      rewrite Hp in Hrun; cbn [obind] in Hrun; rewrite Hn in Hrun; discriminate Hrun..].
  destruct (processRetrievedServer_inv _ _ _ _ _ _ _ Hi Hp Hn Hrun)
    as (server & rels & st1 & _ & _ & _ & _ & _ & Hupd & ->).
  pose proof (graph_invariant_updateGens _ _ _ _ Hinv Hupd) as Hinv1.
  destruct (updateGens_supplied_stored _ _ _ _ Resource _ _ Hupd (lookup_insert_eq _ _ _))
    as (j & Hj & Hs).
  now apply (graph_invariant_focus_on_stored st1 _ _ _ _ j).
Qed.

Lemma graph_invariant_loadServersFromPlatformQuery rs serverList st st' :
  graph_invariant st -> loadServersFromPlatformQuery rs serverList st = Ok st' ->
  graph_invariant st'.
Proof.
  intros Hinv. unfold loadServersFromPlatformQuery.
  destruct (truthy serverList); cbn [negb]; [|intros [= <-]; exact Hinv].
  destruct serverList as [| | | | |servers|]; try (intros Hx; discriminate Hx).
  destruct (forEach servers addListedServer (mkUpdate ∅ ∅)) as [u| |];
    cbn [obind]; [|discriminate..].
  intros Hrun. exact (graph_invariant_updateGens _ _ _ _ Hinv Hrun).
Qed.

Lemma callback_cases (json : value) (label : string) (st : provider)
    (process : value -> value -> provider -> outcome provider) (field1 field2 : string)
    st' (reports : list failure_report) :
  (let failed := Ok (st, [(label, json)]) in
   if truthy json then
     code <- get_prop json "relatedHTTPCode" ;;;
     if strict_eq code (VNum 200) then
       rs <- get_prop json field1 ;;;
       payload <- get_prop json field2 ;;;
       if truthy rs && truthy payload then
         st1 <- process rs payload st ;;; Ok (st1, [])
       else failed
     else failed
   else failed) = Ok (st', reports) ->
  (st' = st /\ reports = [(label, json)]) \/
  (reports = [] /\ exists rs payload, process rs payload st = Ok st').
Proof.
  cbn zeta.
  destruct (truthy json); [|intros [= <- <-]; now left].
  destruct (get_prop json "relatedHTTPCode") as [code| |]; cbn [obind]; [|discriminate..].
  destruct (strict_eq code (VNum 200)); [|intros [= <- <-]; now left].
  destruct (get_prop json field1) as [rs| |]; cbn [obind]; [|discriminate..].
  destruct (get_prop json field2) as [payload| |]; cbn [obind]; [|discriminate..].
  destruct (truthy rs && truthy payload); [|intros [= <- <-]; now left].
  destruct (process rs payload st) as [st1| |] eqn:Hp; cbn [obind]; [|discriminate..].
  intros [= <- <-]. right. split; [reflexivity|]. eauto.
Qed.

(** X20: every operation that puts a response into the state keeps the
    invariants of the graph (a consistent and complete index, a valid
    focus): [processRetrievedPlatform] and its callback [_loadPlatform],
    [processRetrievedServer] and its callback [_loadServer],
    [loadServersFromPlatformQuery], and [_loadServerConfiguration]. *)
Theorem operations_keep_graph_invariant st :
  graph_invariant st ->
  (forall rs platformOverview st',
      processRetrievedPlatform rs platformOverview st = Ok st' -> graph_invariant st') /\
  (forall json st' reports,
      _loadPlatform json st = Ok (st', reports) -> graph_invariant st') /\
  (forall rs serverOverview st',
      processRetrievedServer rs serverOverview st = Ok st' -> graph_invariant st') /\
  (forall json st' reports,
      _loadServer json st = Ok (st', reports) -> graph_invariant st') /\
  (forall rs serverList st',
      loadServersFromPlatformQuery rs serverList st = Ok st' -> graph_invariant st') /\
  (forall json st' reports,
      _loadServerConfiguration json st = Ok (st', reports) -> graph_invariant st').
Proof.
  intros Hinv. split; [|split; [|split; [|split; [|split]]]].
  - intros rs po st'. now apply graph_invariant_processRetrievedPlatform.
  - intros json st' reports Hrun.
    apply (callback_cases json "load platform" st processRetrievedPlatform
             "requestSummary" "platformOverview") in Hrun
      as [[-> _]|(_ & rs & po & Hp)]; [exact Hinv|].
    exact (graph_invariant_processRetrievedPlatform _ _ _ _ Hinv Hp).
  - intros rs so st'. now apply graph_invariant_processRetrievedServer.
  - intros json st' reports Hrun.
    apply (callback_cases json "load server" st processRetrievedServer
             "requestSummary" "serverOverview") in Hrun
      as [[-> _]|(_ & rs & so & Hp)]; [exact Hinv|].
    exact (graph_invariant_processRetrievedServer _ _ _ _ Hinv Hp).
  - intros rs l st'. now apply graph_invariant_loadServersFromPlatformQuery.
  - intros json st' reports Hrun.
    destruct (loadServerConfiguration_frame _ _ _ _ Hrun) as (Hf & _ & Hg & Hm & _).
    exact (graph_invariant_same_graph _ _ Hf Hg Hm Hinv).
Qed.

Lemma operations_keep_graph_invariant_witness :
  exists st',
    processRetrievedServer summary_p overview_s provider_platform = Ok st' /\
    graph_invariant st'.
Proof.
  destruct (processRetrievedServer summary_p overview_s provider_platform)
    as [st'| |] eqn:Hrun; [|vm_compute in Hrun; discriminate Hrun..].
  exists st'. split; [reflexivity|].
  destruct (operations_keep_graph_invariant provider_platform graph_invariant_platform)
    as (_ & _ & Hserver & _).
  exact (Hserver _ _ _ Hrun).
Defined.

End Operations.

Section FocusExtras.

Context {effect : Type}.
Variable loadPlatform : value -> outcome (list effect).
Variable loadServerFromGen : provider -> entity -> outcome (list effect).
Variable loadServiceFromGen : provider -> entity -> outcome (list effect).

(** X21: a completed [changeFocusResource] leaves the generations, the
    index and the server configuration as they were, so it keeps the
    invariants of the graph; for a GUID the index does not know it changes
    nothing at all and calls no loader. *)
Theorem changeFocusResource_leaves_the_graph id st st' eff :
  changeFocusResource loadPlatform loadServerFromGen loadServiceFromGen id st
  = Ok (st', eff) ->
  gens st' = gens st /\ guidToGenId st' = guidToGenId st /\
  serverConfig st' = serverConfig st /\
  (guidToGenId st !! id = None -> st' = st /\ eff = []) /\
  (graph_invariant st -> graph_invariant st').
Proof.
  intros Hrun.
  pose proof (changeFocusResource_keeps_focus _ _ _ _ _ _ _ Hrun) as Hf.
  assert (gens st' = gens st /\ guidToGenId st' = guidToGenId st /\
          serverConfig st' = serverConfig st /\
          (guidToGenId st !! id = None -> st' = st /\ eff = [])) as (Hg & Hm & Hc & Hno).
  { revert Hrun. unfold changeFocusResource. rewrite focus_has_no_instanceGUID.
    cbn [strict_eq].
    destruct (guidToGenId st !! id) as [genId|]; [|by intros [= <- <-]].
    destruct (lookup_gen (gens st) genId) as [g|]; [|discriminate].
    destruct (resources g !! id) as [resource|]; [|discriminate].
    destruct (strict_eq _ _).
    { destruct (loadPlatform _); cbn [obind]; [|discriminate..].
      by intros [= <- <-]. }
    destruct (strict_eq _ _).
    { destruct (loadServerFromGen _ _); cbn [obind]; [|discriminate..].
      by intros [= <- <-]. }
    destruct (strict_eq _ _).
    { destruct (loadServiceFromGen _ _); cbn [obind]; [|discriminate..].
      by intros [= <- <-]. }
    by intros [= <- <-]. }
  split; [exact Hg|]. split; [exact Hm|]. split; [exact Hc|]. split; [exact Hno|].
  now apply graph_invariant_same_graph.
Qed.

End FocusExtras.

Lemma changeFocusResource_leaves_the_graph_witness :
  changeFocusResource (effect := unit) (fun _ => Ok []) (fun _ _ => Ok []) (fun _ _ => Ok [])
    "SERVER_INSTANCE_t" provider_platform = Ok (provider_platform, []) /\
  gens provider_platform = gens provider_platform.
Proof.
  split; [reflexivity|].
  apply (changeFocusResource_leaves_the_graph (effect := unit)
           (fun _ => Ok []) (fun _ _ => Ok []) (fun _ _ => Ok [])
           "SERVER_INSTANCE_t" provider_platform provider_platform []).
  reflexivity.
Defined.

(** * GUIDs, failure of updateGens, and cohorts *)

Section Guids.

Implicit Types (st : provider) (u : update).

Lemma string_concat_inj (prefix : string) (a b : value) :
  string_concat prefix a = string_concat prefix b <-> ToString a = ToString b.
Proof.
  unfold string_concat. split; [apply String.app_inj|]. now intros ->.
Qed.

(** X22: each of the six GUID generators gives two names the same GUID
    only when they are the same text, and the GUIDs of the four categories
    of resource
    (platform, server instance, service instance, cohort) never coincide.
    The GUID of a resource can coincide with that of a relationship: the
    platform named [TO_SERVER_] followed by [x] has the GUID of the edge
    named [x]. *)
Theorem guids_identify_resources (a b : value) :
  (genPlatformGUID a = genPlatformGUID b <-> ToString a = ToString b) /\
  (genServerInstanceGUID a = genServerInstanceGUID b <-> ToString a = ToString b) /\
  (genServiceInstanceGUID a = genServiceInstanceGUID b <-> ToString a = ToString b) /\
  (genCohortGUID a = genCohortGUID b <-> ToString a = ToString b) /\
  (genPlatformServerEdgeGUID a = genPlatformServerEdgeGUID b
   <-> ToString a = ToString b) /\
  (genServerCohortGUID a = genServerCohortGUID b <-> ToString a = ToString b) /\
  genPlatformGUID a <> genServerInstanceGUID b /\
  genPlatformGUID a <> genServiceInstanceGUID b /\
  genPlatformGUID a <> genCohortGUID b /\
  genServerInstanceGUID a <> genServiceInstanceGUID b /\
  genServerInstanceGUID a <> genCohortGUID b /\
  genServiceInstanceGUID a <> genCohortGUID b /\
  genPlatformGUID (VStr (String.append "TO_SERVER_" (ToString a)))
  = genPlatformServerEdgeGUID a.
Proof.
  unfold genPlatformGUID, genServerInstanceGUID, genServiceInstanceGUID, genCohortGUID,
    genPlatformServerEdgeGUID, genServerCohortGUID.
  repeat (split; [apply string_concat_inj|]).
  unfold string_concat.
  repeat (split; [rewrite !append_cons; intros H; discriminate H|]).
  cbn [ToString]. now rewrite <- !append_assoc.
Qed.

(** The loops of [updateGens] read no property of a JSON value: they
    return or throw. *)
Lemma forEach_processKey_returns k idx n l ms why :
  forEach l (processKey k idx n) ms <> Stops why.
Proof.
  apply forEach_returns. intros [id upd] ms' why'. unfold processKey.
  destruct (idx !! id); [|discriminate].
  destruct (lookup_gen _ _); [|discriminate].
  destruct (entities k _ !! id); discriminate.
Qed.

(** X23: [updateGens] throws exactly when the update does not fit the
    state, that is, when it supplies as a resource (a relationship) an
    identifier the index knows, but the generation the index names does
    not hold it as a resource (a relationship); otherwise it completes. *)
Theorem updateGens_throws_iff_unfit u rs st :
  (updateGens u rs st = TypeError <-> ~ applicable st u) /\
  ((exists st', updateGens u rs st = Ok st') <-> applicable st u).
Proof.
  split; [|apply updateGens_completes_iff].
  split.
  - intros Hthrow Happ. apply (updateGens_completes_iff u rs st) in Happ as [st' Hrun].
    congruence.
  - intros Hno. destruct (updateGens u rs st) as [st'| |] eqn:Hrun; [|reflexivity|].
    + exfalso. apply Hno. apply (updateGens_completes_iff u rs st). eauto.
    + exfalso. revert Hrun. unfold updateGens.
      destruct (forEach (map_to_list (u_resources u)) _ _) as [ms1| |] eqn:H1;
        cbn [obind]; [|discriminate|].
      * destruct (forEach (map_to_list (u_relationships u)) _ _) as [ms2| |] eqn:H2;
          cbn [obind]; [discriminate|discriminate|].
        intros _. now apply forEach_processKey_returns in H2.
      * intros _. now apply forEach_processKey_returns in H1.
Qed.

(** An update that supplies as a relationship the identifier the graph
    holds as a platform. *)
Lemma unfit_update_does_not_fit :
  ~ applicable provider_platform (mkUpdate ∅ (<["PLATFORM_p" := edge_ps]> ∅)).
Proof.
  intros Happ.
  destruct (Happ Relationship "PLATFORM_p" edge_ps 1) as [e He].
  - apply lookup_insert_eq.
  - apply lookup_insert_eq.
  - unfold entity_at in He. cbn in He. by rewrite lookup_empty in He.
Qed.

Lemma updateGens_throws_iff_unfit_witness :
  updateGens (mkUpdate ∅ (<["PLATFORM_p" := edge_ps]> ∅)) VNull provider_platform
  = TypeError.
Proof.
  apply (updateGens_throws_iff_unfit (mkUpdate ∅ (<["PLATFORM_p" := edge_ps]> ∅))
           VNull provider_platform).
  exact unfit_update_does_not_fit.
Defined.

(** *** An identifier known under the other kind *)

(** The platform named [TO_SERVER_s] is loaded into the empty graph; a
    query of that platform then lists a server under the instance name
    [s].  The edge to that server gets the identifier of the platform. *)
Lemma platform_q_then_servers :
  processRetrievedPlatform summary_q (VObj overview_q) initial_provider = Ok provider_q /\
  forEach listed_on_q addListedServer (mkUpdate ∅ ∅) = Ok update_on_q /\
  genPlatformServerEdgeGUID (VStr "s") = genPlatformGUID (VStr "TO_SERVER_s").
Proof. split; [|split]; vm_compute; reflexivity. Qed.

(** C1 (the code departs from the specification): in the state that
    holds the platform [TO_SERVER_s], the update built from the servers
    of that platform supplies one identifier the index does not know
    ([SERVER_INSTANCE_s]) and, as a relationship, the identifier
    [PLATFORM_TO_SERVER_s] that the index knows as a resource.
    [updateGens] throws on it, and so does [loadServersFromPlatformQuery]:
    no generation is appended and the new identifier is placed nowhere. *)
Theorem updateGens_unfit_update_appends_nothing :
  fresh provider_q update_on_q Resource "SERVER_INSTANCE_s" /\
  guidToGenId provider_q !! "PLATFORM_TO_SERVER_s" = Some 1 /\
  is_Some (u_relationships update_on_q !! "PLATFORM_TO_SERVER_s") /\
  updateGens update_on_q summary_q provider_q = TypeError /\
  loadServersFromPlatformQuery summary_q (VArr listed_on_q) provider_q = TypeError.
Proof.
  split; [split; [by eexists|reflexivity]|].
  split; [reflexivity|]. split; [by eexists|].
  split; vm_compute; reflexivity.
Qed.

(** C5 (the code departs from the specification): the index knows the
    identifier [PLATFORM_TO_SERVER_s], which generation 1 holds as a
    resource and not as a relationship.  The next update supplies it as a
    relationship: [updateGens] looks for the entity to merge into among
    the relationships of generation 1, finds [undefined] and throws; the
    supplied fields are merged into no entity. *)
Theorem updateGens_known_identifier_not_merged :
  guidToGenId provider_q !! "PLATFORM_TO_SERVER_s" = Some 1 /\
  entity_at (gens provider_q) 1 Resource "PLATFORM_TO_SERVER_s" = Some stored_platform_q /\
  entity_at (gens provider_q) 1 Relationship "PLATFORM_TO_SERVER_s" = None /\
  is_Some (u_entities Relationship update_on_q !! "PLATFORM_TO_SERVER_s") /\
  ~ applicable provider_q update_on_q /\
  updateGens update_on_q summary_q provider_q = TypeError.
Proof.
  split; [reflexivity|]. split; [reflexivity|]. split; [reflexivity|].
  split; [by eexists|].
  assert (updateGens update_on_q summary_q provider_q = TypeError) as Hthrow
    by (vm_compute; reflexivity).
  split; [|exact Hthrow].
  intros Happ. apply (updateGens_completes_iff update_on_q summary_q provider_q) in Happ
    as [st' Hrun]. congruence.
Qed.

(** *** loadCohort *)

(** X24: [loadCohort] raises one alert and leaves the state as it is when
    the index does not know the server.  When the index knows it and the
    call completes, no alert is raised, the focus, the server configuration
    and the operation state are as before, the invariants of the graph
    are kept, and the graph holds the cohort and the edge from the server
    to the cohort, whose source and target both exist. *)
Theorem loadCohort_adds_cohort_and_edge serverName cohortName configured st :
  (guidToGenId st !! genServerInstanceGUID (VStr serverName) = None ->
   exists message, loadCohort serverName cohortName configured st = Ok (st, [message])) /\
  (forall st' alerts,
      is_Some (guidToGenId st !! genServerInstanceGUID (VStr serverName)) ->
      loadCohort serverName cohortName configured st = Ok (st', alerts) ->
      alerts = [] /\
      focus st' = focus st /\ serverConfig st' = serverConfig st /\
      operationState st' = operationState st /\
      (graph_invariant st -> graph_invariant st') /\
      resourceExists st' (genServerInstanceGUID (VStr serverName)) = true /\
      resourceExists st' (genCohortGUID (VStr cohortName)) = true /\
      exists j edge,
        guidToGenId st' !!
          genServerCohortGUID
            (VStr (String.append (String.append serverName "@") cohortName)) = Some j /\
        entity_at (gens st') j Relationship
          (genServerCohortGUID
             (VStr (String.append (String.append serverName "@") cohortName)))
        = Some edge /\
        edge !! "source" = Some (VStr (genServerInstanceGUID (VStr serverName))) /\
        edge !! "target" = Some (VStr (genCohortGUID (VStr cohortName)))).
Proof.
  split.
  - intros Hnone. unfold loadCohort. rewrite Hnone. by eexists.
  - intros st' alerts [j0 Hknown]. unfold loadCohort. rewrite Hknown.
    destruct (lookup_gen (gens st) j0) as [serverGen|]; [|discriminate].
    destruct (resources serverGen !! _) as [server|]; [|discriminate].
    destruct (get_prop (field server "cohortDetails") cohortName) as [cd| |];
      cbn [obind]; [|discriminate..].
    destruct (get_prop cd "cohortDescription") as [cdesc| |]; cbn [obind]; [|discriminate..].
    destruct (get_prop cdesc "connectionStatus") as [status| |]; cbn [obind];
      [|discriminate..].
    destruct (updateGens _ _ st) as [st1| |] eqn:Hupd; cbn [obind]; [|discriminate..].
    intros [= <- <-].
    destruct (updateGens_frame _ _ _ _ Hupd) as (Hf & Hc & Ho & _).
    split; [reflexivity|]. split; [exact Hf|]. split; [exact Hc|]. split; [exact Ho|].
    split; [intros Hinv; exact (graph_invariant_updateGens _ _ _ _ Hinv Hupd)|].
    split.
    { apply (resourceExists_of_update _ _ _ _ _ Hupd). left.
      unfold resourceExists. apply bool_decide_eq_true. rewrite Hknown. by eexists. }
    split.
    { apply (resourceExists_of_update _ _ _ _ _ Hupd). right. left.
      cbn [u_resources]. rewrite lookup_insert_eq. by eexists. }
    destruct (updateGens_supplied_content _ _ _ _ Relationship _ _ Hupd
                (lookup_insert_eq _ _ _)) as (j & edge & Hj & He & Hfields).
    exists j, edge. split; [exact Hj|]. split; [exact He|].
    split; (apply Hfields; [discriminate|rewrite lookup_object_of; reflexivity]).
Qed.

Lemma loadCohort_adds_cohort_and_edge_witness :
  exists st',
    loadCohort "s" "c1" false provider_server = Ok (st', []) /\
    resourceExists st' "COHORT_c1" = true /\
    focus st' = focus provider_server.
Proof.
  destruct (loadCohort "s" "c1" false provider_server) as [[st' alerts]| |] eqn:Hrun;
    [|vm_compute in Hrun; discriminate Hrun..].
  destruct (loadCohort_adds_cohort_and_edge "s" "c1" false provider_server) as [_ H].
  destruct (H st' alerts) as (-> & Hf & _ & _ & _ & _ & Hcohort & _);
    [|exact Hrun|].
  - cbn. rewrite lookup_insert_eq. by eexists.
  - exists st'. split; [reflexivity|]. split; [exact Hcohort|exact Hf].
Defined.

(** *** The callbacks of getActiveServers and getKnownServers *)

Lemma updateGens_empty rs st : updateGens (mkUpdate ∅ ∅) rs st = Ok st.
Proof.
  unfold updateGens. cbn [u_resources u_relationships].
  rewrite map_to_list_empty. cbn. by destruct st.
Qed.

Lemma loadServersFromPlatformQuery_frame rs serverList st st' :
  loadServersFromPlatformQuery rs serverList st = Ok st' ->
  focus st' = focus st /\ serverConfig st' = serverConfig st /\
  operationState st' = operationState st.
Proof.
  unfold loadServersFromPlatformQuery.
  destruct (truthy serverList); cbn [negb]; [|intros [= <-]; done].
  destruct serverList as [| | | | |servers|]; try (intros Hx; discriminate Hx).
  destruct (forEach servers addListedServer _) as [u| |]; cbn [obind];
    [|intros Hx; discriminate Hx..].
  intros Hrun. destruct (updateGens_frame _ _ _ _ Hrun) as (Hf & Hc & Ho & _). done.
Qed.

(** X25: a completed callback [_getActiveServers] or [_getKnownServers]
    leaves the focus, the server configuration and the operation state
    alone and keeps the invariants of the graph, and it does one of three
    things: it reports one failure, carrying the response, and leaves the
    state as it was; or it raises one alert and leaves the state as it
    was; or it tells the user nothing and leaves the state that
    [loadServersFromPlatformQuery] makes of the request summary and the
    server list of the response.  A response with code 200, a request
    summary and an empty server list is of the third sort: the list is
    not falsy, no alert is raised and the state stays as it was. *)
Theorem servers_callbacks_report_alert_or_load callback label message json st :
  In (callback, label, message)
     [(_getActiveServers, "get active servers",
       "Operation succeeded but found no active servers for platform");
      (_getKnownServers, "get known servers",
       "Operation succeeded but found no known servers for platform")] ->
  (forall st' notices,
      callback json st = Ok (st', notices) ->
      focus st' = focus st /\ serverConfig st' = serverConfig st /\
      operationState st' = operationState st /\
      (graph_invariant st -> graph_invariant st') /\
      ((notices = [FailedOperation label json] /\ st' = st) \/
       (notices = [Alert message] /\ st' = st /\
        get_prop json "relatedHTTPCode" = Ok (VNum 200)) \/
       (notices = [] /\
        get_prop json "relatedHTTPCode" = Ok (VNum 200) /\
        exists requestSummary serverList,
          get_prop json "requestSummary" = Ok requestSummary /\
          get_prop json "serverList" = Ok serverList /\
          loadServersFromPlatformQuery requestSummary serverList st = Ok st'))) /\
  (forall requestSummary,
      get_prop json "relatedHTTPCode" = Ok (VNum 200) ->
      get_prop json "requestSummary" = Ok requestSummary ->
      truthy requestSummary = true ->
      get_prop json "serverList" = Ok (VArr []) ->
      callback json st = Ok (st, [])).
Proof.
  intros Hin.
  assert (callback = serversCallback label message) as ->.
  { destruct Hin as [[= <- <- <-]|[[= <- <- <-]|[]]]; reflexivity. }
  clear Hin. split.
  - intros st' notices. unfold serversCallback.
    destruct (truthy json); [|intros [= <- <-]; repeat (split; [done|]); by left].
    destruct (get_prop json "relatedHTTPCode") as [code| |] eqn:Hcode; cbn [obind];
      [|discriminate..].
    destruct (strict_eq code (VNum 200)) eqn:Heq;
      [|intros [= <- <-]; repeat (split; [done|]); by left].
    assert (code = VNum 200) as ->.
    { destruct code as [| |b|z|s|l|ps]; cbn in Heq; try discriminate Heq.
      apply Z.eqb_eq in Heq. by subst. }
    destruct (get_prop json "requestSummary") as [rs| |]; cbn [obind]; [|discriminate..].
    destruct (get_prop json "serverList") as [serverList| |]; cbn [obind];
      [|discriminate..].
    destruct (truthy rs && truthy serverList).
    + destruct (loadServersFromPlatformQuery rs serverList st) as [st1| |] eqn:Hload;
        cbn [obind]; [|discriminate..].
      intros [= <- <-].
      destruct (loadServersFromPlatformQuery_frame _ _ _ _ Hload) as (Hf & Hc & Ho).
      split; [exact Hf|]. split; [exact Hc|]. split; [exact Ho|].
      split; [intros Hinv; exact (graph_invariant_loadServersFromPlatformQuery
                                    _ _ _ _ Hinv Hload)|].
      right. right. split; [reflexivity|]. split; [reflexivity|]. eauto.
    + intros [= <- <-]. repeat (split; [done|]). right. left. done.
  - intros rs Hcode Hrs Htruthy Hlist. unfold serversCallback.
    assert (truthy json = true) as ->.
    { destruct json as [| |b|z|s|l|ps]; cbn in Hcode; try discriminate Hcode;
        try reflexivity.
      destruct (index_of_key _ _); [destruct (String.get _ _)|]; discriminate Hcode. }
    rewrite Hcode. cbn [obind strict_eq]. rewrite Z.eqb_refl.
    rewrite Hrs, Hlist. cbn [obind]. rewrite Htruthy. cbn [truthy andb].
    unfold loadServersFromPlatformQuery. cbn [truthy negb forEach obind].
    by rewrite updateGens_empty.
Qed.

Lemma servers_callbacks_report_alert_or_load_witness :
  _getKnownServers response_no_servers provider_platform = Ok (provider_platform, []).
Proof.
  destruct (servers_callbacks_report_alert_or_load _getKnownServers
              "get known servers"
              "Operation succeeded but found no known servers for platform"
              response_no_servers provider_platform) as [_ H].
  - right. left. reflexivity.
  - apply (H (VObj [("platformName", VStr "p")])); reflexivity.
Defined.

End Guids.

(** * Following a link *)

Section SelectTarget.

Implicit Types (st : provider) (u : update).

Lemma gen_of_guid_stored st id j k e :
  guidToGenId st !! ToString id = Some j ->
  entity_at (gens st) j k (ToString id) = Some e ->
  exists g, gen_of_guid st id = Ok g /\ entities k g !! ToString id = Some e.
Proof.
  intros Hj He. unfold gen_of_guid. rewrite Hj. unfold entity_at in He.
  destruct (lookup_gen (gens st) j) as [g|]; [|discriminate]. eauto.
Qed.

Lemma gen_of_guid_inv st id g :
  gen_of_guid st id = Ok g ->
  exists j, guidToGenId st !! ToString id = Some j /\ lookup_gen (gens st) j = Some g.
Proof.
  unfold gen_of_guid. destruct (guidToGenId st !! ToString id) as [j|]; [|discriminate].
  destruct (lookup_gen (gens st) j) as [g'|] eqn:Hg; [|discriminate].
  intros [= <-]. eauto.
Qed.

(** What [selectTargetResource] does with a stored link whose ends are
    stored resources. *)
Lemma selectTargetResource_stored id st j edge js src jt tgt :
  guidToGenId st !! id = Some j ->
  entity_at (gens st) j Relationship id = Some edge ->
  guidToGenId st !! ToString (field edge "source") = Some js ->
  entity_at (gens st) js Resource (ToString (field edge "source")) = Some src ->
  guidToGenId st !! ToString (field edge "target") = Some jt ->
  entity_at (gens st) jt Resource (ToString (field edge "target")) = Some tgt ->
  selectTargetResource id st =
  Ok (if strict_eq (field src "category") (VStr "platform")
         && strict_eq (field tgt "category") (VStr "server-instance")
      then (setOperationState (mkOperationState "loading" (field tgt "serverName")) st,
            loadServer (field tgt "serverInstanceName") (field tgt "serverName")
              (field src "platformName"))
      else (st, [Alert not_a_platform_server_link])).
Proof.
  intros Hj He Hjs Hs Hjt Ht. unfold selectTargetResource.
  destruct (gen_of_guid_stored st (VStr id) j Relationship edge Hj He) as (g & -> & Hg).
  cbn [obind entities ToString] in *. rewrite Hg.
  destruct (gen_of_guid_stored st _ js Resource src Hjs Hs) as (gs & -> & Hgs).
  destruct (gen_of_guid_stored st _ jt Resource tgt Hjt Ht) as (gt & -> & Hgt).
  cbn [obind entities] in *. rewrite Hgs, Hgt.
  destruct (strict_eq (field src "category") (VStr "platform")); [|reflexivity].
  destruct (strict_eq (field tgt "category") (VStr "server-instance")); reflexivity.
Qed.

(** X26: [selectTargetResource] throws for a GUID the index does not
    know.  When it completes it leaves the generations, the index, the
    focus and the server configuration as they were, so it keeps the
    invariants of the graph, and it does one of two things: it raises the
    alert that the link is no platform-server link and leaves the state as
    it was; or the link is stored, its source is a stored resource of
    category "platform" and its target one of category "server-instance",
    the operation state becomes "loading" under the server name of the
    target, and one request for that server is posted. *)
Theorem selectTargetResource_alerts_or_requests id st :
  (guidToGenId st !! id = None -> selectTargetResource id st = TypeError) /\
  (forall st' out,
      selectTargetResource id st = Ok (st', out) ->
      gens st' = gens st /\ guidToGenId st' = guidToGenId st /\
      focus st' = focus st /\ serverConfig st' = serverConfig st /\
      (graph_invariant st -> graph_invariant st') /\
      ((st' = st /\ out = [Alert not_a_platform_server_link]) \/
       exists j edge js src jt tgt,
         guidToGenId st !! id = Some j /\
         entity_at (gens st) j Relationship id = Some edge /\
         guidToGenId st !! ToString (field edge "source") = Some js /\
         entity_at (gens st) js Resource (ToString (field edge "source")) = Some src /\
         guidToGenId st !! ToString (field edge "target") = Some jt /\
         entity_at (gens st) jt Resource (ToString (field edge "target")) = Some tgt /\
         field src "category" = VStr "platform" /\
         field tgt "category" = VStr "server-instance" /\
         st' = setOperationState (mkOperationState "loading" (field tgt "serverName")) st /\
         out = [CallPOST "server-instance" (field tgt "serverName")
                  (string_concat "server/" (field tgt "serverName"))
                  (VObj [("serverInstanceName", field tgt "serverInstanceName");
                         ("serverName", field tgt "serverName");
                         ("platformName", field src "platformName")])
                  "_loadServer"])).
Proof.
  split.
  - intros Hnone. unfold selectTargetResource, gen_of_guid. cbn [ToString].
    by rewrite Hnone.
  - intros st' out. unfold selectTargetResource.
    destruct (gen_of_guid st (VStr id)) as [g| |] eqn:Hg; cbn [obind]; [|discriminate..].
    destruct (relationships g !! id) as [edge|] eqn:Hedge; [|discriminate].
    destruct (gen_of_guid st (field edge "source")) as [gs| |] eqn:Hgs; cbn [obind];
      [|discriminate..].
    destruct (gen_of_guid st (field edge "target")) as [gt| |] eqn:Hgt; cbn [obind];
      [|discriminate..].
    destruct (resources gs !! _) as [src|] eqn:Hsrc; [|discriminate].
    destruct (strict_eq (field src "category") (VStr "platform")) eqn:Hcs;
      [|intros [= <- <-]; repeat (split; [done|]); by left].
    destruct (resources gt !! _) as [tgt|] eqn:Htgt; [|discriminate].
    destruct (strict_eq (field tgt "category") (VStr "server-instance")) eqn:Hct;
      [|intros [= <- <-]; repeat (split; [done|]); by left].
    intros [= <- <-]. do 4 (split; [reflexivity|]).
    split; [by apply graph_invariant_same_graph|].
    right.
    apply gen_of_guid_inv in Hg as (j & Hj & Hlg).
    apply gen_of_guid_inv in Hgs as (js & Hjs & Hlgs).
    apply gen_of_guid_inv in Hgt as (jt & Hjt & Hlgt).
    cbn [ToString] in Hj.
    exists j, edge, js, src, jt, tgt. unfold entity_at.
    rewrite Hlg, Hlgs, Hlgt. cbn [entities].
    repeat (split; [done|]).
    split; [|split; [|done]].
    + destruct (field src "category"); cbn in Hcs; try discriminate Hcs.
      apply String.eqb_eq in Hcs. by subst.
    + destruct (field tgt "category"); cbn in Hct; try discriminate Hct.
      apply String.eqb_eq in Hct. by subst.
Qed.

Lemma selectTargetResource_alerts_or_requests_witness :
  selectTargetResource "PLATFORM_TO_SERVER_nowhere" provider_platform = TypeError.
Proof.
  apply (selectTargetResource_alerts_or_requests "PLATFORM_TO_SERVER_nowhere"
           provider_platform).
  reflexivity.
Defined.

Lemma genServerInstanceGUID_not_cohort (a b : value) :
  genServerInstanceGUID a <> genCohortGUID b.
Proof.
  unfold genServerInstanceGUID, genCohortGUID, string_concat.
  rewrite !append_cons. intros H. discriminate H.
Qed.

Lemma genPlatformGUID_not_server (a b : value) :
  genPlatformGUID a <> genServerInstanceGUID b.
Proof.
  unfold genServerInstanceGUID, genPlatformGUID, string_concat.
  rewrite !append_cons. intros H. discriminate H.
Qed.

Lemma field_lookup (e : entity) (f : string) (v : value) :
  e !! f = Some v -> field e f = v.
Proof. unfold field. by intros ->. Qed.

(** X27: the link [loadCohort] makes from a server to a cohort cannot be
    followed: when the stored server is not of category "platform",
    selecting the link raises the alert that it is no platform-server
    link and leaves the state as [loadCohort] left it. *)
Theorem cohort_link_is_not_selectable serverName cohortName configured st st' alerts
    j server :
  guidToGenId st !! genServerInstanceGUID (VStr serverName) = Some j ->
  entity_at (gens st) j Resource (genServerInstanceGUID (VStr serverName)) = Some server ->
  strict_eq (field server "category") (VStr "platform") = false ->
  loadCohort serverName cohortName configured st = Ok (st', alerts) ->
  selectTargetResource
    (genServerCohortGUID (VStr (String.append (String.append serverName "@") cohortName)))
    st'
  = Ok (st', [Alert not_a_platform_server_link]).
Proof.
  intros Hj Hserver Hcat. unfold loadCohort. rewrite Hj.
  destruct (lookup_gen (gens st) j) as [serverGen|] eqn:Hgen; [|discriminate].
  destruct (resources serverGen !! _) as [server'|]; [|discriminate].
  destruct (get_prop (field server' "cohortDetails") cohortName) as [cd| |];
    cbn [obind]; [|discriminate..].
  destruct (get_prop cd "cohortDescription") as [cdesc| |]; cbn [obind]; [|discriminate..].
  destruct (get_prop cdesc "connectionStatus") as [status| |]; cbn [obind];
    [|discriminate..].
  destruct (updateGens _ _ st) as [st1| |] eqn:Hupd; cbn [obind]; [|discriminate..].
  intros [= <- <-].
  destruct (updateGens_frame _ _ _ _ Hupd) as (_ & _ & _ & Hent & _ & Hkeep).
  destruct (updateGens_supplied_content _ _ _ _ Relationship _ _ Hupd
              (lookup_insert_eq _ _ _)) as (je & edge & Hje & Hedge & Hfields).
  destruct (updateGens_supplied_content _ _ _ _ Resource _ _ Hupd
              (lookup_insert_eq _ _ _)) as (jc & cohort & Hjc & Hcohort & _).
  assert (field edge "source" = VStr (genServerInstanceGUID (VStr serverName))) as Hsrc.
  { apply field_lookup, Hfields; [discriminate|]. rewrite lookup_object_of. reflexivity. }
  assert (field edge "target" = VStr (genCohortGUID (VStr cohortName))) as Htgt.
  { apply field_lookup, Hfields; [discriminate|]. rewrite lookup_object_of. reflexivity. }
  rewrite (selectTargetResource_stored _ st1 je edge j server jc cohort Hje Hedge).
  - by rewrite Hcat.
  - rewrite Hsrc. cbn [ToString]. rewrite Hkeep; [exact Hj|]. left. by eexists.
  - rewrite Hsrc. cbn [ToString]. rewrite Hent; [exact Hserver| |].
    + apply lookup_gen_bound in Hgen. lia.
    + cbn [u_entities u_resources]. rewrite lookup_insert_ne; [apply lookup_empty|].
      intros Heq. symmetry in Heq. by apply genServerInstanceGUID_not_cohort in Heq.
  - rewrite Htgt. exact Hjc.
  - rewrite Htgt. exact Hcohort.
Qed.

Lemma cohort_link_is_not_selectable_witness :
  exists st',
    loadCohort "s" "c1" false provider_server = Ok (st', []) /\
    selectTargetResource "SERVER_COHORTs@c1" st'
    = Ok (st', [Alert not_a_platform_server_link]).
Proof.
  destruct (loadCohort "s" "c1" false provider_server) as [[st' alerts]| |] eqn:Hrun;
    [|vm_compute in Hrun; discriminate Hrun..].
  assert (alerts = []) as ->.
  { vm_compute in Hrun. by injection Hrun as _ <-. }
  exists st'. split; [reflexivity|].
  apply (cohort_link_is_not_selectable "s" "c1" false provider_server st' [] 1
           server_in_cohort); [reflexivity|reflexivity|reflexivity|exact Hrun].
Defined.

Lemma processRetrievedServer_link rs serverOverview st st'
    serverInstanceName platformName serverName :
  get_prop serverOverview "serverInstanceName" = Ok serverInstanceName ->
  get_prop rs "platformName" = Ok platformName ->
  get_prop serverOverview "serverName" = Ok serverName ->
  resourceExists st (genPlatformGUID platformName) = true ->
  processRetrievedServer rs serverOverview st = Ok st' ->
  exists serverInstance edge st1,
    serverInstance !! "category" = Some (VStr "server-instance") /\
    serverInstance !! "serverInstanceName" = Some serverInstanceName /\
    serverInstance !! "serverName" = Some serverName /\
    edge !! "source" = Some (VStr (genPlatformGUID platformName)) /\
    edge !! "target" = Some (VStr (genServerInstanceGUID serverInstanceName)) /\
    updateGens
      (mkUpdate (<[genServerInstanceGUID serverInstanceName := serverInstance]> ∅)
         (<[genPlatformServerEdgeGUID
              (VStr (String.append (string_concat (ToString serverName) (VStr "@"))
                       (ToString platformName))) := edge]> ∅)) rs st = Ok st1 /\
    st' = setOperationState inactive
            (setServerConfig initial_serverConfig
               (setFocus (mkFocus "server-instance"
                            (genServerInstanceGUID serverInstanceName)) st1)).
Proof.
  intros Hi Hp Hn Hex. unfold processRetrievedServer. rewrite Hi. cbn [obind].
  rewrite Hp. cbn [obind]. rewrite Hn. cbn [obind]. rewrite Hex.
  destruct (get_prop serverOverview "description") as [d| |]; cbn [obind]; [|discriminate..].
  destruct (get_prop serverOverview "platformRootURL") as [x1| |]; cbn [obind]; [|discriminate..].
  destruct (get_prop serverOverview "serverOrigin") as [x2| |]; cbn [obind]; [|discriminate..].
  destruct (get_prop serverOverview "serverClassification") as [x3| |]; cbn [obind]; [|discriminate..].
  destruct (get_prop serverOverview "cohortDetails") as [x4| |]; cbn [obind]; [|discriminate..].
  destruct (get_prop serverOverview "serverStatus") as [x5| |]; cbn [obind]; [|discriminate..].
  destruct (get_prop serverOverview "serverServicesList") as [x6| |]; cbn [obind]; [|discriminate..].
  destruct (get_prop serverOverview "integrationServices") as [x7| |]; cbn [obind]; [|discriminate..].
  destruct (updateGens _ rs st) as [st1| |] eqn:Hupd; cbn [obind]; [|discriminate..].
  intros [= <-]. eexists _, _, st1.
  split; [|split; [|split; [|split; [|split; [|split; [exact Hupd|reflexivity]]]]]];
    rewrite lookup_object_of; reflexivity.
Qed.

(** X28: after [processRetrievedServer] has stored a server whose
    platform is in the graph as a resource of category "platform", the
    link it made can be followed: selecting it sets the operation state
    to "loading" under the name of the server and posts one request for
    the same server, on the platform name the stored platform carries. *)
Theorem server_link_requests_the_server rs serverOverview st st'
    serverInstanceName platformName serverName j platform :
  get_prop serverOverview "serverInstanceName" = Ok serverInstanceName ->
  get_prop rs "platformName" = Ok platformName ->
  get_prop serverOverview "serverName" = Ok serverName ->
  guidToGenId st !! genPlatformGUID platformName = Some j ->
  entity_at (gens st) j Resource (genPlatformGUID platformName) = Some platform ->
  field platform "category" = VStr "platform" ->
  processRetrievedServer rs serverOverview st = Ok st' ->
  selectTargetResource
    (genPlatformServerEdgeGUID
       (VStr (String.append (string_concat (ToString serverName) (VStr "@"))
                (ToString platformName))))
    st'
  = Ok (setOperationState (mkOperationState "loading" serverName) st',
        loadServer serverInstanceName serverName (field platform "platformName")).
Proof.
  intros Hi Hp Hn Hj Hplatform Hcat Hrun.
  assert (resourceExists st (genPlatformGUID platformName) = true) as Hex.
  { unfold resourceExists. apply bool_decide_eq_true. rewrite Hj. by eexists. }
  destruct (processRetrievedServer_link _ _ _ _ _ _ _ Hi Hp Hn Hex Hrun)
    as (serverInstance & edge0 & st1 & Hc & Hin & Hsn & Hes & Het & Hupd & ->).
  destruct (updateGens_frame _ _ _ _ Hupd) as (_ & _ & _ & Hent & _ & Hkeep).
  destruct (updateGens_supplied_content _ _ _ _ Relationship _ _ Hupd
              (lookup_insert_eq _ _ _)) as (je & edge & Hje & Hedge & Hfields).
  destruct (updateGens_supplied_content _ _ _ _ Resource _ _ Hupd
              (lookup_insert_eq _ _ _)) as (js & server & Hjs & Hserver & Hsf).
  assert (field edge "source" = VStr (genPlatformGUID platformName)) as Hsrc.
  { apply field_lookup, Hfields; [discriminate|exact Hes]. }
  assert (field edge "target" = VStr (genServerInstanceGUID serverInstanceName)) as Htgt.
  { apply field_lookup, Hfields; [discriminate|exact Het]. }
  assert (entity_at (gens st1) j Resource (genPlatformGUID platformName) = Some platform)
    as Hplatform1.
  { rewrite Hent; [exact Hplatform| |].
    - assert (stores (gens st) j Resource (genPlatformGUID platformName)) as Hst
        by (by eexists).
      apply stores_bound in Hst. lia.
    - cbn [u_entities u_resources]. rewrite lookup_insert_ne; [apply lookup_empty|].
      intros Heq. symmetry in Heq. by apply genPlatformGUID_not_server in Heq. }
  assert (guidToGenId st1 !! genPlatformGUID platformName = Some j) as Hj1.
  { rewrite Hkeep; [exact Hj|]. left. by eexists. }
  set (st2 := setOperationState inactive _).
  assert (gens st2 = gens st1) as Hg2 by reflexivity.
  assert (guidToGenId st2 = guidToGenId st1) as Hm2 by reflexivity.
  rewrite (selectTargetResource_stored _ st2 je edge j platform js server).
  - rewrite Hcat. cbn [strict_eq]. rewrite String.eqb_refl.
    rewrite (field_lookup server "category" (VStr "server-instance"))
      by (apply Hsf; [discriminate|exact Hc]).
    cbn [strict_eq]. rewrite String.eqb_refl. cbn [andb].
    rewrite (field_lookup server "serverName" serverName)
      by (apply Hsf; [discriminate|exact Hsn]).
    rewrite (field_lookup server "serverInstanceName" serverInstanceName)
      by (apply Hsf; [discriminate|exact Hin]).
    reflexivity.
  - by rewrite Hm2.
  - by rewrite Hg2.
  - rewrite Hsrc, Hm2. exact Hj1.
  - rewrite Hsrc, Hg2. exact Hplatform1.
  - rewrite Htgt, Hm2. exact Hjs.
  - rewrite Htgt, Hg2. exact Hserver.
Qed.

Lemma server_link_requests_the_server_witness :
  exists st',
    processRetrievedServer summary_p overview_s provider_platform = Ok st' /\
    selectTargetResource "PLATFORM_TO_SERVER_cocoMDS1@p" st'
    = Ok (setOperationState (mkOperationState "loading" (VStr "cocoMDS1")) st',
          loadServer (VStr "s") (VStr "cocoMDS1")
            (field stored_platform_p "platformName")).
Proof.
  destruct (processRetrievedServer summary_p overview_s provider_platform)
    as [st'| |] eqn:Hrun; [|vm_compute in Hrun; discriminate Hrun..].
  exists st'. split; [reflexivity|].
  apply (server_link_requests_the_server summary_p overview_s provider_platform st'
           (VStr "s") (VStr "p") (VStr "cocoMDS1") 1 stored_platform_p);
    [reflexivity|reflexivity|reflexivity|reflexivity|reflexivity|reflexivity|exact Hrun].
Defined.

End SelectTarget.
